(** * DifferentialGeometry.py: tensor derivation engine

    A shallow embedding of [DifferentialGeometry.py].  The program computes
    Christoffel symbols, the Riemann, Ricci and Einstein tensors, the Ricci
    scalar and the Gaussian curvature of a metric given as a matrix of
    symbolic expressions, and integrates the geodesic equation numerically.

    The computer-algebra system (sympy) and the numeric libraries (numpy,
    scipy) are collaborators of the program, not part of it: they enter the
    development as interfaces ([SymbolicBackend], [NumericBackend]), and
    every property of theirs that a theorem relies on is a named law in the
    statement of that theorem.  Python exceptions are values of an error
    monad; the loops of the program are folds that thread the array being
    filled. *)

From Stdlib Require Import String.
From Stdlib Require Import ZArith QArith List Lia Bool.
From Stdlib Require Import Setoid Morphisms Ring Field.
Import ListNotations.

Local Close Scope Q_scope.
Local Open Scope nat_scope.

(** ** Python exceptions and the error monad *)

Inductive exception : Type :=
| AssertionError (msg : string)
| IndexError
| KeyError
| ValueError
| TypeError
| NameError
| NonSquareMatrixError
| NonInvertibleMatrixError.

Inductive result (A : Type) : Type :=
| Ok (a : A)
| Raise (e : exception).

Arguments Ok {A} a.
Arguments Raise {A} e.

Definition bind {A B : Type} (m : result A) (k : A -> result B) : result B :=
  match m with
  | Ok a => k a
  | Raise e => Raise e
  end.

Notation "x <- m ;; k" := (bind m (fun x => k))
  (at level 61, m at next level, right associativity).

Definition succeeds {A : Type} (m : result A) : Prop := exists a, m = Ok a.

Definition fails {A : Type} (m : result A) : Prop := exists e, m = Raise e.

(** [for i in l: s = body(i, s)]; an exception leaves the loop. *)
Fixpoint for_each {S : Type} (l : list nat) (body : nat -> S -> result S) (s : S)
  : result S :=
  match l with
  | [] => Ok s
  | i :: l' => s' <- body i s ;; for_each l' body s'
  end.

(** [for i in range(n)] *)
Definition for_range {S : Type} (n : nat) (body : nat -> S -> result S) (s : S)
  : result S :=
  for_each (seq 0 n) body s.

(** [xs[i]] on a Python list, for an index that is not negative. *)
Definition py_index {A : Type} (xs : list A) (i : nat) : result A :=
  match nth_error xs i with
  | Some a => Ok a
  | None => Raise IndexError
  end.

Fixpoint list_nat_eqb (a b : list nat) : bool :=
  match a, b with
  | [], [] => true
  | x :: a', y :: b' => (x =? y) && list_nat_eqb a' b'
  | _, _ => false
  end.

Fixpoint in_bounds (shape idx : list nat) : bool :=
  match shape, idx with
  | [], [] => true
  | d :: shape', i :: idx' => (i <? d) && in_bounds shape' idx'
  | _, _ => false
  end.

(** ** The symbolic backend

    What the program asks of sympy: expression arithmetic (Python's
    operators on expressions), [diff], [simplify], and the [Matrix]
    methods [inv] and [det].  [of_int] is a Python [int] that meets an
    expression in an arithmetic operator, [half_float] is the Python
    [float] written [(1/2)]. *)

Class SymbolicBackend : Type := {
  expr : Type;
  symbol : Type;
  of_int : Z -> expr;
  half_float : expr;
  add : expr -> expr -> expr;
  sub : expr -> expr -> expr;
  mul : expr -> expr -> expr;
  div : expr -> expr -> expr;
  neg : expr -> expr;
  pow : expr -> expr -> expr;
  diff : expr -> symbol -> expr;
  simplify : expr -> expr;
  expr_eqb : expr -> expr -> bool;
  Matrix_inv : list (list expr) -> result (list (list expr));
  Matrix_det : list (list expr) -> result expr;
  symbol_s : symbol;
  Function_of : symbol -> symbol -> expr;
  dot_symbol : expr -> symbol;
  subs : expr -> list (expr * symbol) -> expr
}.

Section Program.

Context {B : SymbolicBackend}.

(** *** sympy matrices, as lists of rows *)

Definition matrix : Type := list (list expr).

Definition rows (m : matrix) : nat := length m.

Definition cols (m : matrix) : nat := length (hd [] m).

Definition rectangular (m : matrix) : bool :=
  forallb (fun r => length r =? cols m) m.

(** [Matrix(metric)] on a list of rows: rows of different lengths are
    refused, and the two empty inputs give the empty matrix. *)
Definition Matrix (dat : list (list expr)) : result matrix :=
  match dat with
  | [] | [ [] ] => Ok []
  | _ => if rectangular dat then Ok dat else Raise ValueError
  end.

(** [g[i, j]] on a sympy matrix *)
Definition mat_get (m : matrix) (i j : nat) : result expr :=
  r <- py_index m i ;; py_index r j.

(** The same entry as a total function, for stating formulas. *)
Definition mat_at (m : matrix) (i j : nat) : expr :=
  nth j (nth i m []) (of_int 0).

Definition var_at (x : list symbol) (i : nat) : symbol := nth i x symbol_s.

(** *** numpy arrays with [dtype=object] *)

Record ndarray : Type := {
  shape : list nat;
  item : list nat -> expr
}.

(** [np.zeros(shape, dtype=object)]: every cell holds the Python [int] 0. *)
Definition np_zeros (sh : list nat) : ndarray :=
  {| shape := sh; item := fun _ => of_int 0 |}.

Definition nd_get (a : ndarray) (idx : list nat) : result expr :=
  if in_bounds (shape a) idx then Ok (item a idx) else Raise IndexError.

Definition nd_set (a : ndarray) (idx : list nat) (v : expr) : result ndarray :=
  if in_bounds (shape a) idx
  then Ok {| shape := shape a;
             item := fun j => if list_nat_eqb idx j then v else item a j |}
  else Raise IndexError.

(** [a[idx] += v] *)
Definition nd_iadd (a : ndarray) (idx : list nat) (v : result expr)
  : result ndarray :=
  old <- nd_get a idx ;;
  v' <- v ;;
  nd_set a idx (add old v').

(** ** class DifferentialGeometry *)

Record DifferentialGeometry : Type := {
  metric : matrix;
  inverse_metric : matrix;
  det : expr;
  ndim : nat;
  variables : list symbol;
  parameterized_vars : list expr
}.

Definition DifferentialGeometry_init (metric0 : list (list expr))
    (variables0 : list symbol) : result DifferentialGeometry :=
  m <- Matrix metric0 ;;
  inv <- Matrix_inv m ;;
  d <- Matrix_det m ;;
  Ok {| metric := m;
        inverse_metric := inv;
        det := d;
        ndim := length metric0;
        variables := variables0;
        parameterized_vars :=
          map (fun var => Function_of var symbol_s) variables0 |}.

(** ** class ClassicalDifferentialGeometry *)

Definition two : expr := of_int 2.
Definition four : expr := of_int 4.

Definition compute_gaussian_curvature (self : DifferentialGeometry)
  : result expr :=
  let det := det self in
  let g := metric self in
  let x := variables self in
  (* first_term *)
  g01 <- mat_get g 0 1 ;; x0 <- py_index x 0 ;; x1 <- py_index x 1 ;;
  g00 <- mat_get g 0 0 ;; g11 <- mat_get g 1 1 ;;
  let first_term :=
    div (sub (sub (mul two (diff (diff g01 x0) x1))
                  (diff (diff g00 x1) x1))
             (diff (diff g11 x0) x0))
        (mul two det) in
  let second_term :=
    div (mul (sub (mul (diff g00 x0)
                       (sub (mul two (diff g01 x1)) (diff g11 x0)))
                  (pow (diff g00 x1) two))
             g11)
        (mul four (pow det two)) in
  let third_term :=
    div (mul (add (sub (mul (diff g00 x0) (diff g11 x1))
                       (mul (mul two (diff g00 x1)) (diff g11 x0)))
                  (mul (sub (mul two (diff g01 x0)) (diff g00 x1))
                       (sub (mul two (diff g01 x1)) (diff g11 x0))))
             g01)
        (mul four (pow det two)) in
  let forth_term :=
    div (mul (sub (mul (diff g11 x1)
                       (sub (mul two (diff g01 x0)) (diff g00 x1)))
                  (pow (diff g11 x0) two))
             g00)
        (mul four (pow det two)) in
  Ok (simplify (sub (add (sub first_term second_term) third_term) forth_term)).

Record ClassicalDifferentialGeometry : Type := {
  classical_base : DifferentialGeometry;
  gaussian_curvature : expr
}.

Definition assert_msg : string :=
  "Classical differential geometry is only defined for 2D surfaces".

Definition ClassicalDifferentialGeometry_init (metric0 : list (list expr))
    (variables0 : list symbol) : result ClassicalDifferentialGeometry :=
  self <- DifferentialGeometry_init metric0 variables0 ;;
  if ndim self =? 2
  then
    k <- compute_gaussian_curvature self ;;
    Ok {| classical_base := self; gaussian_curvature := k |}
  else Raise (AssertionError assert_msg).

(** ** class RiemannGeometry *)

(** One summand of line 64, for the index [mu]. *)
Definition christoffel_term (g inv_g : matrix) (x : list symbol)
    (rho lamda nu mu : nat) : result expr :=
  a <- mat_get inv_g rho mu ;;
  gmn <- mat_get g mu nu ;; xl <- py_index x lamda ;;
  gml <- mat_get g mu lamda ;; xn <- py_index x nu ;;
  gnl <- mat_get g nu lamda ;; xm <- py_index x mu ;;
  Ok (div (mul a (sub (add (diff gmn xl) (diff gml xn)) (diff gnl xm))) two).

Definition compute_christoffel_symbols (self : DifferentialGeometry)
  : result ndarray :=
  let ndim := ndim self in
  let g := metric self in
  let inv_g := inverse_metric self in
  let x := variables self in
  for_range ndim (fun rho =>
    for_range ndim (fun lamda =>
      for_range ndim (fun nu christoffel_symbols =>
        christoffel_symbols <-
          for_range ndim (fun mu christoffel_symbols =>
            nd_iadd christoffel_symbols [rho; lamda; nu]
              (christoffel_term g inv_g x rho lamda nu mu))
            christoffel_symbols ;;
        old <- nd_get christoffel_symbols [rho; lamda; nu] ;;
        nd_set christoffel_symbols [rho; lamda; nu] (simplify old))))
    (np_zeros [ndim; ndim; ndim]).

(** One summand of line 82, for the index [sigma]. *)
Definition riemann_term (gamma : ndarray) (rho lamda mu nu sigma : nat)
  : result expr :=
  a <- nd_get gamma [sigma; lamda; mu] ;;
  b <- nd_get gamma [rho; sigma; nu] ;;
  c <- nd_get gamma [sigma; lamda; nu] ;;
  d <- nd_get gamma [rho; sigma; mu] ;;
  Ok (add (mul (neg a) b) (mul c d)).

(** The derivative part of line 84. *)
Definition riemann_diff_term (gamma : ndarray) (x : list symbol)
    (rho lamda mu nu : nat) : result expr :=
  a <- nd_get gamma [rho; lamda; mu] ;; xn <- py_index x nu ;;
  b <- nd_get gamma [rho; lamda; nu] ;; xm <- py_index x mu ;;
  Ok (add (neg (diff a xn)) (diff b xm)).

Definition compute_riemann_curvature_tensor (ndim : nat) (gamma : ndarray)
    (x : list symbol) : result ndarray :=
  for_range ndim (fun rho =>
    for_range ndim (fun lamda =>
      for_range ndim (fun mu =>
        for_range ndim (fun nu riemann_curvature_tensor =>
          riemann_curvature_tensor <-
            for_range ndim (fun sigma riemann_curvature_tensor =>
              nd_iadd riemann_curvature_tensor [rho; lamda; mu; nu]
                (riemann_term gamma rho lamda mu nu sigma))
              riemann_curvature_tensor ;;
          riemann_curvature_tensor <-
            nd_iadd riemann_curvature_tensor [rho; lamda; mu; nu]
              (riemann_diff_term gamma x rho lamda mu nu) ;;
          old <- nd_get riemann_curvature_tensor [rho; lamda; mu; nu] ;;
          nd_set riemann_curvature_tensor [rho; lamda; mu; nu]
            (simplify old)))))
    (np_zeros [ndim; ndim; ndim; ndim]).

Definition compute_ricci_tensor (ndim : nat) (riemann : ndarray)
  : result ndarray :=
  for_range ndim (fun mu =>
    for_range ndim (fun nu ricci_tensor =>
      ricci_tensor <-
        for_range ndim (fun lamda ricci_tensor =>
          nd_iadd ricci_tensor [mu; nu] (nd_get riemann [lamda; mu; lamda; nu]))
          ricci_tensor ;;
      old <- nd_get ricci_tensor [mu; nu] ;;
      nd_set ricci_tensor [mu; nu] (simplify old)))
    (np_zeros [ndim; ndim]).

Definition compute_ricci_scalar (ndim : nat) (inv_g : matrix) (ricci : ndarray)
  : result expr :=
  ricci_scalar <-
    for_range ndim (fun mu =>
      for_range ndim (fun nu ricci_scalar =>
        a <- mat_get inv_g mu nu ;;
        r <- nd_get ricci [mu; nu] ;;
        Ok (add ricci_scalar (mul a r))))
      (of_int 0) ;;
  Ok (simplify ricci_scalar).

(** [simplify] on a numpy array of expressions simplifies cell by cell. *)
Definition simplify_array (a : ndarray) : ndarray :=
  {| shape := shape a; item := fun idx => simplify (item a idx) |}.

Definition compute_einstein_tensor (ndim : nat) (g : matrix) (ricci : ndarray)
    (ricci_scalar : expr) : result ndarray :=
  einstein_tensor <-
    for_range ndim (fun mu =>
      for_range ndim (fun nu einstein_tensor =>
        r <- nd_get ricci [mu; nu] ;;
        gmn <- mat_get g mu nu ;;
        nd_set einstein_tensor [mu; nu]
          (sub r (mul (mul half_float ricci_scalar) gmn))))
      (np_zeros [ndim; ndim]) ;;
  Ok (simplify_array einstein_tensor).

Record RiemannGeometry : Type := {
  riemann_base : DifferentialGeometry;
  christoffel_symbols : ndarray;
  riemann_curvature_tensor : ndarray;
  ricci_tensor : ndarray;
  ricci_scalar : expr;
  einstein_tensor : ndarray
}.

Definition RiemannGeometry_init (metric0 : list (list expr))
    (variables0 : list symbol) : result RiemannGeometry :=
  self <- DifferentialGeometry_init metric0 variables0 ;;
  gamma <- compute_christoffel_symbols self ;;
  riemann <- compute_riemann_curvature_tensor (ndim self) gamma (variables self) ;;
  ricci <- compute_ricci_tensor (ndim self) riemann ;;
  scalar <- compute_ricci_scalar (ndim self) (inverse_metric self) ricci ;;
  einstein <- compute_einstein_tensor (ndim self) (metric self) ricci scalar ;;
  Ok {| riemann_base := self;
        christoffel_symbols := gamma;
        riemann_curvature_tensor := riemann;
        ricci_tensor := ricci;
        ricci_scalar := scalar;
        einstein_tensor := einstein |}.

End Program.


(** ** The numeric backend

    What the program asks of numpy and scipy.  Floating-point numbers are
    idealised as rationals.  The generator behind [np.random] is a global
    of the interpreter: a call receives its state and returns the new one.
    [np.random.seed] can refuse its argument: [random_seed] is the state it
    installs, or the exception it raises. *)

Class NumericBackend (B : SymbolicBackend) : Type := {
  rng_state : Type;
  random_seed : Z -> result rng_state;
  random_random : rng_state -> Q * rng_state;
  lambdify : list symbol -> expr -> list Q -> result Q;
  odeint : (list Q -> Q -> result (list Q)) -> list Q -> list Q
           -> result (list (list Q))
}.

(** [np.linspace(start, stop, num)], end point included. *)
Definition np_linspace (start stop : Q) (num : nat) : list Q :=
  let step := ((stop - start) / inject_Z (Z.of_nat (num - 1)))%Q in
  map (fun i => (inject_Z (Z.of_nat i) * step + start)%Q) (seq 0 num).

(** [[f(a) for a in l]] when [f] can raise. *)
Fixpoint map_result {A C : Type} (f : A -> result C) (l : list A)
  : result (list C) :=
  match l with
  | [] => Ok []
  | a :: l' => c <- f a ;; cs <- map_result f l' ;; Ok (c :: cs)
  end.

Section Geodesic.

Context {B : SymbolicBackend} {N : NumericBackend B}.

(** Python dictionaries keyed by expressions, in insertion order. *)
Definition pydict (V : Type) : Type := list (expr * V).

Fixpoint dict_get {V : Type} (d : pydict V) (k : expr) : result V :=
  match d with
  | [] => Raise KeyError
  | (k', v) :: d' => if expr_eqb k' k then Ok v else dict_get d' k
  end.

Fixpoint dict_set {V : Type} (d : pydict V) (k : expr) (v : V) : pydict V :=
  match d with
  | [] => [(k, v)]
  | (k', v') :: d' =>
      if expr_eqb k' k then (k', v) :: d' else (k', v') :: dict_set d' k v
  end.

Definition dict_values {V : Type} (d : pydict V) : list V := map snd d.

Definition compute_geodesic_equation (self : RiemannGeometry)
  : result (pydict expr) :=
  let ndim := ndim (riemann_base self) in
  let gamma := christoffel_symbols self in
  let parameterized_vars := parameterized_vars (riemann_base self) in
  let s := symbol_s in
  for_range ndim (fun i geodesic_equation =>
    pi <- py_index parameterized_vars i ;;
    for_range ndim (fun j =>
      for_range ndim (fun k geodesic_equation =>
        key <- py_index parameterized_vars i ;;
        old <- dict_get geodesic_equation key ;;
        g <- nd_get gamma [i; j; k] ;;
        pj <- py_index parameterized_vars j ;;
        pk <- py_index parameterized_vars k ;;
        Ok (dict_set geodesic_equation key
              (sub old (mul (mul g (diff pj s)) (diff pk s))))))
      (dict_set geodesic_equation pi (of_int 0)))
    [].

(** [func(y, s)], the right-hand side handed to [odeint]. *)
Definition func (ndim : nat) (parameterized_vars : list expr)
    (geodesic_function : pydict (list Q -> result Q)) (y : list Q) (s : Q)
  : result (list Q) :=
  dydt1 <- map_result (fun i => py_index y (i + ndim)) (seq 0 ndim) ;;
  dydt2 <- map_result (fun var => f <- dict_get geodesic_function var ;; f y)
             parameterized_vars ;;
  Ok (dydt1 ++ dydt2).

(** [[np.random.random() for _ in range(k)]] *)
Fixpoint draw (k : nat) (st : rng_state) : list Q * rng_state :=
  match k with
  | O => ([], st)
  | S k' =>
      let (v, st') := random_random st in
      let (vs, st'') := draw k' st' in
      (v :: vs, st'')
  end.

(** The dictionary [substitutes] of line 162. *)
Definition substitutes (self : RiemannGeometry) : pydict symbol :=
  fold_left (fun d var => dict_set d (diff var symbol_s) (dot_symbol var))
    (parameterized_vars (riemann_base self)) [].

(** The arguments of the numeric functions: the coordinate variables,
    then the values of [substitutes]. *)
Definition lambdify_args (self : RiemannGeometry) : list symbol :=
  variables (riemann_base self) ++ dict_values (substitutes self).

(** The dictionary [geodesic_function] of line 164. *)
Definition geodesic_function (self : RiemannGeometry)
    (geodesic_equation : pydict expr)
  : result (pydict (list Q -> result Q)) :=
  fold_left (fun r var =>
               d <- r ;;
               e <- dict_get geodesic_equation var ;;
               Ok (dict_set d var
                     (lambdify (lambdify_args self)
                        (subs e (substitutes self)))))
    (parameterized_vars (riemann_base self)) (Ok []).

(** A seed that [np.random.seed] refuses leaves the call by the exception
    of line 154, with the generator as the call found it. *)
Definition solve_geodesic_equation (self : RiemannGeometry) (seed : Z)
    (global_rng : rng_state) : result (list (list Q)) * rng_state :=
  match random_seed seed with
  | Raise e => (Raise e, global_rng)
  | Ok global_rng =>
      let ndim := ndim (riemann_base self) in
      match compute_geodesic_equation self with
      | Raise e => (Raise e, global_rng)
      | Ok geodesic_equation =>
          let parameterized_vars := parameterized_vars (riemann_base self) in
          match geodesic_function self geodesic_equation with
          | Raise e => (Raise e, global_rng)
          | Ok geodesic_function =>
              let (y0, global_rng) := draw (2 * ndim) global_rng in
              let t := np_linspace 0 10 1000 in
              (odeint (func ndim parameterized_vars geodesic_function) y0 t,
               global_rng)
          end
      end
  end.

(** The initial state that a call with [seed] draws, line 173, when the
    seed is accepted. *)
Definition initial_state (self : RiemannGeometry) (seed : Z)
  : result (list Q) :=
  global_rng <- random_seed seed ;;
  Ok (fst (draw (2 * ndim (riemann_base self)) global_rng)).

(** The sample times of line 174. *)
Definition sample_times : list Q := np_linspace 0 10 1000.

End Geodesic.

(** ** Closed forms of the tensor entries

    The expressions that the loops leave in the cells of their arrays,
    written on total accessors, and the vocabulary of the loop invariants. *)

Section Formulas.

Context {B : SymbolicBackend}.

(** The sum that a [+=] loop leaves in its cell. *)
Definition sum_onto (start : expr) (l : list nat) (term : nat -> expr) : expr :=
  fold_left (fun acc i => add acc (term i)) l start.

(** The summand of the Christoffel loop, on total accessors. *)
Definition christoffel_summand (g inv_g : matrix) (x : list symbol)
    (rho lamda nu mu : nat) : expr :=
  div (mul (mat_at inv_g rho mu)
           (sub (add (diff (mat_at g mu nu) (var_at x lamda))
                     (diff (mat_at g mu lamda) (var_at x nu)))
                (diff (mat_at g nu lamda) (var_at x mu))))
      (of_int 2).

(** The summand of line 82 and the derivative part of line 84, on total
    accessors. *)
Definition riemann_summand (gamma : ndarray) (rho lamda mu nu sigma : nat)
  : expr :=
  add (mul (neg (item gamma [sigma; lamda; mu])) (item gamma [rho; sigma; nu]))
      (mul (item gamma [sigma; lamda; nu]) (item gamma [rho; sigma; mu])).

Definition riemann_diff_part (gamma : ndarray) (x : list symbol)
    (rho lamda mu nu : nat) : expr :=
  add (neg (diff (item gamma [rho; lamda; mu]) (var_at x nu)))
      (diff (item gamma [rho; lamda; nu]) (var_at x mu)).

(** The double sum of [compute_ricci_scalar], before [simplify]. *)
Definition ricci_scalar_sum (n : nat) (inv_g : matrix) (ricci : ndarray) : expr :=
  fold_left (fun acc mu =>
               sum_onto acc (seq 0 n)
                 (fun nu => mul (mat_at inv_g mu nu) (item ricci [mu; nu])))
            (seq 0 n) (of_int 0).

(** What a loop body does to the cells of the array: the cells selected by
    [T] get [F idx] of their old content, the others are left alone. *)
Definition updates (T : list nat -> Prop) (F : list nat -> expr -> expr)
    (s s' : ndarray) : Prop :=
  (forall idx, T idx -> item s' idx = F idx (item s idx)) /\
  (forall idx, ~ T idx -> item s' idx = item s idx).

(** Index tuples that extend the prefix [p] by [d] indices below [n]. *)
Definition under (n d : nat) (p idx : list nat) : Prop :=
  exists rest, idx = p ++ rest /\ length rest = d /\ Forall (fun i => i < n) rest.

Definition christoffel_cell (n : nat) (g inv_g : matrix) (x : list symbol)
    (idx : list nat) (start : expr) : expr :=
  match idx with
  | [rho; lamda; nu] =>
      simplify (sum_onto start (seq 0 n)
                  (christoffel_summand g inv_g x rho lamda nu))
  | _ => start
  end.

Definition riemann_cell (n : nat) (gamma : ndarray) (x : list symbol)
    (idx : list nat) (start : expr) : expr :=
  match idx with
  | [rho; lamda; mu; nu] =>
      simplify (add (sum_onto start (seq 0 n)
                       (riemann_summand gamma rho lamda mu nu))
                    (riemann_diff_part gamma x rho lamda mu nu))
  | _ => start
  end.

Definition ricci_cell (n : nat) (riemann : ndarray) (idx : list nat)
    (start : expr) : expr :=
  match idx with
  | [mu; nu] =>
      simplify (sum_onto start (seq 0 n)
                  (fun lamda => item riemann [lamda; mu; lamda; nu]))
  | _ => start
  end.

(** [Sum n f] is what a [+=] loop over [range(n)] leaves in a cell that
    held the integer 0: the terms [f 0], ..., [f (n-1)] added in turn. *)
Definition Sum (n : nat) (f : nat -> expr) : expr :=
  sum_onto (of_int 0) (seq 0 n) f.

(** Reading a constructed model: [self.metric[i, j]],
    [self.inverse_metric[i, j]], [self.variables[i]],
    [self.christoffel_symbols[rho, lamda, nu]],
    [self.riemann_curvature_tensor[rho, lamda, mu, nu]]. *)
Definition dimension (self : RiemannGeometry) : nat := ndim (riemann_base self).

Definition metric_at (self : RiemannGeometry) (i j : nat) : expr :=
  mat_at (metric (riemann_base self)) i j.

Definition inverse_at (self : RiemannGeometry) (i j : nat) : expr :=
  mat_at (inverse_metric (riemann_base self)) i j.

Definition coordinate (self : RiemannGeometry) (i : nat) : symbol :=
  var_at (variables (riemann_base self)) i.

Definition Gamma (self : RiemannGeometry) (rho lamda nu : nat) : expr :=
  item (christoffel_symbols self) [rho; lamda; nu].

Definition Riem (self : RiemannGeometry) (rho lamda mu nu : nat) : expr :=
  item (riemann_curvature_tensor self) [rho; lamda; mu; nu].

End Formulas.
(** ** Laws of the symbolic backend

    Two expressions are equivalent, [a == b], when they denote the same
    function of the coordinates.  The backend is lawful when its
    expressions form a field under that equivalence, [diff] is a derivation
    with commuting partial derivatives, [simplify] preserves the meaning of
    its argument, and [inv] and [det] of a 2-by-2 matrix are an inverse and
    the determinant. *)

Class ExprEquiv (B : SymbolicBackend) : Type :=
  expr_equiv : expr -> expr -> Prop.

Declare Scope expr_scope.
Delimit Scope expr_scope with E.
Infix "==" := expr_equiv (at level 70, no associativity) : expr_scope.
Infix "+" := add : expr_scope.
Infix "-" := sub : expr_scope.
Infix "*" := mul : expr_scope.
Infix "/" := div : expr_scope.
Notation "- x" := (neg x) : expr_scope.

Definition zero {B : SymbolicBackend} : expr := of_int 0.
Definition one {B : SymbolicBackend} : expr := of_int 1.
Definition recip {B : SymbolicBackend} (e : expr) : expr := div one e.

Class RingLaws (B : SymbolicBackend) {E : ExprEquiv B} : Prop := {
  equiv_equivalence :: Equivalence expr_equiv;
  add_proper :: Proper (expr_equiv ==> expr_equiv ==> expr_equiv) add;
  mul_proper :: Proper (expr_equiv ==> expr_equiv ==> expr_equiv) mul;
  neg_proper :: Proper (expr_equiv ==> expr_equiv) neg;
  backend_ring : ring_theory zero one add mul sub neg expr_equiv;
  simplify_sound : forall e, (simplify e == e)%E
}.

Class FieldLaws (B : SymbolicBackend) {E : ExprEquiv B} : Prop := {
  field_ring_laws :: RingLaws B;
  div_proper :: Proper (expr_equiv ==> expr_equiv ==> expr_equiv) div;
  diff_proper :: Proper (expr_equiv ==> eq ==> expr_equiv) diff;
  backend_field : field_theory zero one add mul sub neg div recip expr_equiv;
  of_int_two : (of_int 2 == one + one)%E;
  of_int_four : (of_int 4 == (one + one) * (one + one))%E;
  two_nonzero : ~ (one + one == zero)%E;
  pow_two : forall e, (pow e (of_int 2) == e * e)%E;
  diff_add : forall a b x, (diff (a + b) x == diff a x + diff b x)%E;
  diff_mul : forall a b x, (diff (a * b) x == diff a x * b + a * diff b x)%E;
  diff_one : forall x, (diff one x == zero)%E;
  diff_comm : forall e x y, (diff (diff e x) y == diff (diff e y) x)%E;
  inverse_2x2 : forall a b c d m,
    Matrix_inv [[a; b]; [c; d]] = Ok m ->
    (mat_at m 0 0 * a + mat_at m 0 1 * c == one)%E /\
    (mat_at m 0 0 * b + mat_at m 0 1 * d == zero)%E /\
    (mat_at m 1 0 * a + mat_at m 1 1 * c == zero)%E /\
    (mat_at m 1 0 * b + mat_at m 1 1 * d == one)%E;
  determinant_2x2 : forall a b c d e,
    Matrix_det [[a; b]; [c; d]] = Ok e -> (e == a * d - b * c)%E
}.


(** ** Contracts of the collaborators that single theorems rely on *)

(** [Matrix.inv] refuses a matrix that is not square. *)
Definition inv_rejects_nonsquare (B : SymbolicBackend) : Prop :=
  forall m : matrix, rows m <> cols m -> Matrix_inv m = Raise NonSquareMatrixError.

(** [Matrix.inv] refuses a square matrix whose determinant simplifies to
    the literal 0. *)
Definition inv_rejects_singular (B : SymbolicBackend) : Prop :=
  forall (m : matrix) (d : expr),
    rows m = cols m -> Matrix_det m = Ok d -> simplify d = of_int 0 ->
    Matrix_inv m = Raise NonInvertibleMatrixError.

(** Sums of expressions do not depend on the order of the operands (sympy
    keeps the arguments of a sum in a canonical order). *)
Definition add_commutes (B : SymbolicBackend) : Prop :=
  forall a b : expr, add a b = add b a.

(** [np.random.seed] accepts the integers from 0 to [2**32 - 1] and
    refuses every other integer with [ValueError]. *)
Definition seed_is_32_bit {B : SymbolicBackend} (N : NumericBackend B) : Prop :=
  forall seed : Z,
    ((0 <= seed < 2 ^ 32)%Z -> succeeds (random_seed seed)) /\
    (~ (0 <= seed < 2 ^ 32)%Z -> random_seed seed = Raise ValueError).


(** [odeint] returns one state per sample time, each as long as the
    initial state. *)
Definition odeint_shape {B : SymbolicBackend} (N : NumericBackend B) : Prop :=
  forall f y0 t sol,
    odeint f y0 t = Ok sol ->
    length sol = length t /\ Forall (fun y => length y = length y0) sol.

(** A matrix with [r] rows of [c] entries. *)
Definition has_shape {B : SymbolicBackend} (m : matrix) (r c : nat) : Prop :=
  length m = r /\ Forall (fun row => length row = c) m.

(** [Matrix.inv] returns a matrix of the size of its argument. *)
Definition inverse_keeps_size (B : SymbolicBackend) : Prop :=
  forall m inv_m : matrix,
    Matrix_inv m = Ok inv_m -> has_shape inv_m (rows m) (rows m).

(** An expression is equal to itself (Python's [==] on expressions, as
    dictionaries use it). *)
Definition eqb_reflexive (B : SymbolicBackend) : Prop :=
  forall e : expr, expr_eqb e e = true.

(** [odeint] returns when the right-hand side does: on every state of the
    length of the initial state it returns a derivative of that length. *)
Definition odeint_returns {B : SymbolicBackend} (N : NumericBackend B) : Prop :=
  forall f y0 t,
    (forall y s, length y = length y0 ->
       exists dy, f y s = Ok dy /\ length dy = length y0) ->
    succeeds (odeint f y0 t).

(** The numeric functions compiled from the geodesic equations of [self]
    return on every state of [2 * ndim] numbers. *)
Definition evaluates {B : SymbolicBackend} (N : NumericBackend B)
    (self : RiemannGeometry) : Prop :=
  forall geodesic_equation var e ys,
    compute_geodesic_equation self = Ok geodesic_equation ->
    dict_get geodesic_equation var = Ok e ->
    length ys = 2 * dimension self ->
    succeeds (lambdify (lambdify_args self) (subs e (substitutes self)) ys).

(** ** Concrete backends

    Two small computer-algebra systems on which the program runs inside
    Rocq.  Both invert matrices by cofactors. *)

Fixpoint remove_nth {A : Type} (n : nat) (l : list A) : list A :=
  match l, n with
  | [], _ => []
  | _ :: l', O => l'
  | a :: l', S n' => a :: remove_nth n' l'
  end.

Section Cofactor.

Context {T : Type}.
Variables (tzero tone : T) (tadd tmul tdiv : T -> T -> T) (tneg : T -> T).
Variable is_zero : T -> bool.

Definition minor (m : list (list T)) (i j : nat) : list (list T) :=
  map (remove_nth j) (remove_nth i m).

Definition signed (k : nat) (t : T) : T := if Nat.even k then t else tneg t.

(** Expansion along the first row. *)
Fixpoint cofactor_det (size : nat) (m : list (list T)) : T :=
  match size with
  | O => tone
  | S size' =>
      fold_left
        (fun acc j =>
           tadd acc (signed j (tmul (nth j (hd [] m) tzero)
                                    (cofactor_det size' (minor m 0 j)))))
        (seq 0 size) tzero
  end.

Definition cofactor_determinant (m : list (list T)) : result T :=
  if length m =? length (hd [] m)
  then Ok (cofactor_det (length m) m)
  else Raise NonSquareMatrixError.

Definition cofactor_inverse (m : list (list T)) : result (list (list T)) :=
  if length m =? length (hd [] m)
  then
    let n := length m in
    let d := cofactor_det n m in
    if is_zero d then Raise NonInvertibleMatrixError
    else Ok (map (fun i =>
                    map (fun j =>
                           tdiv (signed (i + j)
                                   (cofactor_det (n - 1) (minor m j i))) d)
                        (seq 0 n))
                 (seq 0 n))
  else Raise NonSquareMatrixError.

End Cofactor.

(** *** Polynomials in the symbol x with rational coefficients

    A polynomial is the list of its coefficients, constant term first; in
    normal form the coefficients are reduced fractions and the last one is
    not zero.  [None] stands for an expression that is not such a
    polynomial (a quotient by a polynomial of positive degree, an applied
    function), and stays [None] under every operation. *)

Definition poly : Type := list Q.

Definition pnorm (p : poly) : poly :=
  fold_right
    (fun c acc =>
       match acc with
       | [] => if Qeq_bool c 0 then [] else [Qred c]
       | _ => Qred c :: acc
       end)
    [] p.

Fixpoint padd (p q : poly) : poly :=
  match p, q with
  | [], _ => q
  | _, [] => p
  | a :: p', b :: q' => (a + b)%Q :: padd p' q'
  end.

Definition pscale (c : Q) (p : poly) : poly := map (Qmult c) p.

Fixpoint pmul (p q : poly) : poly :=
  match p with
  | [] => []
  | a :: p' => padd (pscale a q) (0%Q :: pmul p' q)
  end.

Fixpoint ppow (p : poly) (k : nat) : poly :=
  match k with
  | O => [1%Q]
  | S k' => pmul p (ppow p k')
  end.

Fixpoint pderiv_from (k : Z) (p : poly) : poly :=
  match p with
  | [] => []
  | c :: p' => (inject_Z k * c)%Q :: pderiv_from (k + 1) p'
  end.

Definition pderiv (p : poly) : poly :=
  match p with
  | [] => []
  | _ :: p' => pderiv_from 1 p'
  end.

Fixpoint peval (p : poly) (x : Q) : Q :=
  match p with
  | [] => 0%Q
  | c :: p' => (c + x * peval p' x)%Q
  end.

Fixpoint poly_eqb (p q : poly) : bool :=
  match p, q with
  | [], [] => true
  | a :: p', b :: q' => Qeq_bool a b && poly_eqb p' q'
  | _, _ => false
  end.

Definition pexpr : Type := option poly.

Definition pe_lift2 (f : poly -> poly -> poly) (a b : pexpr) : pexpr :=
  match a, b with
  | Some p, Some q => Some (pnorm (f p q))
  | _, _ => None
  end.

Definition pe_of_int (z : Z) : pexpr := Some (pnorm [inject_Z z]).

Definition pe_add : pexpr -> pexpr -> pexpr := pe_lift2 padd.

Definition pe_sub : pexpr -> pexpr -> pexpr :=
  pe_lift2 (fun p q => padd p (pscale (-1) q)).

Definition pe_simplify (a : pexpr) : pexpr := option_map pnorm a.

Definition pe_is_zero (a : pexpr) : bool :=
  match pe_simplify a with
  | Some [] => true
  | _ => false
  end.

(** A product with the polynomial 0 is 0, whatever the other factor. *)
Definition pe_mul (a b : pexpr) : pexpr :=
  if (pe_is_zero a || pe_is_zero b)%bool then Some [] else pe_lift2 pmul a b.

Definition pe_neg (a : pexpr) : pexpr :=
  option_map (fun p => pnorm (pscale (-1) p)) a.

(** Quotients by a constant that is not zero stay polynomials. *)
Definition pe_div (a b : pexpr) : pexpr :=
  match a, b with
  | Some p, Some q =>
      match pnorm q with
      | [c] => Some (pnorm (pscale (/ c) p))
      | _ => None
      end
  | _, _ => None
  end.

(** Powers with a natural number as exponent stay polynomials. *)
Definition pe_pow (a b : pexpr) : pexpr :=
  match a, b with
  | Some p, Some q =>
      match pnorm q with
      | [] => Some [1%Q]
      | [c] =>
          if ((Qden c =? 1)%positive && (0 <=? Qnum c)%Z)%bool
          then Some (pnorm (ppow p (Z.to_nat (Qnum c))))
          else None
      | _ => None
      end
  | _, _ => None
  end.

Definition pe_diff (a : pexpr) (v : string) : pexpr :=
  option_map (fun p => if String.eqb v "x" then pnorm (pderiv p) else []) a.

Definition pe_eqb (a b : pexpr) : bool :=
  match a, b with
  | Some p, Some q => poly_eqb (pnorm p) (pnorm q)
  | None, None => true
  | _, _ => false
  end.

Definition PolyBackend : SymbolicBackend := {|
  expr := pexpr;
  symbol := string;
  of_int := pe_of_int;
  half_float := Some [(1 # 2)%Q];
  add := pe_add;
  sub := pe_sub;
  mul := pe_mul;
  div := pe_div;
  neg := pe_neg;
  pow := pe_pow;
  diff := pe_diff;
  simplify := pe_simplify;
  expr_eqb := pe_eqb;
  Matrix_inv :=
    cofactor_inverse (pe_of_int 0) (pe_of_int 1) pe_add pe_mul pe_div pe_neg
      pe_is_zero;
  Matrix_det := cofactor_determinant (pe_of_int 0) (pe_of_int 1) pe_add pe_mul pe_neg;
  symbol_s := "s"%string;
  Function_of := fun _ _ => None;
  dot_symbol := fun _ => "_dot"%string;
  subs := fun e _ => e
|}.

(** *** Rational constants

    The backend on expressions without symbols: an expression is its
    value, every derivative is 0, [simplify] reduces the fraction.  Applied
    functions have no value here; this backend is used with the tensor
    computations only. *)

Definition ConstBackend : SymbolicBackend := {|
  expr := Q;
  symbol := string;
  of_int := inject_Z;
  half_float := (1 # 2)%Q;
  add := Qplus;
  sub := Qminus;
  mul := Qmult;
  div := Qdiv;
  neg := Qopp;
  pow := fun a b => Qpower a (Qnum b / Zpos (Qden b));
  diff := fun _ _ => 0%Q;
  simplify := Qred;
  expr_eqb := Qeq_bool;
  Matrix_inv :=
    cofactor_inverse 0%Q 1%Q Qplus Qmult Qdiv Qopp (fun d => Qeq_bool d 0);
  Matrix_det := cofactor_determinant 0%Q 1%Q Qplus Qmult Qopp;
  symbol_s := "s"%string;
  Function_of := fun _ _ => 0%Q;
  dot_symbol := fun _ => "_dot"%string;
  subs := fun e _ => e
|}.

#[export] Instance ConstEquiv : ExprEquiv ConstBackend := Qeq.

(** *** A numeric backend

    A linear congruential generator that takes the seeds numpy takes,
    evaluation of polynomials, and the explicit Euler method on the sample
    times. *)

Definition lcg_modulus : Z := 2147483648.

Definition lcg_seed (seed : Z) : result Z :=
  if ((0 <=? seed) && (seed <? 2 ^ 32))%Z
  then Ok (seed mod lcg_modulus)%Z
  else Raise ValueError.

Definition lcg_random (st : Z) : Q * Z :=
  let st' := ((1103515245 * st + 12345) mod lcg_modulus)%Z in
  (Qred (Qmake st' 2147483648), st').

Fixpoint position (v : string) (args : list string) : option nat :=
  match args with
  | [] => None
  | a :: args' =>
      if String.eqb a v then Some 0
      else option_map S (position v args')
  end.

Definition poly_lambdify (args : list string) (e : pexpr) (ys : list Q)
  : result Q :=
  if length args =? length ys
  then
    match e with
    | None => Raise ValueError
    | Some p =>
        match position "x" args with
        | Some i => Ok (Qred (peval p (nth i ys 0%Q)))
        | None =>
            match pnorm p with
            | [] => Ok 0%Q
            | [c] => Ok c
            | _ => Raise NameError
            end
        end
    end
  else Raise TypeError.

Definition euler_step (h : Q) (y dy : list Q) : list Q :=
  map (fun yd => Qred (fst yd + h * snd yd)%Q) (combine y dy).

Fixpoint euler_steps (f : list Q -> Q -> result (list Q)) (y : list Q)
    (t0 : Q) (ts : list Q) : result (list (list Q)) :=
  match ts with
  | [] => Ok []
  | t1 :: ts' =>
      dy <- f y t0 ;;
      if length dy =? length y
      then
        let y' := euler_step (t1 - t0)%Q y dy in
        rest <- euler_steps f y' t1 ts' ;;
        Ok (y' :: rest)
      else Raise ValueError
  end.

Definition euler_odeint (f : list Q -> Q -> result (list Q)) (y0 : list Q)
    (t : list Q) : result (list (list Q)) :=
  match t with
  | [] => Ok []
  | t0 :: ts => rest <- euler_steps f y0 t0 ts ;; Ok (y0 :: rest)
  end.

Definition PolyNumeric : NumericBackend PolyBackend :=
  @Build_NumericBackend PolyBackend Z lcg_seed lcg_random poly_lambdify
    euler_odeint.

(** *** Sample inputs *)

Section EmptyModel.

Context {B : SymbolicBackend}.

(** What the constructors return for the empty metric, spelled out. *)
Definition empty_geometry : DifferentialGeometry := {|
  metric := [];
  inverse_metric := [];
  det := of_int 1;
  ndim := 0;
  variables := [];
  parameterized_vars := []
|}.

Definition empty_model : RiemannGeometry := {|
  riemann_base := empty_geometry;
  christoffel_symbols := np_zeros [0; 0; 0];
  riemann_curvature_tensor := np_zeros [0; 0; 0; 0];
  ricci_tensor := np_zeros [0; 0];
  ricci_scalar := simplify (of_int 0);
  einstein_tensor := simplify_array (np_zeros [0; 0])
|}.

Definition empty_classical : ClassicalDifferentialGeometry := {|
  classical_base := empty_geometry;
  gaussian_curvature := of_int 0
|}.

End EmptyModel.

(** The value of a computation that is known to succeed. *)
Definition from_ok {A : Type} (default : A) (r : result A) : A :=
  match r with
  | Ok a => a
  | Raise _ => default
  end.

Definition is_ok {A : Type} (r : result A) : bool :=
  match r with
  | Ok _ => true
  | Raise _ => false
  end.

(** Coordinates (x, y). *)
Definition xy : list string := ["x"%string; "y"%string].

(** A symmetric metric with determinant 1:
    [[1, x], [x, 1 + x**2]]. *)
Definition sheared_metric : list (list pexpr) :=
  [[Some [1%Q]; Some [0%Q; 1%Q]];
   [Some [0%Q; 1%Q]; Some [1%Q; 0%Q; 1%Q]]].

Definition sheared_model : @RiemannGeometry PolyBackend :=
  from_ok empty_model (@RiemannGeometry_init PolyBackend sheared_metric xy).

(** A matrix that is not symmetric, with determinant 1:
    [[1, x], [0, 1]]. *)
Definition skew_matrix : list (list pexpr) :=
  [[Some [1%Q]; Some [0%Q; 1%Q]];
   [Some []; Some [1%Q]]].

Definition skew_model : @RiemannGeometry PolyBackend :=
  from_ok empty_model (@RiemannGeometry_init PolyBackend skew_matrix xy).

(** The line with its flat metric [[1]]. *)
Definition flat_line : @RiemannGeometry PolyBackend :=
  from_ok empty_model
    (@RiemannGeometry_init PolyBackend [[Some [1%Q]]] ["x"%string]).

(** A constant symmetric metric, [[2, 1], [1, 3]]. *)
Definition constant_metric : list (list Q) :=
  [[2%Q; 1%Q]; [1%Q; 3%Q]].

Definition constant_model : @RiemannGeometry ConstBackend :=
  from_ok empty_model (@RiemannGeometry_init ConstBackend constant_metric xy).

Definition constant_classical : @ClassicalDifferentialGeometry ConstBackend :=
  from_ok empty_classical
    (@ClassicalDifferentialGeometry_init ConstBackend constant_metric xy).

(** A singular matrix, [[1, 1], [1, 1]], and a matrix that is not square,
    [[1, x]]. *)
Definition singular_matrix : list (list pexpr) :=
  [[Some [1%Q]; Some [1%Q]]; [Some [1%Q]; Some [1%Q]]].

Definition wide_matrix : list (list pexpr) :=
  [[Some [1%Q]; Some [0%Q; 1%Q]]].

(** The trajectory that the call of the demonstration, seed 104, returns
    on the flat line. *)
Definition flat_line_trajectory : list (list Q) :=
  from_ok []
    (fst (@solve_geodesic_equation PolyBackend PolyNumeric flat_line 104 0%Z)).

(** ** Further readers, contracts and a backend of syntax trees *)

Section MoreFormulas.

Context {B : SymbolicBackend}.

(** [self.ricci_tensor[mu, nu]], [self.einstein_tensor[mu, nu]] and
    [self.parameterized_vars[i]] of a constructed model. *)
Definition Ric (self : RiemannGeometry) (mu nu : nat) : expr :=
  item (ricci_tensor self) [mu; nu].

Definition Einstein (self : RiemannGeometry) (mu nu : nat) : expr :=
  item (einstein_tensor self) [mu; nu].

Definition parameterized_var (self : RiemannGeometry) (i : nat) : expr :=
  nth i (parameterized_vars (riemann_base self)) (of_int 0).

(** What the [-=] of line 149 subtracts for the indices [i], [j], [k]. *)
Definition geodesic_term (self : RiemannGeometry) (i j k : nat) : expr :=
  mul (mul (Gamma self i j k) (diff (parameterized_var self j) symbol_s))
      (diff (parameterized_var self k) symbol_s).

(** What the loops over [j] and [k] leave under the key
    [parameterized_vars[i]]: the terms subtracted in turn from the integer
    0 of line 145. *)
Definition geodesic_rhs (self : RiemannGeometry) (i : nat) : expr :=
  fold_left
    (fun acc j =>
       fold_left (fun acc k => sub acc (geodesic_term self i j k))
         (seq 0 (dimension self)) acc)
    (seq 0 (dimension self)) (of_int 0).

(** The dictionary that [compute_geodesic_equation] builds when the keys
    are different from one another, in insertion order. *)
Definition geodesic_equations (self : RiemannGeometry) : pydict expr :=
  map (fun i => (parameterized_var self i, geodesic_rhs self i))
    (seq 0 (dimension self)).

(** The first [n] parameterized variables are different expressions, as
    dictionary keys see them. *)
Definition distinct_keys (self : RiemannGeometry) (n : nat) : Prop :=
  forall i' i, i' < i -> i < n ->
    expr_eqb (parameterized_var self i') (parameterized_var self i) = false.

(** No key of the dictionary [d] is equal to [k]. *)
Definition fresh_key {V : Type} (d : list (expr * V)) (k : expr) : Prop :=
  forall kv, In kv d -> expr_eqb (fst kv) k = false.

(** A computation that raises no exception but [e]. *)
Definition only_raises {A : Type} (e : exception) (r : result A) : Prop :=
  r = Raise e \/ succeeds r.

(** The entries of the metric do not depend on the coordinates. *)
Definition constant_entries {E : ExprEquiv B} (self : RiemannGeometry) : Prop :=
  forall i j k,
    i < dimension self -> j < dimension self -> k < dimension self ->
    (diff (metric_at self i j) (coordinate self k) == zero)%E.

(** The nested sum of [compute_ricci_scalar], one [Sum] inside the other. *)
Definition ricci_scalar_double_sum (self : RiemannGeometry) : expr :=
  Sum (dimension self) (fun mu =>
    Sum (dimension self) (fun nu => mul (inverse_at self mu nu) (Ric self mu nu))).

End MoreFormulas.

(** The Python float [(1/2)] denotes one half. *)
Definition half_is_one_half (B : SymbolicBackend) {E : ExprEquiv B} : Prop :=
  (half_float == one / of_int 2)%E.

(** *** Syntax trees

    A backend that computes nothing: an expression is the tree of the
    operations that built it, [simplify] returns its argument, equality is
    equality of trees.  Derivatives of literals are 0, every other
    derivative stays unevaluated. *)

Inductive term : Type :=
| TInt (z : Z)
| THalf
| TSymbol (x : string)
| TApply (f x : string)
| TAdd (a b : term)
| TSub (a b : term)
| TMul (a b : term)
| TDiv (a b : term)
| TNeg (a : term)
| TPow (a b : term)
| TDiff (a : term) (x : string).

Fixpoint term_eqb (a b : term) : bool :=
  match a, b with
  | TInt z, TInt z' => Z.eqb z z'
  | THalf, THalf => true
  | TSymbol x, TSymbol x' => String.eqb x x'
  | TApply f x, TApply f' x' => String.eqb f f' && String.eqb x x'
  | TAdd a1 a2, TAdd b1 b2 => term_eqb a1 b1 && term_eqb a2 b2
  | TSub a1 a2, TSub b1 b2 => term_eqb a1 b1 && term_eqb a2 b2
  | TMul a1 a2, TMul b1 b2 => term_eqb a1 b1 && term_eqb a2 b2
  | TDiv a1 a2, TDiv b1 b2 => term_eqb a1 b1 && term_eqb a2 b2
  | TNeg a1, TNeg b1 => term_eqb a1 b1
  | TPow a1 a2, TPow b1 b2 => term_eqb a1 b1 && term_eqb a2 b2
  | TDiff a1 x, TDiff b1 x' => term_eqb a1 b1 && String.eqb x x'
  | _, _ => false
  end.

Definition term_diff (a : term) (x : string) : term :=
  match a with
  | TInt _ | THalf => TInt 0
  | _ => TDiff a x
  end.

Fixpoint term_lookup (a : term) (l : list (term * string)) : option string :=
  match l with
  | [] => None
  | (k, v) :: l' => if term_eqb k a then Some v else term_lookup a l'
  end.

(** [e.subs(d)]: every subtree that is a key of [d] becomes its symbol. *)
Fixpoint term_subs (a : term) (l : list (term * string)) : term :=
  match term_lookup a l with
  | Some v => TSymbol v
  | None =>
      match a with
      | TAdd a1 a2 => TAdd (term_subs a1 l) (term_subs a2 l)
      | TSub a1 a2 => TSub (term_subs a1 l) (term_subs a2 l)
      | TMul a1 a2 => TMul (term_subs a1 l) (term_subs a2 l)
      | TDiv a1 a2 => TDiv (term_subs a1 l) (term_subs a2 l)
      | TNeg a1 => TNeg (term_subs a1 l)
      | TPow a1 a2 => TPow (term_subs a1 l) (term_subs a2 l)
      | TDiff a1 x => TDiff (term_subs a1 l) x
      | _ => a
      end
  end.

Definition term_dot_symbol (a : term) : string :=
  match a with
  | TApply f _ => (f ++ "_dot")%string
  | _ => "_dot"%string
  end.

Definition TermBackend : SymbolicBackend := {|
  expr := term;
  symbol := string;
  of_int := TInt;
  half_float := THalf;
  add := TAdd;
  sub := TSub;
  mul := TMul;
  div := TDiv;
  neg := TNeg;
  pow := TPow;
  diff := term_diff;
  simplify := fun a => a;
  expr_eqb := term_eqb;
  Matrix_inv :=
    cofactor_inverse (TInt 0) (TInt 1) TAdd TMul TDiv TNeg
      (fun d => term_eqb d (TInt 0));
  Matrix_det := cofactor_determinant (TInt 0) (TInt 1) TAdd TMul TNeg;
  symbol_s := "s"%string;
  Function_of := TApply;
  dot_symbol := term_dot_symbol;
  subs := term_subs
|}.

(** Evaluation of a tree at rational values of its symbols; an applied
    function, a derivative or a power has no value. *)
Fixpoint term_eval (env : list (string * Q)) (a : term) : result Q :=
  match a with
  | TInt z => Ok (inject_Z z)
  | THalf => Ok (1 # 2)%Q
  | TSymbol x =>
      match find (fun kv => String.eqb (fst kv) x) env with
      | Some kv => Ok (snd kv)
      | None => Raise NameError
      end
  | TAdd a1 a2 => u <- term_eval env a1 ;; v <- term_eval env a2 ;; Ok (u + v)%Q
  | TSub a1 a2 => u <- term_eval env a1 ;; v <- term_eval env a2 ;; Ok (u - v)%Q
  | TMul a1 a2 => u <- term_eval env a1 ;; v <- term_eval env a2 ;; Ok (u * v)%Q
  | TDiv a1 a2 => u <- term_eval env a1 ;; v <- term_eval env a2 ;; Ok (u / v)%Q
  | TNeg a1 => u <- term_eval env a1 ;; Ok (- u)%Q
  | _ => Raise TypeError
  end.

Definition term_lambdify (args : list string) (e : term) (ys : list Q)
  : result Q :=
  if length args =? length ys
  then term_eval (combine args ys) e
  else Raise TypeError.

Definition TermNumeric : NumericBackend TermBackend :=
  @Build_NumericBackend TermBackend Z lcg_seed lcg_random term_lambdify
    euler_odeint.

(** *** More sample inputs *)

(** The Euclidean plane [[1, 0], [0, 1]] in coordinates (x, y), as syntax
    trees. *)
Definition plane_model : @RiemannGeometry TermBackend :=
  from_ok empty_model
    (@RiemannGeometry_init TermBackend
       [[TInt 1; TInt 0]; [TInt 0; TInt 1]] xy).

(** The line [[1]] given two coordinate variables. *)
Definition overnamed_line : @RiemannGeometry TermBackend :=
  from_ok empty_model (@RiemannGeometry_init TermBackend [[TInt 1]] xy).

(** The constant metric [[5]] on a line. *)
Definition constant_line : @RiemannGeometry ConstBackend :=
  from_ok empty_model
    (@RiemannGeometry_init ConstBackend [[5%Q]] ["x"%string]).
(** * Reasoning about the program *)

(** ** The error monad and the accessors *)

Lemma bind_ok {A C : Type} (m : result A) (k : A -> result C) (c : C) :
  bind m k = Ok c -> exists a, m = Ok a /\ k a = Ok c.
Proof.
  destruct m as [a|e]; simpl; intros H.
  - exists a. split; [reflexivity | exact H].
  - discriminate H.
Qed.

(** Splits every monadic step of a successful computation. *)
Ltac ok_steps :=
  repeat match goal with
    | H : bind _ _ = Ok _ |- _ =>
        let a := fresh "v" in
        let Ha := fresh "Hv" in
        apply bind_ok in H; destruct H as [a [Ha H]]
    | H : Ok _ = Ok _ |- _ => injection H as H
    end.

Lemma py_index_ok {A : Type} (xs : list A) (i : nat) (a d : A) :
  py_index xs i = Ok a -> a = nth i xs d /\ i < length xs.
Proof.
  unfold py_index. destruct (nth_error xs i) eqn:E; intros H; [|discriminate].
  injection H as <-. split.
  - symmetry. apply nth_error_nth. exact E.
  - apply nth_error_Some. congruence.
Qed.

Lemma py_index_in_range {A : Type} (xs : list A) (i : nat) :
  i < length xs -> succeeds (py_index xs i).
Proof.
  intros H. unfold py_index, succeeds.
  destruct (nth_error xs i) eqn:E.
  - eauto.
  - apply nth_error_None in E. lia.
Qed.

Lemma list_nat_eqb_eq (a b : list nat) : list_nat_eqb a b = true <-> a = b.
Proof.
  revert b. induction a as [|x a IH]; intros [|y b]; simpl; split;
    try congruence; try discriminate.
  - intros H. apply andb_true_iff in H. destruct H as [H1 H2].
    apply Nat.eqb_eq in H1. apply IH in H2. congruence.
  - intros H. injection H as -> ->. rewrite Nat.eqb_refl. simpl.
    apply IH. reflexivity.
Qed.

Lemma list_nat_eqb_neq (a b : list nat) : a <> b -> list_nat_eqb a b = false.
Proof.
  intros H. destruct (list_nat_eqb a b) eqn:E; [|reflexivity].
  apply list_nat_eqb_eq in E. contradiction.
Qed.

Lemma list_nat_eqb_refl (a : list nat) : list_nat_eqb a a = true.
Proof. apply list_nat_eqb_eq. reflexivity. Qed.

Section LoopLemmas.

Context {B : SymbolicBackend}.

Lemma mat_get_ok (m : matrix) (i j : nat) (e : expr) :
  mat_get m i j = Ok e -> e = mat_at m i j.
Proof.
  unfold mat_get, mat_at. intros H. ok_steps.
  apply (py_index_ok _ _ _ []) in Hv. destruct Hv as [-> _].
  apply (py_index_ok _ _ _ (of_int 0)) in H. destruct H as [-> _].
  reflexivity.
Qed.

Lemma var_ok (x : list symbol) (i : nat) (v : symbol) :
  py_index x i = Ok v -> v = var_at x i.
Proof. intros H. apply (py_index_ok _ _ _ symbol_s) in H. apply H. Qed.

Lemma nd_get_ok (a : ndarray) (idx : list nat) (v : expr) :
  nd_get a idx = Ok v -> v = item a idx.
Proof.
  unfold nd_get. destruct (in_bounds (shape a) idx); intros H;
    [injection H as <-; reflexivity | discriminate].
Qed.

Lemma nd_set_ok (a a' : ndarray) (idx : list nat) (v : expr) :
  nd_set a idx v = Ok a' ->
  item a' idx = v /\ (forall j, j <> idx -> item a' j = item a j).
Proof.
  unfold nd_set. destruct (in_bounds (shape a) idx); intros H; [|discriminate].
  injection H as <-. simpl. split.
  - rewrite list_nat_eqb_refl. reflexivity.
  - intros j Hj. rewrite list_nat_eqb_neq; [reflexivity | congruence].
Qed.

Lemma nd_iadd_ok (a a' : ndarray) (idx : list nat) (v : result expr) :
  nd_iadd a idx v = Ok a' ->
  exists t, v = Ok t /\ item a' idx = add (item a idx) t /\
            (forall j, j <> idx -> item a' j = item a j).
Proof.
  unfold nd_iadd. intros H. ok_steps.
  apply nd_get_ok in Hv. subst v0.
  apply nd_set_ok in H. destruct H as [H1 H2].
  exists v1. auto.
Qed.

Lemma for_each_accumulate (idx : list nat) (term_r : nat -> result expr)
    (term : nat -> expr) (l : list nat) :
  (forall i t, term_r i = Ok t -> t = term i) ->
  forall s s',
    for_each l (fun i s => nd_iadd s idx (term_r i)) s = Ok s' ->
    item s' idx = sum_onto (item s idx) l term /\
    (forall j, j <> idx -> item s' j = item s j).
Proof.
  intros Hterm. induction l as [|i l IH]; simpl; intros s s' H.
  - injection H as <-. auto.
  - ok_steps. apply nd_iadd_ok in Hv. destruct Hv as [t [Ht [Hidx Hrest]]].
    apply Hterm in Ht. subst t.
    apply IH in H. destruct H as [H1 H2]. split.
    + unfold sum_onto in *. simpl. rewrite H1, Hidx. reflexivity.
    + intros j Hj. rewrite H2, Hrest by assumption. reflexivity.
Qed.

Lemma under_zero (n : nat) (p idx : list nat) : under n 0 p idx <-> idx = p.
Proof.
  split.
  - intros [rest [-> [Hl _]]]. destruct rest; [|discriminate].
    apply app_nil_r.
  - intros ->. exists []. rewrite app_nil_r. auto.
Qed.

Lemma under_succ (n d : nat) (p idx : list nat) :
  under n (S d) p idx <-> exists i, i < n /\ under n d (p ++ [i]) idx.
Proof.
  split.
  - intros [rest [-> [Hl Hf]]]. destruct rest as [|i rest]; [discriminate|].
    inversion Hf; subst. exists i. split; [assumption|].
    exists rest. rewrite <- app_assoc. simpl. auto.
  - intros [i [Hi [rest [-> [Hl Hf]]]]]. exists (i :: rest).
    rewrite <- app_assoc. simpl. repeat split; auto.
Qed.

Lemma under_disjoint (n d : nat) (p idx : list nat) (i j : nat) :
  under n d (p ++ [i]) idx -> under n d (p ++ [j]) idx -> i = j.
Proof.
  intros [r1 [-> _]] [r2 [H _]].
  rewrite <- !app_assoc in H. apply app_inv_head in H.
  simpl in H. congruence.
Qed.

Lemma under_full (n : nat) (idx : list nat) :
  Forall (fun i => i < n) idx -> under n (length idx) [] idx.
Proof. intros H. exists idx. auto. Qed.

Lemma for_each_level (n d : nat) (p : list nat) (F : list nat -> expr -> expr)
    (body : nat -> ndarray -> result ndarray) (l : list nat) :
  NoDup l ->
  (forall i s s', In i l -> body i s = Ok s' ->
                  updates (under n d (p ++ [i])) F s s') ->
  forall s s', for_each l body s = Ok s' ->
    updates (fun idx => exists i, In i l /\ under n d (p ++ [i]) idx) F s s'.
Proof.
  intros Hnd. induction l as [|i l IH]; simpl; intros Hbody s s' H.
  - injection H as <-. split.
    + intros idx [i [[] _]].
    + reflexivity.
  - ok_steps. inversion Hnd as [|? ? Hnotin Hnd']; subst.
    pose proof (Hbody i s v (or_introl eq_refl) Hv) as [Hhit Hmiss].
    specialize (IH Hnd' (fun j s0 s1 Hj => Hbody j s0 s1 (or_intror Hj)) v s' H).
    destruct IH as [IHhit IHmiss]. split.
    + intros idx [j [[<- | Hj] Hu]].
      * rewrite IHmiss; [apply Hhit; exact Hu|].
        intros [k [Hk Hu']].
        pose proof (under_disjoint _ _ _ _ _ _ Hu Hu'). subst k. contradiction.
      * rewrite IHhit by eauto. f_equal. apply Hmiss.
        intros Hu'.
        pose proof (under_disjoint _ _ _ _ _ _ Hu Hu'). subst j. contradiction.
    + intros idx Hno. rewrite IHmiss.
      * apply Hmiss. intros Hu. apply Hno. eauto.
      * intros [j [Hj Hu]]. apply Hno. eauto.
Qed.

Lemma updates_iff (T T' : list nat -> Prop) (F : list nat -> expr -> expr)
    (s s' : ndarray) :
  (forall idx, T idx <-> T' idx) -> updates T F s s' -> updates T' F s s'.
Proof.
  intros Hiff [H1 H2]. split; intros idx H.
  - apply H1, Hiff, H.
  - apply H2. intros H'. apply H, Hiff, H'.
Qed.

(** One level of a loop nest over [range(n)]. *)
Lemma for_range_level (n d : nat) (p : list nat) (F : list nat -> expr -> expr)
    (body : nat -> ndarray -> result ndarray) :
  (forall i s s', i < n -> body i s = Ok s' ->
                  updates (under n d (p ++ [i])) F s s') ->
  forall s s', for_range n body s = Ok s' -> updates (under n (S d) p) F s s'.
Proof.
  intros Hbody s s' H. unfold for_range in H.
  apply (for_each_level n d p F) in H.
  - revert H. apply updates_iff. intros idx. rewrite under_succ.
    split; intros [i [Hi Hu]]; exists i; split; auto.
    + apply in_seq in Hi. lia.
    + apply in_seq. lia.
  - apply seq_NoDup.
  - intros i s0 s1 Hi. apply Hbody. apply in_seq in Hi. lia.
Qed.

(** The body shared by the tensor loops: a [+=] loop over [range(n)] into
    the cell [idx], then [simplify] of that cell. *)
Lemma cell_sum_simplify (n : nat) (idx : list nat) (term_r : nat -> result expr)
    (term : nat -> expr) (s s' : ndarray) :
  (forall i t, term_r i = Ok t -> t = term i) ->
  (a <- for_range n (fun i a => nd_iadd a idx (term_r i)) s ;;
   old <- nd_get a idx ;;
   nd_set a idx (simplify old)) = Ok s' ->
  item s' idx = simplify (sum_onto (item s idx) (seq 0 n) term) /\
  (forall j, j <> idx -> item s' j = item s j).
Proof.
  intros Hterm H. ok_steps.
  apply (for_each_accumulate idx term_r term _ Hterm) in Hv.
  destruct Hv as [Hsum Hrest].
  apply nd_get_ok in Hv0. subst v0.
  apply nd_set_ok in H. destruct H as [H1 H2]. split.
  - rewrite H1, Hsum. reflexivity.
  - intros j Hj. rewrite H2, Hrest by assumption. reflexivity.
Qed.

End LoopLemmas.

(** ** Christoffel symbols *)

Section Christoffel.

Context {B : SymbolicBackend}.

Lemma christoffel_term_ok (g inv_g : matrix) (x : list symbol)
    (rho lamda nu mu : nat) (t : expr) :
  christoffel_term g inv_g x rho lamda nu mu = Ok t ->
  t = christoffel_summand g inv_g x rho lamda nu mu.
Proof.
  unfold christoffel_term, christoffel_summand. intros H. ok_steps.
  repeat match goal with
    | H : mat_get _ _ _ = Ok _ |- _ => apply mat_get_ok in H
    | H : py_index _ _ = Ok _ |- _ => apply var_ok in H
    end.
  subst. reflexivity.
Qed.

Lemma compute_christoffel_symbols_cells (self : DifferentialGeometry)
    (gamma : ndarray) (rho lamda nu : nat) :
  compute_christoffel_symbols self = Ok gamma ->
  rho < ndim self -> lamda < ndim self -> nu < ndim self ->
  item gamma [rho; lamda; nu] =
  simplify (sum_onto (of_int 0) (seq 0 (ndim self))
              (christoffel_summand (metric self) (inverse_metric self)
                 (variables self) rho lamda nu)).
Proof.
  intros H Hr Hl Hn. unfold compute_christoffel_symbols in H.
  set (F := christoffel_cell (ndim self) (metric self) (inverse_metric self)
              (variables self)).
  assert (Hup : updates (under (ndim self) 3 []) F
                  (np_zeros [ndim self; ndim self; ndim self]) gamma).
  { revert H. apply for_range_level. intros r s s' _.
    apply for_range_level. intros l s0 s0' _.
    apply for_range_level. intros v s1 s1' _ Hcell. simpl in Hcell.
    apply (cell_sum_simplify _ _ _
             (christoffel_summand (metric self) (inverse_metric self)
                (variables self) r l v)) in Hcell.
    - destruct Hcell as [Hhit Hmiss]. split; intros idx Hidx.
      + apply under_zero in Hidx. subst idx. exact Hhit.
      + apply Hmiss. intros ->. apply Hidx. apply under_zero. reflexivity.
    - intros i t. apply christoffel_term_ok. }
  destruct Hup as [Hhit _].
  rewrite (Hhit [rho; lamda; nu]).
  - reflexivity.
  - apply (under_full (ndim self) [rho; lamda; nu]). repeat constructor; assumption.
Qed.

End Christoffel.

(** ** Riemann tensor, Ricci tensor, Ricci scalar *)

Section Curvature.

Context {B : SymbolicBackend}.

Lemma riemann_term_ok (gamma : ndarray) (rho lamda mu nu sigma : nat) (t : expr) :
  riemann_term gamma rho lamda mu nu sigma = Ok t ->
  t = riemann_summand gamma rho lamda mu nu sigma.
Proof.
  unfold riemann_term, riemann_summand. intros H. ok_steps.
  repeat match goal with
    | H : nd_get _ _ = Ok _ |- _ => apply nd_get_ok in H
    end.
  subst. reflexivity.
Qed.

Lemma riemann_diff_term_ok (gamma : ndarray) (x : list symbol)
    (rho lamda mu nu : nat) (t : expr) :
  riemann_diff_term gamma x rho lamda mu nu = Ok t ->
  t = riemann_diff_part gamma x rho lamda mu nu.
Proof.
  unfold riemann_diff_term, riemann_diff_part. intros H. ok_steps.
  repeat match goal with
    | H : nd_get _ _ = Ok _ |- _ => apply nd_get_ok in H
    | H : py_index _ _ = Ok _ |- _ => apply var_ok in H
    end.
  subst. reflexivity.
Qed.

Lemma compute_riemann_curvature_tensor_cells (n : nat) (gamma riemann : ndarray)
    (x : list symbol) (rho lamda mu nu : nat) :
  compute_riemann_curvature_tensor n gamma x = Ok riemann ->
  rho < n -> lamda < n -> mu < n -> nu < n ->
  item riemann [rho; lamda; mu; nu] =
  simplify (add (sum_onto (of_int 0) (seq 0 n)
                   (riemann_summand gamma rho lamda mu nu))
                (riemann_diff_part gamma x rho lamda mu nu)).
Proof.
  intros H Hr Hl Hm Hn. unfold compute_riemann_curvature_tensor in H.
  assert (Hup : updates (under n 4 []) (riemann_cell n gamma x)
                  (np_zeros [n; n; n; n]) riemann).
  { revert H. apply for_range_level. intros r s s' _.
    apply for_range_level. intros l s0 s0' _.
    apply for_range_level. intros m s1 s1' _.
    apply for_range_level. intros v s2 s2' _ Hcell. simpl in Hcell.
    ok_steps.
    apply (for_each_accumulate _ _ (riemann_summand gamma r l m v)) in Hv;
      [|intros i t; apply riemann_term_ok].
    destruct Hv as [Hsum Hrest].
    apply nd_iadd_ok in Hv0. destruct Hv0 as [t [Ht [Hadd Hrest']]].
    apply riemann_diff_term_ok in Ht. subst t.
    apply nd_get_ok in Hv1. subst v2.
    apply nd_set_ok in Hcell. destruct Hcell as [Hset Hrest''].
    split; intros idx Hidx.
    - apply under_zero in Hidx. subst idx. simpl app.
      rewrite Hset, Hadd, Hsum. reflexivity.
    - assert (Hne : idx <> [r; l; m; v]).
      { intros ->. apply Hidx. apply under_zero. reflexivity. }
      rewrite Hrest'', Hrest', Hrest by assumption. reflexivity. }
  destruct Hup as [Hhit _].
  rewrite (Hhit [rho; lamda; mu; nu]).
  - reflexivity.
  - apply (under_full n [rho; lamda; mu; nu]). repeat constructor; assumption.
Qed.

Lemma compute_ricci_tensor_cells (n : nat) (riemann ricci : ndarray)
    (mu nu : nat) :
  compute_ricci_tensor n riemann = Ok ricci ->
  mu < n -> nu < n ->
  item ricci [mu; nu] =
  simplify (sum_onto (of_int 0) (seq 0 n)
              (fun lamda => item riemann [lamda; mu; lamda; nu])).
Proof.
  intros H Hm Hn. unfold compute_ricci_tensor in H.
  assert (Hup : updates (under n 2 []) (ricci_cell n riemann)
                  (np_zeros [n; n]) ricci).
  { revert H. apply for_range_level. intros m s s' _.
    apply for_range_level. intros v s0 s0' _ Hcell. simpl in Hcell.
    apply (cell_sum_simplify _ _ _
             (fun lamda => item riemann [lamda; m; lamda; v])) in Hcell.
    - destruct Hcell as [Hhit Hmiss]. split; intros idx Hidx.
      + apply under_zero in Hidx. subst idx. exact Hhit.
      + apply Hmiss. intros ->. apply Hidx. apply under_zero. reflexivity.
    - intros i t. apply nd_get_ok. }
  destruct Hup as [Hhit _].
  rewrite (Hhit [mu; nu]).
  - reflexivity.
  - apply (under_full n [mu; nu]). repeat constructor; assumption.
Qed.

Lemma scalar_inner_loop (inv_g : matrix) (ricci : ndarray) (mu : nat)
    (l : list nat) (acc acc' : expr) :
  for_each l (fun nu ricci_scalar =>
                a <- mat_get inv_g mu nu ;;
                r <- nd_get ricci [mu; nu] ;;
                Ok (add ricci_scalar (mul a r))) acc = Ok acc' ->
  acc' = sum_onto acc l
           (fun nu => mul (mat_at inv_g mu nu) (item ricci [mu; nu])).
Proof.
  revert acc. induction l as [|nu l IH]; simpl; intros acc H.
  - injection H as <-. reflexivity.
  - ok_steps. apply mat_get_ok in Hv0. apply nd_get_ok in Hv1. subst.
    apply IH in H. exact H.
Qed.

Lemma scalar_outer_loop (n : nat) (inv_g : matrix) (ricci : ndarray)
    (l : list nat) (acc acc' : expr) :
  for_each l (fun mu =>
                for_range n (fun nu ricci_scalar =>
                  a <- mat_get inv_g mu nu ;;
                  r <- nd_get ricci [mu; nu] ;;
                  Ok (add ricci_scalar (mul a r)))) acc = Ok acc' ->
  acc' = fold_left (fun acc mu =>
                      sum_onto acc (seq 0 n)
                        (fun nu => mul (mat_at inv_g mu nu) (item ricci [mu; nu])))
                   l acc.
Proof.
  revert acc. induction l as [|mu l IH]; simpl; intros acc H.
  - injection H as <-. reflexivity.
  - ok_steps. apply scalar_inner_loop in Hv. subst v.
    apply IH in H. exact H.
Qed.

Lemma compute_ricci_scalar_value (n : nat) (inv_g : matrix) (ricci : ndarray)
    (scalar : expr) :
  compute_ricci_scalar n inv_g ricci = Ok scalar ->
  scalar = simplify (ricci_scalar_sum n inv_g ricci).
Proof.
  unfold compute_ricci_scalar, ricci_scalar_sum. intros H.
  ok_steps. subst scalar. f_equal.
  unfold for_range in Hv at 1. apply scalar_outer_loop in Hv. exact Hv.
Qed.

(** What a successful construction of [RiemannGeometry] has computed. *)
Lemma RiemannGeometry_init_ok (metric0 : list (list expr))
    (variables0 : list symbol) (self : RiemannGeometry) :
  RiemannGeometry_init metric0 variables0 = Ok self ->
  let base := riemann_base self in
  DifferentialGeometry_init metric0 variables0 = Ok base /\
  compute_christoffel_symbols base = Ok (christoffel_symbols self) /\
  compute_riemann_curvature_tensor (ndim base) (christoffel_symbols self)
    (variables base) = Ok (riemann_curvature_tensor self) /\
  compute_ricci_tensor (ndim base) (riemann_curvature_tensor self)
    = Ok (ricci_tensor self) /\
  compute_ricci_scalar (ndim base) (inverse_metric base) (ricci_tensor self)
    = Ok (ricci_scalar self).
Proof.
  unfold RiemannGeometry_init. intros H. ok_steps. subst self. simpl.
  repeat split; assumption.
Qed.

Lemma DifferentialGeometry_init_ok (metric0 : list (list expr))
    (variables0 : list symbol) (self : DifferentialGeometry) :
  DifferentialGeometry_init metric0 variables0 = Ok self ->
  Matrix metric0 = Ok (metric self) /\
  Matrix_inv (metric self) = Ok (inverse_metric self) /\
  Matrix_det (metric self) = Ok (det self) /\
  ndim self = length metric0 /\
  variables self = variables0.
Proof.
  unfold DifferentialGeometry_init. intros H. ok_steps. subst self. simpl.
  repeat split; assumption.
Qed.

End Curvature.

Section RingFacts.

Context {B : SymbolicBackend} {E : ExprEquiv B} {L : RingLaws B}.

Local Open Scope expr_scope.

Lemma backend_ring_ext : ring_eq_ext add mul neg expr_equiv.
Proof.
  constructor.
  - exact add_proper.
  - exact mul_proper.
  - exact neg_proper.
Qed.

Add Ring backend_ring_tac : backend_ring (setoid equiv_equivalence backend_ring_ext).

#[export] Instance sub_proper_ring :
  Proper (expr_equiv ==> expr_equiv ==> expr_equiv) sub.
Proof.
  intros a a' Ha b b' Hb.
  rewrite (Rsub_def backend_ring a b), (Rsub_def backend_ring a' b').
  rewrite Ha, Hb. reflexivity.
Qed.

Lemma sum_onto_proper (l : list nat) (f f' : nat -> expr) (s s' : expr) :
  s == s' -> (forall i, In i l -> f i == f' i) ->
  sum_onto s l f == sum_onto s' l f'.
Proof.
  revert s s'. induction l as [|i l IH]; simpl; intros s s' Hs Hf.
  - exact Hs.
  - apply IH.
    + rewrite Hs, (Hf i) by (left; reflexivity). reflexivity.
    + intros j Hj. apply Hf. right. exact Hj.
Qed.

(** A [+=] loop that starts from 0 computes the sum of its terms that
    starts from the first term. *)
Lemma sum_onto_shift (l : list nat) (f : nat -> expr) (s t : expr) :
  sum_onto (s + t) l f == sum_onto s l f + t.
Proof.
  revert s. induction l as [|i l IH]; simpl; intros s.
  - reflexivity.
  - unfold sum_onto in *. simpl.
    transitivity (fold_left (fun acc i => acc + f i) l ((s + f i) + t)).
    + apply (sum_onto_proper l f f); [ring | reflexivity].
    + apply IH.
Qed.

Lemma sum_onto_neg (l : list nat) (f g : nat -> expr) :
  (forall i, In i l -> f i == - g i) ->
  sum_onto zero l f == - sum_onto zero l g.
Proof.
  induction l as [|i l IH] using rev_ind; intros H.
  - unfold sum_onto. simpl. ring.
  - unfold sum_onto in *. rewrite !fold_left_app. simpl.
    rewrite IH, (H i).
    + ring.
    + apply in_or_app. right. left. reflexivity.
    + intros j Hj. apply H. apply in_or_app. left. exact Hj.
Qed.

End RingFacts.

Section FieldFacts.

Context {B : SymbolicBackend} {E : ExprEquiv B} {L : FieldLaws B}.

Local Open Scope expr_scope.

#[export] Instance recip_proper : Proper (expr_equiv ==> expr_equiv) recip.
Proof. intros a a' Ha. unfold recip. rewrite Ha. reflexivity. Qed.

Add Field backend_field_tac :
  backend_field (setoid equiv_equivalence backend_ring_ext).

Lemma diff_zero (x : symbol) : diff zero x == zero.
Proof.
  assert (H : diff (zero * zero) x == diff zero x * zero + zero * diff zero x)
    by apply diff_mul.
  assert (H0 : zero * zero == zero) by ring.
  rewrite H0 in H. rewrite H. ring.
Qed.

Lemma diff_neg (a : expr) (x : symbol) : diff (- a) x == - diff a x.
Proof.
  assert (H : diff (a + - a) x == diff a x + diff (- a) x) by apply diff_add.
  assert (H0 : a + - a == zero) by ring.
  rewrite H0, diff_zero in H.
  assert (H1 : diff (- a) x == (diff a x + diff (- a) x) - diff a x) by ring.
  rewrite H1, <- H. ring.
Qed.

Lemma diff_sub (a b : expr) (x : symbol) :
  diff (a - b) x == diff a x - diff b x.
Proof.
  assert (H : a - b == a + - b) by ring.
  rewrite H, diff_add, diff_neg. ring.
Qed.

Lemma diff_div (a b : expr) (x : symbol) :
  ~ b == zero ->
  diff (a / b) x == (diff a x * b - a * diff b x) / (b * b).
Proof.
  intros Hb.
  assert (H : diff ((a / b) * b) x == diff (a / b) x * b + (a / b) * diff b x)
    by apply diff_mul.
  assert (H0 : (a / b) * b == a) by (field; exact Hb).
  rewrite H0 in H.
  assert (H1 : diff (a / b) x
               == ((diff (a / b) x * b + (a / b) * diff b x) - (a / b) * diff b x) / b)
    by (field; exact Hb).
  rewrite H1, <- H. field. exact Hb.
Qed.

Lemma diff_two (x : symbol) : diff (of_int 2) x == zero.
Proof. rewrite of_int_two, diff_add, diff_one. ring. Qed.

Lemma two_nonzero' : ~ of_int 2 == zero.
Proof. rewrite of_int_two. exact two_nonzero. Qed.

Lemma four_nonzero : ~ (one + one) * (one + one) == zero.
Proof.
  intros H. apply two_nonzero.
  transitivity ((one + one) * (one + one) * recip (one + one)).
  - field. exact two_nonzero.
  - rewrite H. ring.
Qed.

Lemma diff_div_two (a : expr) (x : symbol) : diff (a / two) x == diff a x / two.
Proof.
  unfold two. rewrite (diff_div _ _ _ two_nonzero'), diff_two.
  field. exact two_nonzero'.
Qed.

Lemma diff_int0 (x : symbol) : diff (of_int 0) x == zero.
Proof. apply diff_zero. Qed.

Lemma eq_simplify_equiv (x e : expr) : x = simplify e -> x == e.
Proof. intros ->. apply simplify_sound. Qed.

End FieldFacts.

(** ** Construction and its failures *)

Section Construction.

Context {B : SymbolicBackend}.

Lemma ClassicalDifferentialGeometry_init_ok (metric0 : list (list expr))
    (variables0 : list symbol) (self : ClassicalDifferentialGeometry) :
  ClassicalDifferentialGeometry_init metric0 variables0 = Ok self ->
  DifferentialGeometry_init metric0 variables0 = Ok (classical_base self) /\
  ndim (classical_base self) = 2 /\
  compute_gaussian_curvature (classical_base self)
    = Ok (gaussian_curvature self).
Proof.
  unfold ClassicalDifferentialGeometry_init. intros H.
  apply bind_ok in H. destruct H as [base [Hbase H]].
  destruct (Nat.eqb_spec (ndim base) 2) as [Hn|Hn]; [|discriminate].
  apply bind_ok in H. destruct H as [k [Hk H]].
  injection H as <-. simpl. auto.
Qed.

Lemma Matrix_ok_rows (metric0 : list (list expr)) (m : matrix) :
  Matrix metric0 = Ok m -> m = metric0 \/ (metric0 = [ [] ] /\ m = []).
Proof.
  unfold Matrix. destruct metric0 as [|r rest].
  - intros H. injection H as <-. left. reflexivity.
  - destruct r as [|e r]; [destruct rest as [|r' rest]|].
    + intros H. injection H as <-. right. auto.
    + destruct (rectangular _); intros H; [|discriminate].
      injection H as <-. left. reflexivity.
    + destruct (rectangular _); intros H; [|discriminate].
      injection H as <-. left. reflexivity.
Qed.

Lemma init_raises_with_inv (metric0 : list (list expr))
    (variables0 : list symbol) (m : matrix) (e : exception) :
  Matrix metric0 = Ok m -> Matrix_inv m = Raise e ->
  DifferentialGeometry_init metric0 variables0 = Raise e /\
  ClassicalDifferentialGeometry_init metric0 variables0 = Raise e /\
  RiemannGeometry_init metric0 variables0 = Raise e.
Proof.
  intros Hm He.
  assert (H : DifferentialGeometry_init metric0 variables0 = Raise e).
  { unfold DifferentialGeometry_init. rewrite Hm. simpl. rewrite He. reflexivity. }
  split; [exact H|].
  unfold ClassicalDifferentialGeometry_init, RiemannGeometry_init.
  rewrite H. split; reflexivity.
Qed.

(** C4.  Constructing [ClassicalDifferentialGeometry] from a metric whose
    dimension [len(metric)] is not 2 never succeeds; when the metric passes
    the construction of the base class, the exception is the failed
    assertion of line 23 (the program's form of a dimensionality error). *)
Theorem classical_requires_dimension_two (metric0 : list (list expr))
    (variables0 : list symbol) :
  length metric0 <> 2 ->
  fails (ClassicalDifferentialGeometry_init metric0 variables0) /\
  (succeeds (DifferentialGeometry_init metric0 variables0) ->
   ClassicalDifferentialGeometry_init metric0 variables0
   = Raise (AssertionError assert_msg)).
Proof.
  intros Hn. unfold ClassicalDifferentialGeometry_init.
  destruct (DifferentialGeometry_init metric0 variables0) as [base|e] eqn:Hbase.
  - apply DifferentialGeometry_init_ok in Hbase.
    destruct Hbase as (_ & _ & _ & Hdim & _).
    simpl. destruct (Nat.eqb_spec (ndim base) 2) as [H2|H2].
    + congruence.
    + split; [eexists; reflexivity | reflexivity].
  - simpl. split; [eexists; reflexivity|].
    intros [a Ha]. discriminate Ha.
Qed.

(** C5.  With a backend whose matrix inversion refuses singular matrices, a
    square metric whose determinant simplifies to the literal 0 makes the
    construction of each of the three classes fail, with the exception
    raised by [inv] (the program's form of a singular-metric error). *)
Theorem singular_metric_is_rejected (Hinv : inv_rejects_singular B)
    (metric0 : list (list expr)) (variables0 : list symbol)
    (m : matrix) (d : expr) :
  Matrix metric0 = Ok m -> rows m = cols m ->
  Matrix_det m = Ok d -> simplify d = of_int 0 ->
  DifferentialGeometry_init metric0 variables0 = Raise NonInvertibleMatrixError /\
  ClassicalDifferentialGeometry_init metric0 variables0
    = Raise NonInvertibleMatrixError /\
  RiemannGeometry_init metric0 variables0 = Raise NonInvertibleMatrixError.
Proof.
  intros Hm Hsq Hd H0.
  apply (init_raises_with_inv _ _ m); [exact Hm|].
  apply (Hinv m d); assumption.
Qed.

(** C6, as amended.  A metric that is not square makes the construction of
    each of the three classes fail, with the exception raised by [inv] of a
    backend that refuses such matrices; the number of coordinate variables
    plays no part in the construction of [DifferentialGeometry], which
    succeeds for one list of variables exactly when it does for another. *)
Theorem nonsquare_metric_is_rejected (Hinv : inv_rejects_nonsquare B)
    (metric0 : list (list expr)) (variables0 : list symbol) :
  (forall m, Matrix metric0 = Ok m -> rows m <> cols m ->
     DifferentialGeometry_init metric0 variables0 = Raise NonSquareMatrixError /\
     ClassicalDifferentialGeometry_init metric0 variables0
       = Raise NonSquareMatrixError /\
     RiemannGeometry_init metric0 variables0 = Raise NonSquareMatrixError) /\
  (forall variables1,
     succeeds (DifferentialGeometry_init metric0 variables0) ->
     succeeds (DifferentialGeometry_init metric0 variables1)).
Proof.
  split.
  - intros m Hm Hsq. apply (init_raises_with_inv _ _ m); [exact Hm|].
    apply Hinv. exact Hsq.
  - intros variables1 [self H]. unfold DifferentialGeometry_init in *.
    ok_steps. rewrite Hv. simpl. rewrite Hv0. simpl. rewrite Hv1. simpl.
    eexists. reflexivity.
Qed.

End Construction.

(** ** The tensors of a constructed model *)

Section Tensors.

Context {B : SymbolicBackend}.

Local Open Scope expr_scope.

Lemma Gamma_value (metric0 : list (list expr)) (variables0 : list symbol)
    (self : RiemannGeometry) (rho lamda nu : nat) :
  RiemannGeometry_init metric0 variables0 = Ok self ->
  rho < dimension self -> lamda < dimension self -> nu < dimension self ->
  Gamma self rho lamda nu =
  simplify
    (Sum (dimension self)
       (christoffel_summand (metric (riemann_base self))
          (inverse_metric (riemann_base self)) (variables (riemann_base self))
          rho lamda nu)).
Proof.
  intros H. apply RiemannGeometry_init_ok in H. cbv zeta in H.
  destruct H as (_ & Hgamma & _).
  apply compute_christoffel_symbols_cells. exact Hgamma.
Qed.

Lemma Riem_value (metric0 : list (list expr)) (variables0 : list symbol)
    (self : RiemannGeometry) (rho lamda mu nu : nat) :
  RiemannGeometry_init metric0 variables0 = Ok self ->
  rho < dimension self -> lamda < dimension self ->
  mu < dimension self -> nu < dimension self ->
  Riem self rho lamda mu nu =
  simplify
    (Sum (dimension self)
       (riemann_summand (christoffel_symbols self) rho lamda mu nu)
     + riemann_diff_part (christoffel_symbols self)
         (variables (riemann_base self)) rho lamda mu nu).
Proof.
  intros H. apply RiemannGeometry_init_ok in H. cbv zeta in H.
  destruct H as (_ & _ & Hriem & _).
  apply compute_riemann_curvature_tensor_cells. exact Hriem.
Qed.

Lemma sum_onto_ext (l : list nat) (f f' : nat -> expr) (s : expr) :
  (forall i, In i l -> f i = f' i) -> sum_onto s l f = sum_onto s l f'.
Proof.
  revert s. induction l as [|i l IH]; simpl; intros s Hf.
  - reflexivity.
  - unfold sum_onto in *. simpl. rewrite (Hf i) by (left; reflexivity).
    apply IH. intros j Hj. apply Hf. right. exact Hj.
Qed.

(** C1.  Every entry of the Christoffel array of a constructed model is
    [simplify], applied once, of the sum over [mu] of
    [g_inverse[rho][mu] * (d g[mu][nu] / d x[lamda] + d g[mu][lamda] / d x[nu]
     - d g[nu][lamda] / d x[mu]) / 2]. *)
Theorem christoffel_symbols_formula (metric0 : list (list expr))
    (variables0 : list symbol) (self : RiemannGeometry) (rho lamda nu : nat) :
  RiemannGeometry_init metric0 variables0 = Ok self ->
  rho < dimension self -> lamda < dimension self -> nu < dimension self ->
  Gamma self rho lamda nu =
  simplify
    (Sum (dimension self) (fun mu =>
       inverse_at self rho mu
       * (diff (metric_at self mu nu) (coordinate self lamda)
          + diff (metric_at self mu lamda) (coordinate self nu)
          - diff (metric_at self nu lamda) (coordinate self mu))
       / of_int 2)).
Proof.
  intros H Hr Hl Hn.
  rewrite (Gamma_value _ _ _ _ _ _ H Hr Hl Hn). reflexivity.
Qed.

(** C7, as amended.  When the metric of a constructed model is symmetric,
    and the backend's sums do not depend on the order of their operands,
    the Christoffel array is symmetric in its last two indices. *)
Theorem christoffel_symbols_symmetric (Hadd : add_commutes B)
    (metric0 : list (list expr)) (variables0 : list symbol)
    (self : RiemannGeometry) (rho lamda nu : nat) :
  RiemannGeometry_init metric0 variables0 = Ok self ->
  (forall i j, i < dimension self -> j < dimension self ->
     metric_at self i j = metric_at self j i) ->
  rho < dimension self -> lamda < dimension self -> nu < dimension self ->
  Gamma self rho lamda nu = Gamma self rho nu lamda.
Proof.
  intros H Hsym Hr Hl Hn.
  rewrite (Gamma_value _ _ _ _ _ _ H Hr Hl Hn).
  rewrite (Gamma_value _ _ _ _ _ _ H Hr Hn Hl).
  f_equal. unfold Sum. apply sum_onto_ext. intros mu Hmu.
  unfold christoffel_summand.
  unfold metric_at in Hsym.
  rewrite (Hsym nu lamda Hn Hl).
  rewrite (Hadd (diff (mat_at (metric (riemann_base self)) mu nu) _)).
  reflexivity.
Qed.

End Tensors.

Section TensorsUpToEquivalence.

Context {B : SymbolicBackend} {E : ExprEquiv B} {L : RingLaws B}.

Local Open Scope expr_scope.

Add Ring backend_ring_tensors :
  backend_ring (setoid equiv_equivalence backend_ring_ext).

(** C2.  Every entry of the Riemann tensor of a constructed model is
    [simplify], applied once, of the sum that lines 82 and 84 accumulate,
    and that sum is, by the ring laws, the expression
    [d Gamma[rho][lamda][nu] / d x[mu] - d Gamma[rho][lamda][mu] / d x[nu]
     + Sum over sigma of (Gamma[sigma][lamda][nu] * Gamma[rho][sigma][mu]
                          - Gamma[sigma][lamda][mu] * Gamma[rho][sigma][nu])]. *)
Theorem riemann_tensor_formula (metric0 : list (list expr))
    (variables0 : list symbol) (self : RiemannGeometry)
    (rho lamda mu nu : nat) :
  RiemannGeometry_init metric0 variables0 = Ok self ->
  rho < dimension self -> lamda < dimension self ->
  mu < dimension self -> nu < dimension self ->
  Riem self rho lamda mu nu =
  simplify
    (Sum (dimension self) (fun sigma =>
       - Gamma self sigma lamda mu * Gamma self rho sigma nu
       + Gamma self sigma lamda nu * Gamma self rho sigma mu)
     + (- diff (Gamma self rho lamda mu) (coordinate self nu)
        + diff (Gamma self rho lamda nu) (coordinate self mu)))
  /\
  Sum (dimension self) (fun sigma =>
    - Gamma self sigma lamda mu * Gamma self rho sigma nu
    + Gamma self sigma lamda nu * Gamma self rho sigma mu)
  + (- diff (Gamma self rho lamda mu) (coordinate self nu)
     + diff (Gamma self rho lamda nu) (coordinate self mu))
  ==
  diff (Gamma self rho lamda nu) (coordinate self mu)
  - diff (Gamma self rho lamda mu) (coordinate self nu)
  + Sum (dimension self) (fun sigma =>
      Gamma self sigma lamda nu * Gamma self rho sigma mu
      - Gamma self sigma lamda mu * Gamma self rho sigma nu).
Proof.
  intros H Hr Hl Hm Hn. split.
  - rewrite (Riem_value _ _ _ _ _ _ _ H Hr Hl Hm Hn). reflexivity.
  - assert (Hsum :
      Sum (dimension self) (fun sigma =>
        - Gamma self sigma lamda mu * Gamma self rho sigma nu
        + Gamma self sigma lamda nu * Gamma self rho sigma mu)
      == Sum (dimension self) (fun sigma =>
        Gamma self sigma lamda nu * Gamma self rho sigma mu
        - Gamma self sigma lamda mu * Gamma self rho sigma nu)).
    { unfold Sum. apply sum_onto_proper; [reflexivity|].
      intros sigma _. ring. }
    rewrite Hsum. ring.
Qed.

(** C8.  The Riemann tensor of a constructed model is antisymmetric in its
    last two indices, up to the equivalence of expressions. *)
Theorem riemann_tensor_antisymmetric (metric0 : list (list expr))
    (variables0 : list symbol) (self : RiemannGeometry)
    (rho lamda mu nu : nat) :
  RiemannGeometry_init metric0 variables0 = Ok self ->
  rho < dimension self -> lamda < dimension self ->
  mu < dimension self -> nu < dimension self ->
  Riem self rho lamda mu nu == - Riem self rho lamda nu mu.
Proof.
  intros H Hr Hl Hm Hn.
  rewrite (Riem_value _ _ _ _ _ _ _ H Hr Hl Hm Hn).
  rewrite (Riem_value _ _ _ _ _ _ _ H Hr Hl Hn Hm).
  rewrite !simplify_sound.
  assert (Hsum :
    Sum (dimension self)
      (riemann_summand (christoffel_symbols self) rho lamda mu nu)
    == - Sum (dimension self)
           (riemann_summand (christoffel_symbols self) rho lamda nu mu)).
  { unfold Sum. apply sum_onto_neg. intros sigma _.
    unfold riemann_summand. ring. }
  rewrite Hsum. unfold riemann_diff_part. ring.
Qed.

End TensorsUpToEquivalence.

(** ** The entries of the Ricci tensor, the Ricci scalar and the Einstein tensor *)

Section TensorCells.

Context {B : SymbolicBackend}.

Local Open Scope expr_scope.

Lemma compute_einstein_tensor_cells (n : nat) (g : matrix)
    (ricci einstein : ndarray) (scalar : expr) (mu nu : nat) :
  compute_einstein_tensor n g ricci scalar = Ok einstein ->
  mu < n -> nu < n ->
  item einstein [mu; nu] =
  simplify (item ricci [mu; nu] - half_float * scalar * mat_at g mu nu).
Proof.
  intros H Hm Hn. unfold compute_einstein_tensor in H. ok_steps.
  subst einstein. simpl. f_equal.
  set (F := fun (idx : list nat) (start : expr) =>
              match idx with
              | [m; v] => item ricci [m; v] - half_float * scalar * mat_at g m v
              | _ => start
              end).
  assert (Hup : updates (under n 2 []) F (np_zeros [n; n]) v).
  { revert Hv. apply for_range_level. intros m s s' _.
    apply for_range_level. intros w s0 s0' _ Hcell. simpl in Hcell.
    ok_steps. apply nd_get_ok in Hv. apply mat_get_ok in Hv0. subst.
    apply nd_set_ok in Hcell. destruct Hcell as [Hset Hrest].
    split; intros idx Hidx.
    - apply under_zero in Hidx. subst idx. exact Hset.
    - apply Hrest. intros ->. apply Hidx. apply under_zero. reflexivity. }
  destruct Hup as [Hhit _].
  rewrite (Hhit [mu; nu]).
  - reflexivity.
  - apply (under_full n [mu; nu]). repeat constructor; assumption.
Qed.

Lemma RiemannGeometry_init_einstein (metric0 : list (list expr))
    (variables0 : list symbol) (self : RiemannGeometry) :
  RiemannGeometry_init metric0 variables0 = Ok self ->
  compute_einstein_tensor (dimension self) (metric (riemann_base self))
    (ricci_tensor self) (ricci_scalar self) = Ok (einstein_tensor self).
Proof.
  unfold RiemannGeometry_init. intros H. ok_steps. subst self. simpl.
  assumption.
Qed.

Lemma Ric_value (metric0 : list (list expr)) (variables0 : list symbol)
    (self : RiemannGeometry) (mu nu : nat) :
  RiemannGeometry_init metric0 variables0 = Ok self ->
  mu < dimension self -> nu < dimension self ->
  Ric self mu nu
  = simplify (Sum (dimension self) (fun lamda => Riem self lamda mu lamda nu)).
Proof.
  intros H. apply RiemannGeometry_init_ok in H. cbv zeta in H.
  destruct H as (_ & _ & _ & Hric & _).
  apply compute_ricci_tensor_cells. exact Hric.
Qed.

Lemma Einstein_value (metric0 : list (list expr)) (variables0 : list symbol)
    (self : RiemannGeometry) (mu nu : nat) :
  RiemannGeometry_init metric0 variables0 = Ok self ->
  mu < dimension self -> nu < dimension self ->
  Einstein self mu nu
  = simplify (Ric self mu nu
              - half_float * ricci_scalar self * metric_at self mu nu).
Proof.
  intros H. apply RiemannGeometry_init_einstein in H.
  apply compute_einstein_tensor_cells. exact H.
Qed.

Lemma ricci_scalar_value (metric0 : list (list expr))
    (variables0 : list symbol) (self : RiemannGeometry) :
  RiemannGeometry_init metric0 variables0 = Ok self ->
  ricci_scalar self
  = simplify (ricci_scalar_sum (dimension self)
                (inverse_metric (riemann_base self)) (ricci_tensor self)).
Proof.
  intros H. apply RiemannGeometry_init_ok in H. cbv zeta in H.
  destruct H as (_ & _ & _ & _ & Hsc).
  apply compute_ricci_scalar_value. exact Hsc.
Qed.

End TensorCells.

(** ** Gaussian curvature against the Ricci scalar *)

Section GaussianCurvature.

Context {B : SymbolicBackend} {E : ExprEquiv B} {L : FieldLaws B}.

Local Open Scope expr_scope.

Add Field backend_field_curvature :
  backend_field (setoid equiv_equivalence backend_ring_ext).

(** The entries of the inverse of a symmetric 2-by-2 matrix, and the fact
    that its determinant is not zero, from the contracts of [inv] and
    [det]. *)
Lemma inverse_entries_2x2 (g00 g01 g10 g11 : expr) (inv_g : matrix) (D : expr) :
  Matrix_inv [[g00; g01]; [g10; g11]] = Ok inv_g ->
  Matrix_det [[g00; g01]; [g10; g11]] = Ok D ->
  g10 == g01 ->
  D == g00 * g11 - g01 * g01 /\
  ~ g00 * g11 - g01 * g01 == zero /\
  mat_at inv_g 0 0 == g11 / (g00 * g11 - g01 * g01) /\
  mat_at inv_g 0 1 == - g01 / (g00 * g11 - g01 * g01) /\
  mat_at inv_g 1 0 == - g01 / (g00 * g11 - g01 * g01) /\
  mat_at inv_g 1 1 == g00 / (g00 * g11 - g01 * g01).
Proof.
  intros Hinv Hdet Hsym.
  apply inverse_2x2 in Hinv. destruct Hinv as (I1 & I2 & I3 & I4).
  apply determinant_2x2 in Hdet.
  rewrite Hsym in I1, I3, Hdet.
  set (a := mat_at inv_g 0 0) in *. set (b := mat_at inv_g 0 1) in *.
  set (c := mat_at inv_g 1 0) in *. set (d := mat_at inv_g 1 1) in *.
  set (N := g00 * g11 - g01 * g01) in *.
  assert (HaD : a * N == g11).
  { transitivity ((a * g00 + b * g01) * g11 - (a * g01 + b * g11) * g01);
      [unfold N; ring|].
    rewrite I1, I2. ring. }
  assert (HbD : b * N == - g01).
  { transitivity ((a * g01 + b * g11) * g00 - (a * g00 + b * g01) * g01);
      [unfold N; ring|].
    rewrite I1, I2. ring. }
  assert (HcD : c * N == - g01).
  { transitivity ((c * g00 + d * g01) * g11 - (c * g01 + d * g11) * g01);
      [unfold N; ring|].
    rewrite I3, I4. ring. }
  assert (HdD : d * N == g00).
  { transitivity ((c * g01 + d * g11) * g00 - (c * g00 + d * g01) * g01);
      [unfold N; ring|].
    rewrite I3, I4. ring. }
  assert (Hnz : ~ N == zero).
  { intros HN0. rewrite HN0 in HaD, HbD.
    assert (H1 : g11 == zero) by (rewrite <- HaD; ring).
    assert (H2 : g01 == zero).
    { transitivity (- - g01); [ring|]. rewrite <- HbD. ring. }
    rewrite H1, H2 in I4.
    apply (F_1_neq_0 backend_field). rewrite <- I4. ring. }
  split; [exact Hdet|]. split; [exact Hnz|].
  repeat split.
  - rewrite <- HaD. field. exact Hnz.
  - rewrite <- HbD. field. exact Hnz.
  - rewrite <- HcD. field. exact Hnz.
  - rewrite <- HdD. field. exact Hnz.
Qed.

(** The steps of the proof below.  Each finds the facts it needs in the
    context by their shape: the closed form of one entry of an array, with
    the inverse metric written out, and the derivative of a Christoffel
    symbol pushed down to the derivatives of the metric. *)
Ltac expand_diff H :=
  repeat first
    [ rewrite diff_add in H
    | rewrite diff_sub in H
    | rewrite diff_mul in H
    | rewrite diff_neg in H
    | rewrite diff_div_two in H
    | rewrite diff_int0 in H ].

Ltac rewrite_inverse_entries H :=
  repeat match goal with
    | Hi : mat_at (inverse_metric _) _ _ == _ |- _ => rewrite Hi in H
    end.

Ltac rewrite_entries_of a H :=
  repeat match goal with
    | Hd : diff (item a _) _ == _ |- _ => rewrite Hd in H
    end;
  repeat match goal with
    | Hg : item a _ == _ |- _ => rewrite Hg in H
    end.

Ltac christoffel_entry H r l n :=
  match goal with
  | Hgam : compute_christoffel_symbols ?s = Ok _,
    Hn : ndim ?s = 2, Hm : _ = metric ?s, Hx : variables ?s = _,
    Hsym : ?g10 == ?g01 |- _ =>
      is_var g10; is_var g01;
      pose proof (compute_christoffel_symbols_cells s _ r l n Hgam) as H;
      rewrite Hn in H; specialize (H ltac:(lia) ltac:(lia) ltac:(lia));
      rewrite <- Hm, Hx in H; cbn [seq sum_onto fold_left] in H;
      unfold christoffel_summand in H; cbn [mat_at nth] in H;
      apply eq_simplify_equiv in H;
      rewrite_inverse_entries H; rewrite ?Hsym in H
  end.

Ltac derivative_of H H' x :=
  pose proof (diff_proper _ _ H x x eq_refl) as H';
  expand_diff H';
  match goal with
  | HN : ~ _ == zero |- _ => rewrite ?(diff_div _ _ _ HN) in H'
  end;
  expand_diff H'.

Ltac riemann_entry H r l m n :=
  match goal with
  | Hriem : compute_riemann_curvature_tensor (ndim ?s) ?gamma _ = Ok _,
    Hn : ndim ?s = 2, Hx : variables ?s = _ |- _ =>
      pose proof
        (compute_riemann_curvature_tensor_cells _ _ _ _ r l m n Hriem) as H;
      rewrite Hn in H;
      specialize (H ltac:(lia) ltac:(lia) ltac:(lia) ltac:(lia));
      rewrite Hx in H; cbn [seq sum_onto fold_left] in H;
      unfold riemann_summand, riemann_diff_part in H;
      apply eq_simplify_equiv in H;
      rewrite_entries_of gamma H
  end.

Ltac ricci_entry H m n :=
  match goal with
  | Hric : compute_ricci_tensor (ndim ?s) ?riemann = Ok _,
    Hn : ndim ?s = 2 |- _ =>
      pose proof (compute_ricci_tensor_cells _ _ _ m n Hric) as H;
      rewrite Hn in H; specialize (H ltac:(lia) ltac:(lia));
      cbn [seq sum_onto fold_left] in H;
      apply eq_simplify_equiv in H;
      rewrite_entries_of riemann H
  end.

(** C3.  For a symmetric 2-by-2 metric, the Gaussian curvature that
    [ClassicalDifferentialGeometry] computes by Brioschi's formula is
    equivalent to half the Ricci scalar that [RiemannGeometry] computes
    through the Christoffel symbols, the Riemann tensor and the Ricci
    tensor of the same metric. *)
Theorem gaussian_curvature_is_half_ricci_scalar (g00 g01 g10 g11 : expr)
    (variables0 : list symbol) (classical : ClassicalDifferentialGeometry)
    (riemannian : RiemannGeometry) :
  ClassicalDifferentialGeometry_init [[g00; g01]; [g10; g11]] variables0
    = Ok classical ->
  RiemannGeometry_init [[g00; g01]; [g10; g11]] variables0 = Ok riemannian ->
  g10 == g01 ->
  gaussian_curvature classical == ricci_scalar riemannian / of_int 2.
Proof.
  intros Hc Hr Hsym.
  apply RiemannGeometry_init_ok in Hr. cbv zeta in Hr.
  destruct Hr as (Hbase & Hgam & Hriem & Hric & Hsc).
  apply ClassicalDifferentialGeometry_init_ok in Hc.
  destruct Hc as (Hcb & _ & HK).
  rewrite Hbase in Hcb. injection Hcb as Hcb. rewrite <- Hcb in HK. clear Hcb.
  apply DifferentialGeometry_init_ok in Hbase.
  destruct Hbase as (Hm & Hinv & Hdet & Hn & Hx).
  simpl in Hm. injection Hm as Hm. simpl in Hn.
  set (self := riemann_base riemannian) in *.
  (* the Gaussian curvature, as computed *)
  unfold compute_gaussian_curvature in HK. rewrite <- Hm, Hx in HK.
  ok_steps.
  repeat match goal with
    | H : mat_get _ _ _ = Ok _ |- _ => apply mat_get_ok in H; cbn in H
    | H : py_index _ _ = Ok _ |- _ => apply var_ok in H
    end.
  subst v v0 v1 v2 v3.
  symmetry in HK. apply eq_simplify_equiv in HK.
  (* the inverse metric and the determinant *)
  rewrite <- Hm in Hinv, Hdet.
  destruct (inverse_entries_2x2 _ _ _ _ _ _ Hinv Hdet Hsym)
    as (HD & HN & HIa & HIb & HIc & HId).
  (* the Christoffel symbols and their derivatives *)
  christoffel_entry G000 0 0 0.
  derivative_of G000 G000_0 (var_at variables0 0).
  derivative_of G000 G000_1 (var_at variables0 1).
  christoffel_entry G001 0 0 1.
  derivative_of G001 G001_0 (var_at variables0 0).
  derivative_of G001 G001_1 (var_at variables0 1).
  christoffel_entry G010 0 1 0.
  derivative_of G010 G010_0 (var_at variables0 0).
  derivative_of G010 G010_1 (var_at variables0 1).
  christoffel_entry G011 0 1 1.
  derivative_of G011 G011_0 (var_at variables0 0).
  derivative_of G011 G011_1 (var_at variables0 1).
  christoffel_entry G100 1 0 0.
  derivative_of G100 G100_0 (var_at variables0 0).
  derivative_of G100 G100_1 (var_at variables0 1).
  christoffel_entry G101 1 0 1.
  derivative_of G101 G101_0 (var_at variables0 0).
  derivative_of G101 G101_1 (var_at variables0 1).
  christoffel_entry G110 1 1 0.
  derivative_of G110 G110_0 (var_at variables0 0).
  derivative_of G110 G110_1 (var_at variables0 1).
  christoffel_entry G111 1 1 1.
  derivative_of G111 G111_0 (var_at variables0 0).
  derivative_of G111 G111_1 (var_at variables0 1).
  (* the entries of the Riemann tensor that the Ricci tensor sums *)
  riemann_entry R0000 0 0 0 0.
  riemann_entry R0001 0 0 0 1.
  riemann_entry R0100 0 1 0 0.
  riemann_entry R0101 0 1 0 1.
  riemann_entry R1010 1 0 1 0.
  riemann_entry R1011 1 0 1 1.
  riemann_entry R1110 1 1 1 0.
  riemann_entry R1111 1 1 1 1.
  (* the Ricci tensor and the Ricci scalar *)
  ricci_entry Ric00 0 0.
  ricci_entry Ric01 0 1.
  ricci_entry Ric10 1 0.
  ricci_entry Ric11 1 1.
  apply compute_ricci_scalar_value in Hsc. rewrite Hn in Hsc.
  unfold ricci_scalar_sum in Hsc. cbn [seq sum_onto fold_left] in Hsc.
  apply eq_simplify_equiv in Hsc.
  rewrite_entries_of (ricci_tensor riemannian) Hsc.
  rewrite_inverse_entries Hsc.
  (* both sides are now rational expressions in the metric and its
     derivatives *)
  rewrite !pow_two in HK. rewrite HD in HK.
  rewrite HK, Hsc.
  rewrite ?(diff_comm g00 (var_at variables0 1) (var_at variables0 0)),
    ?(diff_comm g01 (var_at variables0 1) (var_at variables0 0)),
    ?(diff_comm g11 (var_at variables0 1) (var_at variables0 0)).
  clear - L HN.
  unfold two, four. rewrite ?of_int_two, ?of_int_four.
  change (of_int 0) with zero.
  field.
  split; [exact HN | split; [exact two_nonzero | exact four_nonzero]].
Qed.

(** *** The Ricci tensor and the Einstein tensor in two dimensions *)

(** In two dimensions the Ricci tensor is the metric times half the Ricci
    scalar. *)
Lemma Ric_two_dimensions (g00 g01 g10 g11 : expr) (variables0 : list symbol)
    (riemannian : RiemannGeometry) (mu nu : nat) :
  RiemannGeometry_init [[g00; g01]; [g10; g11]] variables0 = Ok riemannian ->
  g10 == g01 ->
  mu < 2 -> nu < 2 ->
  Ric riemannian mu nu
  == ricci_scalar riemannian / of_int 2 * metric_at riemannian mu nu.
Proof.
  intros Hr Hsym Hmu Hnu.
  apply RiemannGeometry_init_ok in Hr. cbv zeta in Hr.
  destruct Hr as (Hbase & Hgam & Hriem & Hric & Hsc).
  apply DifferentialGeometry_init_ok in Hbase.
  destruct Hbase as (Hm & Hinv & Hdet & Hn & Hx).
  simpl in Hm. injection Hm as Hm. simpl in Hn.
  set (self := riemann_base riemannian) in *.
  (* the inverse metric and the determinant *)
  rewrite <- Hm in Hinv, Hdet.
  destruct (inverse_entries_2x2 _ _ _ _ _ _ Hinv Hdet Hsym)
    as (HD & HN & HIa & HIb & HIc & HId).
  (* the Christoffel symbols and their derivatives *)
  christoffel_entry G000 0 0 0.
  derivative_of G000 G000_0 (var_at variables0 0).
  derivative_of G000 G000_1 (var_at variables0 1).
  christoffel_entry G001 0 0 1.
  derivative_of G001 G001_0 (var_at variables0 0).
  derivative_of G001 G001_1 (var_at variables0 1).
  christoffel_entry G010 0 1 0.
  derivative_of G010 G010_0 (var_at variables0 0).
  derivative_of G010 G010_1 (var_at variables0 1).
  christoffel_entry G011 0 1 1.
  derivative_of G011 G011_0 (var_at variables0 0).
  derivative_of G011 G011_1 (var_at variables0 1).
  christoffel_entry G100 1 0 0.
  derivative_of G100 G100_0 (var_at variables0 0).
  derivative_of G100 G100_1 (var_at variables0 1).
  christoffel_entry G101 1 0 1.
  derivative_of G101 G101_0 (var_at variables0 0).
  derivative_of G101 G101_1 (var_at variables0 1).
  christoffel_entry G110 1 1 0.
  derivative_of G110 G110_0 (var_at variables0 0).
  derivative_of G110 G110_1 (var_at variables0 1).
  christoffel_entry G111 1 1 1.
  derivative_of G111 G111_0 (var_at variables0 0).
  derivative_of G111 G111_1 (var_at variables0 1).
  (* the entries of the Riemann tensor that the Ricci tensor sums *)
  riemann_entry R0000 0 0 0 0.
  riemann_entry R0001 0 0 0 1.
  riemann_entry R0100 0 1 0 0.
  riemann_entry R0101 0 1 0 1.
  riemann_entry R1010 1 0 1 0.
  riemann_entry R1011 1 0 1 1.
  riemann_entry R1110 1 1 1 0.
  riemann_entry R1111 1 1 1 1.
  (* the Ricci tensor and the Ricci scalar *)
  ricci_entry Ric00 0 0.
  ricci_entry Ric01 0 1.
  ricci_entry Ric10 1 0.
  ricci_entry Ric11 1 1.
  apply compute_ricci_scalar_value in Hsc. rewrite Hn in Hsc.
  unfold ricci_scalar_sum in Hsc. cbn [seq sum_onto fold_left] in Hsc.
  apply eq_simplify_equiv in Hsc.
  rewrite_entries_of (ricci_tensor riemannian) Hsc.
  rewrite_inverse_entries Hsc.
  (* entry by entry, both sides are rational expressions in the metric and
     its derivatives *)
  unfold Ric, metric_at. fold self. rewrite <- Hm.
  assert (Hcases : (mu = 0 \/ mu = 1) /\ (nu = 0 \/ nu = 1)) by lia.
  destruct Hcases as [[-> | ->] [-> | ->]]; cbn [mat_at nth];
    rewrite ?Hsym;
    match goal with
    | Hentry : item (ricci_tensor riemannian) ?idx == _
      |- item (ricci_tensor riemannian) ?idx == _ => rewrite Hentry
    end;
    rewrite Hsc;
    rewrite ?(diff_comm g00 (var_at variables0 1) (var_at variables0 0)),
      ?(diff_comm g01 (var_at variables0 1) (var_at variables0 0)),
      ?(diff_comm g11 (var_at variables0 1) (var_at variables0 0));
    clear - L HN;
    unfold two; rewrite ?of_int_two;
    change (of_int 0) with zero;
    field;
    (split; [exact HN | exact two_nonzero]).
Qed.

(** X16.  For a symmetric 2-by-2 metric the Ricci tensor that
    [RiemannGeometry] computes is equivalent to the metric times half the
    Ricci scalar, entry by entry. *)
Theorem ricci_tensor_in_two_dimensions (g00 g01 g10 g11 : expr)
    (variables0 : list symbol) (riemannian : RiemannGeometry) (mu nu : nat) :
  RiemannGeometry_init [[g00; g01]; [g10; g11]] variables0 = Ok riemannian ->
  g10 == g01 ->
  mu < 2 -> nu < 2 ->
  Ric riemannian mu nu
  == ricci_scalar riemannian / of_int 2 * metric_at riemannian mu nu.
Proof. apply Ric_two_dimensions. Qed.

(** X17.  For a symmetric 2-by-2 metric every entry of the Einstein tensor
    that [RiemannGeometry] computes is equivalent to 0, when the float
    [(1/2)] of line 130 denotes one half. *)
Theorem einstein_tensor_vanishes_in_two_dimensions (Hhalf : half_is_one_half B)
    (g00 g01 g10 g11 : expr) (variables0 : list symbol)
    (riemannian : RiemannGeometry) (mu nu : nat) :
  RiemannGeometry_init [[g00; g01]; [g10; g11]] variables0 = Ok riemannian ->
  g10 == g01 ->
  mu < 2 -> nu < 2 ->
  Einstein riemannian mu nu == zero.
Proof.
  intros Hr Hsym Hmu Hnu.
  assert (Hn : dimension riemannian = 2).
  { pose proof Hr as Hr'. apply RiemannGeometry_init_ok in Hr'.
    cbv zeta in Hr'. destruct Hr' as (Hbase & _).
    apply DifferentialGeometry_init_ok in Hbase.
    destruct Hbase as (_ & _ & _ & Hn & _). exact Hn. }
  rewrite (Einstein_value _ _ _ mu nu Hr) by lia.
  rewrite simplify_sound.
  rewrite (Ric_two_dimensions _ _ _ _ _ _ mu nu Hr Hsym Hmu Hnu).
  unfold half_is_one_half in Hhalf. rewrite Hhalf.
  field. exact two_nonzero'.
Qed.

End GaussianCurvature.

(** ** Construction succeeds on well-formed input *)

Lemma for_each_seq_total {S : Type} (J : nat -> S -> Prop)
    (body : nat -> S -> result S) (len : nat) :
  forall (a : nat) (s : S),
    J a s ->
    (forall i s, a <= i < a + len -> J i s ->
       exists s', body i s = Ok s' /\ J (Datatypes.S i) s') ->
    exists s', for_each (seq a len) body s = Ok s' /\ J (a + len) s'.
Proof.
  induction len as [|len IH]; intros a s Hs Hbody; simpl.
  - exists s. rewrite Nat.add_0_r. auto.
  - destruct (Hbody a s ltac:(lia) Hs) as [s1 [H1 Hs1]].
    rewrite H1. simpl.
    destruct (IH (Datatypes.S a) s1 Hs1) as [s' [H' Hs']].
    + intros i s0 Hi. apply Hbody. lia.
    + exists s'. split; [exact H'|].
      replace (a + Datatypes.S len) with (Datatypes.S a + len) by lia.
      exact Hs'.
Qed.

(** A loop over [range(n)] returns when its body does, step by step. *)
Lemma for_range_total_upto {S : Type} (J : nat -> S -> Prop)
    (body : nat -> S -> result S) (n : nat) (s : S) :
  J 0 s ->
  (forall i s, i < n -> J i s ->
     exists s', body i s = Ok s' /\ J (Datatypes.S i) s') ->
  exists s', for_range n body s = Ok s' /\ J n s'.
Proof.
  intros Hs Hbody. unfold for_range.
  apply (for_each_seq_total J body n 0 s Hs).
  intros i s0 Hi. apply Hbody. lia.
Qed.

Lemma for_range_total {S : Type} (Inv : S -> Prop)
    (body : nat -> S -> result S) (n : nat) (s : S) :
  Inv s ->
  (forall i s, i < n -> Inv s -> exists s', body i s = Ok s' /\ Inv s') ->
  exists s', for_range n body s = Ok s' /\ Inv s'.
Proof.
  intros Hs Hbody.
  apply (for_range_total_upto (fun _ => Inv) body n s Hs Hbody).
Qed.

Lemma py_index_total {A : Type} (xs : list A) (i : nat) (d : A) :
  i < length xs -> py_index xs i = Ok (nth i xs d).
Proof.
  intros H. unfold py_index.
  destruct (nth_error xs i) as [a|] eqn:E.
  - rewrite (nth_error_nth _ _ d E). reflexivity.
  - apply nth_error_None in E. lia.
Qed.

Section Totality.

Context {B : SymbolicBackend}.

Lemma mat_get_total (m : matrix) (r c i j : nat) :
  has_shape m r c -> i < r -> j < c -> mat_get m i j = Ok (mat_at m i j).
Proof.
  intros [Hr Hc] Hi Hj. unfold mat_get, mat_at.
  rewrite (py_index_total m i []) by lia. simpl.
  apply py_index_total.
  rewrite Forall_forall in Hc. rewrite (Hc (nth i m [])); [exact Hj|].
  apply nth_In. lia.
Qed.

Lemma nd_get_total (a : ndarray) (idx sh : list nat) :
  shape a = sh -> in_bounds sh idx = true -> nd_get a idx = Ok (item a idx).
Proof. intros <- H. unfold nd_get. rewrite H. reflexivity. Qed.

Lemma nd_set_total (a : ndarray) (idx sh : list nat) (v : expr) :
  shape a = sh -> in_bounds sh idx = true ->
  exists a', nd_set a idx v = Ok a' /\ shape a' = sh.
Proof. intros <- H. unfold nd_set. rewrite H. eexists. split; reflexivity. Qed.

Lemma nd_iadd_total (a : ndarray) (idx sh : list nat) (v : result expr)
    (t : expr) :
  shape a = sh -> in_bounds sh idx = true -> v = Ok t ->
  exists a', nd_iadd a idx v = Ok a' /\ shape a' = sh.
Proof.
  intros Hsh H ->. unfold nd_iadd. rewrite (nd_get_total a idx sh Hsh H). simpl.
  apply nd_set_total; assumption.
Qed.

Lemma in_bounds_below (n : nat) (idx : list nat) :
  Forall (fun i => i < n) idx -> in_bounds (repeat n (length idx)) idx = true.
Proof.
  induction 1 as [|i idx Hi _ IH]; simpl.
  - reflexivity.
  - apply Nat.ltb_lt in Hi. rewrite Hi, IH. reflexivity.
Qed.

(** Solves the goals [in_bounds sh idx = true] of a loop nest. *)
Ltac in_bounds :=
  match goal with
  | |- in_bounds (?n :: _) ?idx = true =>
      apply (in_bounds_below n idx); repeat constructor; assumption
  end.

Lemma christoffel_term_total (g inv_g : matrix) (x : list symbol)
    (n rho lamda nu mu : nat) :
  has_shape g n n -> has_shape inv_g n n -> n <= length x ->
  rho < n -> lamda < n -> nu < n -> mu < n ->
  christoffel_term g inv_g x rho lamda nu mu
  = Ok (christoffel_summand g inv_g x rho lamda nu mu).
Proof.
  intros Hg Hi Hx Hr Hl Hn Hm. unfold christoffel_term.
  rewrite !(mat_get_total _ n n) by assumption.
  rewrite !(py_index_total x _ symbol_s) by lia.
  reflexivity.
Qed.

Lemma compute_christoffel_symbols_total (self : DifferentialGeometry) :
  has_shape (metric self) (ndim self) (ndim self) ->
  has_shape (inverse_metric self) (ndim self) (ndim self) ->
  ndim self <= length (variables self) ->
  exists gamma,
    compute_christoffel_symbols self = Ok gamma /\
    shape gamma = [ndim self; ndim self; ndim self].
Proof.
  intros Hg Hi Hx. unfold compute_christoffel_symbols.
  set (n := ndim self) in *.
  apply for_range_total; [reflexivity|]. intros rho s Hr Hs.
  apply for_range_total; [exact Hs|]. clear s Hs. intros lamda s Hl Hs.
  apply for_range_total; [exact Hs|]. clear s Hs. intros nu s Hn Hs.
  destruct (for_range_total (fun a => shape a = [n; n; n])
              (fun mu a =>
                 nd_iadd a [rho; lamda; nu]
                   (christoffel_term (metric self) (inverse_metric self)
                      (variables self) rho lamda nu mu)) n s Hs)
    as [s1 [H1 Hs1]].
  { intros mu a Hm Ha.
    apply (nd_iadd_total a _ _ _
             (christoffel_summand (metric self) (inverse_metric self)
                (variables self) rho lamda nu mu) Ha).
    - in_bounds.
    - apply (christoffel_term_total _ _ _ n); assumption. }
  rewrite H1. simpl.
  rewrite (nd_get_total _ _ _ Hs1) by in_bounds. simpl.
  apply (nd_set_total _ _ _ _ Hs1). in_bounds.
Qed.

Lemma riemann_term_total (gamma : ndarray) (n rho lamda mu nu sigma : nat) :
  shape gamma = [n; n; n] ->
  rho < n -> lamda < n -> mu < n -> nu < n -> sigma < n ->
  riemann_term gamma rho lamda mu nu sigma
  = Ok (riemann_summand gamma rho lamda mu nu sigma).
Proof.
  intros Hs Hr Hl Hm Hn Hsg. unfold riemann_term.
  rewrite !(nd_get_total _ _ _ Hs) by in_bounds. reflexivity.
Qed.

Lemma riemann_diff_term_total (gamma : ndarray) (x : list symbol)
    (n rho lamda mu nu : nat) :
  shape gamma = [n; n; n] -> n <= length x ->
  rho < n -> lamda < n -> mu < n -> nu < n ->
  riemann_diff_term gamma x rho lamda mu nu
  = Ok (riemann_diff_part gamma x rho lamda mu nu).
Proof.
  intros Hs Hx Hr Hl Hm Hn. unfold riemann_diff_term.
  rewrite (nd_get_total _ _ _ Hs) by in_bounds. simpl.
  rewrite (py_index_total x _ symbol_s) by lia. simpl.
  rewrite (nd_get_total _ _ _ Hs) by in_bounds. simpl.
  rewrite (py_index_total x _ symbol_s) by lia. reflexivity.
Qed.

Lemma compute_riemann_curvature_tensor_total (n : nat) (gamma : ndarray)
    (x : list symbol) :
  shape gamma = [n; n; n] -> n <= length x ->
  exists riemann,
    compute_riemann_curvature_tensor n gamma x = Ok riemann /\
    shape riemann = [n; n; n; n].
Proof.
  intros Hgamma Hx. unfold compute_riemann_curvature_tensor.
  apply for_range_total; [reflexivity|]. intros rho s Hr Hs.
  apply for_range_total; [exact Hs|]. clear s Hs. intros lamda s Hl Hs.
  apply for_range_total; [exact Hs|]. clear s Hs. intros mu s Hm Hs.
  apply for_range_total; [exact Hs|]. clear s Hs. intros nu s Hn Hs.
  destruct (for_range_total (fun a => shape a = [n; n; n; n])
              (fun sigma a =>
                 nd_iadd a [rho; lamda; mu; nu]
                   (riemann_term gamma rho lamda mu nu sigma)) n s Hs)
    as [s1 [H1 Hs1]].
  { intros sigma a Hsg Ha.
    apply (nd_iadd_total a _ _ _
             (riemann_summand gamma rho lamda mu nu sigma) Ha).
    - in_bounds.
    - apply (riemann_term_total _ n); assumption. }
  rewrite H1. simpl.
  destruct (nd_iadd_total s1 [rho; lamda; mu; nu] _
              (riemann_diff_term gamma x rho lamda mu nu)
              (riemann_diff_part gamma x rho lamda mu nu) Hs1)
    as [s2 [H2 Hs2]].
  { in_bounds. }
  { apply (riemann_diff_term_total _ _ n); assumption. }
  rewrite H2. simpl.
  rewrite (nd_get_total _ _ _ Hs2) by in_bounds. simpl.
  apply (nd_set_total _ _ _ _ Hs2). in_bounds.
Qed.

Lemma compute_ricci_tensor_total (n : nat) (riemann : ndarray) :
  shape riemann = [n; n; n; n] ->
  exists ricci, compute_ricci_tensor n riemann = Ok ricci /\ shape ricci = [n; n].
Proof.
  intros Hriem. unfold compute_ricci_tensor.
  apply for_range_total; [reflexivity|]. intros mu s Hm Hs.
  apply for_range_total; [exact Hs|]. clear s Hs. intros nu s Hn Hs.
  destruct (for_range_total (fun a => shape a = [n; n])
              (fun lamda a =>
                 nd_iadd a [mu; nu] (nd_get riemann [lamda; mu; lamda; nu]))
              n s Hs)
    as [s1 [H1 Hs1]].
  { intros lamda a Hl Ha.
    apply (nd_iadd_total a _ _ _ (item riemann [lamda; mu; lamda; nu]) Ha).
    - in_bounds.
    - apply (nd_get_total _ _ _ Hriem). in_bounds. }
  rewrite H1. simpl.
  rewrite (nd_get_total _ _ _ Hs1) by in_bounds. simpl.
  apply (nd_set_total _ _ _ _ Hs1). in_bounds.
Qed.

Lemma compute_ricci_scalar_total (n : nat) (inv_g : matrix) (ricci : ndarray) :
  has_shape inv_g n n -> shape ricci = [n; n] ->
  succeeds (compute_ricci_scalar n inv_g ricci).
Proof.
  intros Hi Hric. unfold compute_ricci_scalar.
  destruct (for_range_total (fun _ : expr => True)
              (fun mu =>
                 for_range n (fun nu ricci_scalar =>
                   a <- mat_get inv_g mu nu ;;
                   r <- nd_get ricci [mu; nu] ;;
                   Ok (add ricci_scalar (mul a r)))) n (of_int 0) I)
    as [s [H _]].
  { intros mu s Hm _. apply for_range_total; [exact I|].
    intros nu s0 Hn _.
    rewrite (mat_get_total _ n n) by assumption. simpl.
    rewrite (nd_get_total _ _ _ Hric) by in_bounds. simpl.
    eexists. split; [reflexivity | exact I]. }
  rewrite H. simpl. eexists. reflexivity.
Qed.

Lemma compute_einstein_tensor_total (n : nat) (g : matrix) (ricci : ndarray)
    (scalar : expr) :
  has_shape g n n -> shape ricci = [n; n] ->
  succeeds (compute_einstein_tensor n g ricci scalar).
Proof.
  intros Hg Hric. unfold compute_einstein_tensor.
  destruct (for_range_total (fun a : ndarray => shape a = [n; n])
              (fun mu =>
                 for_range n (fun nu einstein_tensor =>
                   r <- nd_get ricci [mu; nu] ;;
                   gmn <- mat_get g mu nu ;;
                   nd_set einstein_tensor [mu; nu]
                     (sub r (mul (mul half_float scalar) gmn))))
              n (np_zeros [n; n]) eq_refl)
    as [s [H _]].
  { intros mu s Hm Hs. apply for_range_total; [exact Hs|].
    clear s Hs. intros nu s Hn Hs.
    rewrite (nd_get_total _ _ _ Hric) by in_bounds. simpl.
    rewrite (mat_get_total _ n n) by assumption. simpl.
    apply (nd_set_total _ _ _ _ Hs). in_bounds. }
  rewrite H. simpl. eexists. reflexivity.
Qed.

Lemma Matrix_of_shape (metric0 : list (list expr)) (n : nat) :
  has_shape metric0 n n -> Matrix metric0 = Ok metric0.
Proof.
  intros [Hr Hc]. unfold Matrix.
  destruct metric0 as [|r rest]; [reflexivity|].
  assert (Hrect : rectangular (r :: rest) = true).
  { unfold rectangular. apply forallb_forall. intros row Hrow.
    rewrite Forall_forall in Hc. unfold cols. simpl.
    rewrite (Hc row Hrow), (Hc r (or_introl eq_refl)). apply Nat.eqb_refl. }
  destruct r as [|e r].
  - destruct rest as [|r' rest].
    + inversion Hc as [|? ? H0 _]; subst. simpl in *. discriminate.
    + rewrite Hrect. reflexivity.
  - rewrite Hrect. reflexivity.
Qed.

(** X18.  Construction of [RiemannGeometry] returns a model for every
    [n]-by-[n] matrix and at least [n] coordinate variables, when the
    backend inverts the matrix, to a matrix of the same size, and computes
    its determinant; the model keeps the variables it was given and has one
    parameterized variable for each. *)
Theorem RiemannGeometry_init_total (Hsize : inverse_keeps_size B)
    (metric0 : list (list expr)) (variables0 : list symbol) :
  has_shape metric0 (length metric0) (length metric0) ->
  length metric0 <= length variables0 ->
  succeeds (Matrix_inv metric0) -> succeeds (Matrix_det metric0) ->
  exists self,
    RiemannGeometry_init metric0 variables0 = Ok self /\
    shape (christoffel_symbols self)
    = [dimension self; dimension self; dimension self] /\
    dimension self = length metric0 /\
    variables (riemann_base self) = variables0 /\
    parameterized_vars (riemann_base self)
    = map (fun var => Function_of var symbol_s) variables0.
Proof.
  intros Hg Hx [inv_g Hinv] [d Hdet].
  unfold RiemannGeometry_init, DifferentialGeometry_init.
  rewrite (Matrix_of_shape _ _ Hg). simpl. rewrite Hinv. simpl.
  rewrite Hdet. simpl.
  set (n := length metric0) in *.
  set (base := {| metric := metric0; inverse_metric := inv_g; det := d;
                  ndim := n; variables := variables0;
                  parameterized_vars :=
                    map (fun var => Function_of var symbol_s) variables0 |}).
  assert (Hi : has_shape inv_g n n).
  { apply Hsize in Hinv. unfold rows in Hinv. exact Hinv. }
  destruct (compute_christoffel_symbols_total base Hg Hi Hx)
    as [gamma [Hgamma Hsg]].
  rewrite Hgamma. simpl.
  destruct (compute_riemann_curvature_tensor_total n gamma variables0 Hsg Hx)
    as [riemann [Hriem Hsr]].
  rewrite Hriem. simpl.
  destruct (compute_ricci_tensor_total n riemann Hsr) as [ricci [Hric Hsc]].
  rewrite Hric. simpl.
  destruct (compute_ricci_scalar_total n inv_g ricci Hi Hsc) as [scalar Hscalar].
  rewrite Hscalar. simpl.
  destruct (compute_einstein_tensor_total n metric0 ricci scalar Hg Hsc)
    as [einstein Heinstein].
  rewrite Heinstein. simpl.
  eexists. split; [reflexivity|]. simpl. auto.
Qed.

End Totality.

(** ** Geodesic integration *)

Section GeodesicFacts.

Context {B : SymbolicBackend} {N : NumericBackend B}.

Lemma draw_length (k : nat) (st : rng_state) : length (fst (draw k st)) = k.
Proof.
  revert st. induction k as [|k IH]; intros st; simpl.
  - reflexivity.
  - destruct (random_random st) as [v st'].
    specialize (IH st'). destruct (draw k st') as [vs st''].
    simpl in *. congruence.
Qed.


(** A call with a seed that [np.random.seed] refuses raises the exception
    of the refusal and leaves the generator alone. *)
Lemma solve_geodesic_equation_refused (self : RiemannGeometry) (seed : Z)
    (st : rng_state) (e : exception) :
  random_seed seed = Raise e ->
  solve_geodesic_equation self seed st = (Raise e, st).
Proof. unfold solve_geodesic_equation. intros ->. reflexivity. Qed.

(** A call that reaches the integrator hands it the right-hand side [func],
    the initial state drawn from the seeded generator and the sample times
    of line 174. *)
Lemma solve_geodesic_equation_integrates (self : RiemannGeometry) (seed : Z)
    (st st' : rng_state) (geodesic_equation : pydict expr)
    (fn : pydict (list Q -> result Q)) :
  random_seed seed = Ok st' ->
  compute_geodesic_equation self = Ok geodesic_equation ->
  geodesic_function self geodesic_equation = Ok fn ->
  solve_geodesic_equation self seed st
  = (odeint (func (dimension self) (parameterized_vars (riemann_base self)) fn)
       (fst (draw (2 * dimension self) st')) sample_times,
     snd (draw (2 * dimension self) st')).
Proof.
  unfold solve_geodesic_equation, sample_times, dimension.
  intros -> -> ->.
  destruct (draw (2 * ndim (riemann_base self)) st') as [y0 st''].
  reflexivity.
Qed.

Lemma solve_geodesic_equation_ok (self : RiemannGeometry) (seed : Z)
    (st : rng_state) (sol : list (list Q)) :
  fst (solve_geodesic_equation self seed st) = Ok sol ->
  exists st' geodesic_equation fn,
    random_seed seed = Ok st' /\
    compute_geodesic_equation self = Ok geodesic_equation /\
    geodesic_function self geodesic_equation = Ok fn /\
    odeint (func (dimension self) (parameterized_vars (riemann_base self)) fn)
      (fst (draw (2 * dimension self) st')) sample_times = Ok sol.
Proof.
  intros H.
  destruct (random_seed seed) as [st'|e] eqn:Hseed;
    [|rewrite (solve_geodesic_equation_refused _ _ _ _ Hseed) in H;
      discriminate H].
  destruct (compute_geodesic_equation self) as [ge|e] eqn:Hge;
    [|unfold solve_geodesic_equation in H; rewrite Hseed, Hge in H;
      discriminate H].
  destruct (geodesic_function self ge) as [fn|e] eqn:Hfn;
    [|unfold solve_geodesic_equation in H; rewrite Hseed, Hge, Hfn in H;
      discriminate H].
  rewrite (solve_geodesic_equation_integrates _ _ _ _ _ _ Hseed Hge Hfn) in H.
  exists st', ge, fn. auto.
Qed.

Lemma sample_times_length : length sample_times = 1000.
Proof. unfold sample_times, np_linspace. rewrite length_map, length_seq. reflexivity. Qed.

Lemma sample_times_nth (i : nat) :
  i < 1000 ->
  nth i sample_times 0%Q
  = (inject_Z (Z.of_nat i) * ((10 - 0) / inject_Z (Z.of_nat (1000 - 1))) + 0)%Q.
Proof.
  intros Hi. unfold sample_times, np_linspace.
  set (f := fun i : nat =>
              (inject_Z (Z.of_nat i)
               * ((10 - 0) / inject_Z (Z.of_nat (1000 - 1))) + 0)%Q).
  rewrite (nth_indep _ 0%Q (f 0))
    by (rewrite length_map, length_seq; exact Hi).
  rewrite (map_nth f), seq_nth by exact Hi. reflexivity.
Qed.

Lemma map_result_total {A C : Type} (f : A -> result C) (l : list A) :
  (forall a, In a l -> succeeds (f a)) ->
  exists cs, map_result f l = Ok cs /\ length cs = length l.
Proof.
  induction l as [|a l IH]; simpl; intros H.
  - exists []. auto.
  - destruct (H a (or_introl eq_refl)) as [c Hc]. rewrite Hc. simpl.
    destruct IH as [cs [Hcs Hlen]]; [intros b Hb; apply H; right; exact Hb|].
    rewrite Hcs. simpl. exists (c :: cs). simpl. auto.
Qed.

Lemma dict_get_set_same (Heqb : eqb_reflexive B) {V : Type} (d : pydict V)
    (k : expr) (v : V) :
  dict_get (dict_set d k v) k = Ok v.
Proof.
  induction d as [|[k' v'] d IH]; simpl.
  - rewrite Heqb. reflexivity.
  - destruct (expr_eqb k' k) eqn:E; simpl; rewrite E; [reflexivity | exact IH].
Qed.

Lemma dict_set_keeps_key {V : Type} (d : pydict V) (k k1 : expr) (v : V) :
  succeeds (dict_get d k1) -> succeeds (dict_get (dict_set d k v) k1).
Proof.
  induction d as [|[k' v'] d IH]; simpl.
  - intros [a Ha]. discriminate Ha.
  - destruct (expr_eqb k' k) eqn:E; simpl;
      destruct (expr_eqb k' k1) eqn:E1; intros H;
      try (eexists; reflexivity); try exact H.
    apply IH. exact H.
Qed.

Lemma dict_set_values {V : Type} (P : V -> Prop) (d : pydict V) (k : expr)
    (v : V) :
  Forall (fun kv => P (snd kv)) d -> P v ->
  Forall (fun kv => P (snd kv)) (dict_set d k v).
Proof.
  intros Hd Hv. induction d as [|[k' v'] d IH]; simpl.
  - constructor; [exact Hv | constructor].
  - inversion Hd as [|? ? Hhead Htail]; subst.
    destruct (expr_eqb k' k); constructor; auto.
Qed.

Lemma dict_get_value {V : Type} (P : V -> Prop) (d : pydict V) (k : expr)
    (v : V) :
  Forall (fun kv => P (snd kv)) d -> dict_get d k = Ok v -> P v.
Proof.
  intros Hd. induction d as [|[k' v'] d IH]; simpl; [discriminate|].
  inversion Hd as [|? ? Hhead Htail]; subst.
  destruct (expr_eqb k' k); intros H.
  - injection H as <-. exact Hhead.
  - apply IH; assumption.
Qed.

Lemma for_each_preserves {S : Type} (P : S -> Prop)
    (body : nat -> S -> result S) (l : list nat) :
  (forall i s s', body i s = Ok s' -> P s -> P s') ->
  forall s s', for_each l body s = Ok s' -> P s -> P s'.
Proof.
  intros Hbody. induction l as [|i l IH]; simpl; intros s s' H Hs.
  - injection H as <-. exact Hs.
  - ok_steps. apply (IH v s' H). apply (Hbody i s v Hv Hs).
Qed.

Lemma nd_set_shape (a a' : ndarray) (idx : list nat) (v : expr) :
  nd_set a idx v = Ok a' -> shape a' = shape a.
Proof.
  unfold nd_set. destruct (in_bounds (shape a) idx); intros H; [|discriminate].
  injection H as <-. reflexivity.
Qed.

Lemma nd_iadd_shape (a a' : ndarray) (idx : list nat) (v : result expr) :
  nd_iadd a idx v = Ok a' -> shape a' = shape a.
Proof. unfold nd_iadd. intros H. ok_steps. apply nd_set_shape in H. exact H. Qed.

(** The Christoffel array of a constructed model has shape
    [(ndim, ndim, ndim)]. *)
Lemma compute_christoffel_symbols_shape (base : DifferentialGeometry)
    (gamma : ndarray) :
  compute_christoffel_symbols base = Ok gamma ->
  shape gamma = [ndim base; ndim base; ndim base].
Proof.
  unfold compute_christoffel_symbols, for_range. intros H.
  set (P := fun a : ndarray => shape a = [ndim base; ndim base; ndim base]).
  refine (for_each_preserves P _ _ _ _ _ H eq_refl).
  intros rho s s'. apply (for_each_preserves P).
  intros lamda s0 s0'. apply (for_each_preserves P).
  intros nu s1 s1' Hcell Hs1. ok_steps.
  apply nd_set_shape in Hcell. unfold P. rewrite Hcell.
  refine (for_each_preserves P _ _ _ _ _ Hv Hs1).
  intros mu a a' Ha Hsh. apply nd_iadd_shape in Ha. unfold P in *. congruence.
Qed.

Lemma compute_geodesic_equation_total (Heqb : eqb_reflexive B)
    (self : RiemannGeometry) (d : expr) :
  shape (christoffel_symbols self)
  = [dimension self; dimension self; dimension self] ->
  dimension self <= length (parameterized_vars (riemann_base self)) ->
  exists geodesic_equation,
    compute_geodesic_equation self = Ok geodesic_equation /\
    forall i, i < dimension self ->
      succeeds (dict_get geodesic_equation
                  (nth i (parameterized_vars (riemann_base self)) d)).
Proof.
  intros Hshape Hlen. unfold compute_geodesic_equation, dimension in *.
  cbv zeta.
  set (n := ndim (riemann_base self)) in *.
  set (pv := parameterized_vars (riemann_base self)) in *.
  apply (for_range_total_upto
           (fun i ge => forall i', i' < i -> succeeds (dict_get ge (nth i' pv d)))).
  - intros i' Hi'. lia.
  - intros i ge Hi Hge. cbv beta.
    rewrite (py_index_total pv i d ltac:(lia)). simpl.
    apply (for_range_total
             (fun ge => forall i', i' < S i -> succeeds (dict_get ge (nth i' pv d)))).
    + intros i' Hi'. destruct (Nat.eq_dec i' i) as [->|Hne].
      * eexists. apply (dict_get_set_same Heqb).
      * apply dict_set_keeps_key. apply Hge. lia.
    + intros j ge1 Hj Hge1. apply for_range_total; [exact Hge1|].
      clear ge1 Hge1. intros k ge1 Hk Hge1. cbv beta.
      destruct (Hge1 i ltac:(lia)) as [old Hold]. rewrite Hold. simpl.
      rewrite (nd_get_total _ _ _ Hshape)
        by (apply (in_bounds_below n [i; j; k]); repeat constructor; assumption).
      simpl.
      rewrite (py_index_total pv j d ltac:(lia)). simpl.
      rewrite (py_index_total pv k d ltac:(lia)). simpl.
      eexists. split; [reflexivity|].
      intros i' Hi'. apply dict_set_keeps_key. apply Hge1. exact Hi'.
Qed.

Lemma geodesic_function_total (Heqb : eqb_reflexive B) (self : RiemannGeometry)
    (geodesic_equation : pydict expr) :
  (forall var, In var (parameterized_vars (riemann_base self)) ->
     succeeds (dict_get geodesic_equation var)) ->
  exists fn,
    geodesic_function self geodesic_equation = Ok fn /\
    (forall var, In var (parameterized_vars (riemann_base self)) ->
       succeeds (dict_get fn var)) /\
    Forall (fun kv =>
              exists var e,
                dict_get geodesic_equation var = Ok e /\
                snd kv = lambdify (lambdify_args self)
                           (subs e (substitutes self))) fn.
Proof.
  unfold geodesic_function.
  set (good := fun f : list Q -> result Q =>
                 exists var e,
                   dict_get geodesic_equation var = Ok e /\
                   f = lambdify (lambdify_args self) (subs e (substitutes self))).
  generalize (parameterized_vars (riemann_base self)). intros l Hl.
  assert (H : forall d0 : pydict (list Q -> result Q),
            Forall (fun kv => good (snd kv)) d0 ->
            exists fn,
              fold_left
                (fun r var =>
                   d <- r ;;
                   e <- dict_get geodesic_equation var ;;
                   Ok (dict_set d var
                         (lambdify (lambdify_args self)
                            (subs e (substitutes self)))))
                l (Ok d0) = Ok fn /\
              (forall var, succeeds (dict_get d0 var) \/ In var l ->
                 succeeds (dict_get fn var)) /\
              Forall (fun kv => good (snd kv)) fn).
  { induction l as [|var l IH]; simpl; intros d0 Hd0.
    - exists d0. split; [reflexivity|]. split; [|exact Hd0].
      intros var [H|[]]. exact H.
    - destruct (Hl var (or_introl eq_refl)) as [e He]. rewrite He. simpl.
      destruct (IH (fun v Hv => Hl v (or_intror Hv))
                  (dict_set d0 var
                     (lambdify (lambdify_args self) (subs e (substitutes self)))))
        as [fn [Hfn [Hkeys Hgood]]].
      + apply dict_set_values; [exact Hd0|]. exists var, e. auto.
      + exists fn. split; [exact Hfn|]. split; [|exact Hgood].
        intros v [Hv|[<-|Hv]]; apply Hkeys.
        * left. apply dict_set_keeps_key. exact Hv.
        * left. eexists. apply (dict_get_set_same Heqb).
        * right. exact Hv. }
  destruct (H [] (Forall_nil _)) as [fn [Hfn [Hkeys Hgood]]].
  exists fn. split; [exact Hfn|]. split; [|exact Hgood].
  intros var Hvar. apply Hkeys. right. exact Hvar.
Qed.

Lemma func_total (n : nat) (pv : list expr)
    (fn : pydict (list Q -> result Q)) (y : list Q) (s : Q) :
  length y = 2 * n -> length pv = n ->
  (forall var, In var pv -> succeeds (dict_get fn var)) ->
  Forall (fun kv => succeeds (snd kv y)) fn ->
  exists dy, func n pv fn y s = Ok dy /\ length dy = 2 * n.
Proof.
  intros Hy Hpv Hkeys Hgood. unfold func.
  destruct (map_result_total (fun i => py_index y (i + n)) (seq 0 n))
    as [dydt1 [H1 Hl1]].
  { intros i Hi. apply in_seq in Hi. apply py_index_in_range. lia. }
  rewrite H1. simpl.
  destruct (map_result_total
              (fun var => f <- dict_get fn var ;; f y) pv)
    as [dydt2 [H2 Hl2]].
  { intros var Hvar. destruct (Hkeys var Hvar) as [f Hf]. rewrite Hf. simpl.
    apply (dict_get_value (fun f => succeeds (f y)) fn var f Hgood Hf). }
  rewrite H2. simpl. eexists. split; [reflexivity|].
  rewrite length_app, Hl1, Hl2, length_seq. lia.
Qed.

(** On a constructed model with as many coordinate variables as
    dimensions, [solve_geodesic_equation] returns a trajectory when the
    seed is accepted and the numeric collaborators return. *)
Lemma solve_geodesic_equation_total (Heqb : eqb_reflexive B)
    (Hode : odeint_returns N) (metric0 : list (list expr))
    (variables0 : list symbol) (self : RiemannGeometry) (seed : Z)
    (st : rng_state) :
  RiemannGeometry_init metric0 variables0 = Ok self ->
  length variables0 = length metric0 ->
  evaluates N self ->
  succeeds (random_seed seed) ->
  succeeds (fst (solve_geodesic_equation self seed st)).
Proof.
  intros Hinit Hvars Heval [st0 Hseed].
  apply RiemannGeometry_init_ok in Hinit. cbv zeta in Hinit.
  destruct Hinit as (Hbase & Hgamma & _).
  apply compute_christoffel_symbols_shape in Hgamma.
  assert (Hpv : length (parameterized_vars (riemann_base self))
                = dimension self).
  { unfold DifferentialGeometry_init in Hbase. ok_steps.
    unfold dimension. rewrite <- Hbase. simpl.
    rewrite length_map. exact Hvars. }
  destruct (compute_geodesic_equation_total Heqb self (of_int 0) Hgamma)
    as [ge [Hge Hkeys]]; [rewrite Hpv; lia|].
  assert (Hkeys' : forall var,
            In var (parameterized_vars (riemann_base self)) ->
            succeeds (dict_get ge var)).
  { intros var Hvar. apply (In_nth _ _ (of_int 0)) in Hvar.
    destruct Hvar as [i [Hi <-]]. apply Hkeys. rewrite <- Hpv. exact Hi. }
  destruct (geodesic_function_total Heqb self ge Hkeys')
    as [fn [Hfn [Hfkeys Hgood]]].
  rewrite (solve_geodesic_equation_integrates _ _ _ _ _ _ Hseed Hge Hfn).
  pose proof (draw_length (2 * dimension self) st0) as Hdraw.
  cbn [fst]. apply Hode. intros y s Hy.
  destruct (func_total (dimension self)
              (parameterized_vars (riemann_base self)) fn y s)
    as [dy [Hdy Hlen]].
  - lia.
  - exact Hpv.
  - exact Hfkeys.
  - revert Hgood. apply Forall_impl. intros kv [var [e [He Hkv]]].
    rewrite Hkv. apply (Heval ge var e y Hge He). lia.
  - exists dy. split; [exact Hdy|]. lia.
Qed.


(** C10, as amended.  The sample times are the 1000 equally spaced points
    from 0 to 10, whatever the model, the seed and the caller.  A call that
    reaches the integrator hands it [func], the initial state drawn from the
    seeded generator and those sample times; a trajectory that it returns
    has one state per sample time, each of length [2 * ndim], when the
    integrator returns arrays of the shape of its arguments.  The call does
    return a trajectory on a constructed model with as many coordinate
    variables as dimensions and a seed from 0 to [2**32 - 1], when the
    numeric evaluation of its geodesic equations and the integrator return;
    with any other seed it raises the [ValueError] of [np.random.seed]. *)
Theorem geodesic_sampling_is_fixed (Hode : odeint_shape N)
    (self : RiemannGeometry) (seed : Z) (st : rng_state) :
  length sample_times = 1000 /\
  (nth 0 sample_times 0 == 0)%Q /\
  (nth 999 sample_times 0 == 10)%Q /\
  (forall i, i < 999 ->
     (nth (S i) sample_times 0 - nth i sample_times 0 == 10 # 999)%Q) /\
  (forall sol, fst (solve_geodesic_equation self seed st) = Ok sol ->
     length sol = 1000 /\
     Forall (fun y => length y = 2 * dimension self) sol) /\
  (forall st' geodesic_equation fn,
     random_seed seed = Ok st' ->
     compute_geodesic_equation self = Ok geodesic_equation ->
     geodesic_function self geodesic_equation = Ok fn ->
     fst (solve_geodesic_equation self seed st)
     = odeint (func (dimension self) (parameterized_vars (riemann_base self)) fn)
         (fst (draw (2 * dimension self) st')) sample_times) /\
  (forall metric0 variables0,
     RiemannGeometry_init metric0 variables0 = Ok self ->
     length variables0 = length metric0 ->
     eqb_reflexive B -> odeint_returns N -> evaluates N self ->
     seed_is_32_bit N -> (0 <= seed < 2 ^ 32)%Z ->
     succeeds (fst (solve_geodesic_equation self seed st))) /\
  (seed_is_32_bit N -> ~ (0 <= seed < 2 ^ 32)%Z ->
   fst (solve_geodesic_equation self seed st) = Raise ValueError).
Proof.
  split; [exact sample_times_length|].
  split; [rewrite sample_times_nth by lia; reflexivity|].
  split; [rewrite sample_times_nth by lia; reflexivity|].
  split.
  { intros i Hi. rewrite !sample_times_nth by lia.
    rewrite Nat2Z.inj_succ. unfold Z.succ. rewrite inject_Z_plus.
    change (inject_Z 1) with 1%Q.
    change (((10 - 0) / inject_Z (Z.of_nat (1000 - 1)))%Q) with ((10 # 1) / (999 # 1))%Q.
    field. }
  split.
  { intros sol Hsol. apply solve_geodesic_equation_ok in Hsol.
    destruct Hsol as (st' & ge & fn & _ & _ & _ & Hf).
    apply Hode in Hf. destruct Hf as [Hlen Hall].
    rewrite Hlen, sample_times_length. split; [reflexivity|].
    revert Hall. apply Forall_impl. intros y Hy.
    rewrite Hy. apply draw_length. }
  split.
  { intros st' ge fn Hseed Hge Hfn.
    rewrite (solve_geodesic_equation_integrates _ _ _ _ _ _ Hseed Hge Hfn).
    reflexivity. }
  split.
  { intros metric0 variables0 Hinit Hvars Heqb Hret Heval Hseed Hrange.
    apply (solve_geodesic_equation_total Heqb Hret metric0 variables0);
      try assumption.
    apply (Hseed seed). exact Hrange. }
  intros Hseed Hrange.
  rewrite (solve_geodesic_equation_refused _ _ _ ValueError); [reflexivity|].
  apply (Hseed seed). exact Hrange.
Qed.

End GeodesicFacts.

(** ** The concrete backends keep the contracts *)

Lemma poly_inv_rejects_nonsquare : inv_rejects_nonsquare PolyBackend.
Proof.
  intros m Hsq. unfold rows, cols in Hsq. simpl. unfold cofactor_inverse.
  destruct (Nat.eqb _ _) eqn:H.
  - apply Nat.eqb_eq in H. elim (Hsq H).
  - reflexivity.
Qed.

Lemma poly_inv_rejects_singular : inv_rejects_singular PolyBackend.
Proof.
  intros m d Hsq Hdet Hzero. unfold rows, cols in Hsq. simpl in *.
  unfold cofactor_determinant in Hdet. unfold cofactor_inverse.
  destruct (Nat.eqb _ _) eqn:H.
  - injection Hdet as Hdet. rewrite Hdet.
    unfold pe_is_zero. rewrite Hzero. reflexivity.
  - apply Nat.eqb_neq in H. elim (H Hsq).
Qed.

Lemma poly_inverse_keeps_size : inverse_keeps_size PolyBackend.
Proof.
  intros m inv_m H. simpl in H. unfold cofactor_inverse in H.
  destruct (Nat.eqb _ _); [|discriminate].
  destruct (pe_is_zero _); [discriminate|].
  injection H as <-. unfold has_shape, rows. split.
  - rewrite length_map, length_seq. reflexivity.
  - apply Forall_forall. intros row Hrow.
    apply in_map_iff in Hrow. destruct Hrow as [i [<- _]].
    rewrite length_map, length_seq. reflexivity.
Qed.

Lemma Qplus_comm_eq (a b : Q) : (a + b)%Q = (b + a)%Q.
Proof.
  destruct a as [an ad], b as [bn bd]. unfold Qplus. simpl. f_equal.
  - apply Z.add_comm.
  - apply Pos.mul_comm.
Qed.

Lemma padd_comm (p q : poly) : padd p q = padd q p.
Proof.
  revert q. induction p as [|a p IH]; intros [|b q]; simpl; try reflexivity.
  rewrite Qplus_comm_eq, IH. reflexivity.
Qed.

Lemma poly_add_commutes : add_commutes PolyBackend.
Proof.
  intros [p|] [q|]; simpl; try reflexivity.
  unfold pe_add, pe_lift2. rewrite padd_comm. reflexivity.
Qed.

#[export] Instance const_ring_laws : @RingLaws ConstBackend ConstEquiv.
Proof.
  constructor.
  - exact Q_Setoid.
  - exact Qplus_comp.
  - exact Qmult_comp.
  - exact Qopp_comp.
  - exact Qsrt.
  - exact Qred_correct.
Qed.

Lemma const_field_theory :
  field_theory (@zero ConstBackend) (@one ConstBackend) Qplus Qmult Qminus Qopp
    Qdiv (@recip ConstBackend) Qeq.
Proof.
  constructor.
  - exact Qsrt.
  - exact Q_apart_0_1.
  - intros p q. unfold recip. simpl. unfold Qdiv. ring.
  - intros p Hp. unfold recip, one. simpl. field. exact Hp.
Qed.

#[export] Instance const_field_laws : @FieldLaws ConstBackend ConstEquiv.
Proof.
  constructor.
  - exact const_ring_laws.
  - exact Qdiv_comp.
  - intros a a' _ x x' _. reflexivity.
  - exact const_field_theory.
  - reflexivity.
  - reflexivity.
  - discriminate.
  - intros e. unfold expr_equiv, ConstEquiv. simpl.
    change ((2 / 1)%Z) with 2%Z. simpl. reflexivity.
  - intros a b x. unfold expr_equiv, ConstEquiv. simpl. reflexivity.
  - intros a b x. unfold expr_equiv, ConstEquiv. simpl. ring.
  - intros x. reflexivity.
  - intros e x y. reflexivity.
  - intros a b c d m H. unfold expr_equiv, ConstEquiv.
    simpl in H. unfold cofactor_inverse in H. simpl in H.
    destruct (Qeq_bool _ 0) eqn:Hz; [discriminate|].
    apply Qeq_bool_neq in Hz. injection H as <-.
    cbv [mat_at nth signed Nat.even one zero of_int mul add ConstBackend
         inject_Z] in *.
    repeat split; field; intros H0; apply Hz;
      (etransitivity; [|exact H0]); ring.
  - intros a b c d e H. unfold expr_equiv, ConstEquiv.
    simpl in H. unfold cofactor_determinant in H. simpl in H.
    injection H as <-.
    cbv [signed Nat.even mul add sub ConstBackend]. ring.
Qed.

Lemma lcg_seed_accepts (seed : Z) :
  (0 <= seed < 2 ^ 32)%Z -> lcg_seed seed = Ok (seed mod lcg_modulus)%Z.
Proof.
  intros H. unfold lcg_seed.
  destruct (Z.leb_spec 0 seed); [|lia].
  destruct (Z.ltb_spec seed (2 ^ 32)); [reflexivity | lia].
Qed.

Lemma lcg_seed_refuses (seed : Z) :
  ~ (0 <= seed < 2 ^ 32)%Z -> lcg_seed seed = Raise ValueError.
Proof.
  intros H. unfold lcg_seed.
  destruct (Z.leb_spec 0 seed); [|reflexivity].
  destruct (Z.ltb_spec seed (2 ^ 32)); [lia | reflexivity].
Qed.

Lemma lcg_seed_is_32_bit : seed_is_32_bit PolyNumeric.
Proof.
  intros seed. split; intros H.
  - exists (seed mod lcg_modulus)%Z. apply lcg_seed_accepts. exact H.
  - apply lcg_seed_refuses. exact H.
Qed.


Lemma euler_step_length (h : Q) (y dy : list Q) :
  length dy = length y -> length (euler_step h y dy) = length y.
Proof.
  intros H. unfold euler_step.
  rewrite length_map, length_combine, H. apply Nat.min_id.
Qed.

Lemma euler_steps_shape (f : list Q -> Q -> result (list Q)) (ts : list Q) :
  forall (y : list Q) (t0 : Q) (sol : list (list Q)),
    euler_steps f y t0 ts = Ok sol ->
    length sol = length ts /\ Forall (fun s => length s = length y) sol.
Proof.
  induction ts as [|t1 ts IH]; simpl; intros y t0 sol H.
  - injection H as <-. split; [reflexivity | constructor].
  - ok_steps. destruct (Nat.eqb_spec (length v) (length y)) as [Hl|Hl];
      [|discriminate].
    ok_steps. subst sol. apply IH in Hv0. destruct Hv0 as [Hlen Hall].
    pose proof (euler_step_length (t1 - t0)%Q y v Hl) as Hstep.
    split; [simpl; congruence|].
    constructor; [exact Hstep|].
    revert Hall. apply Forall_impl. intros s Hs. congruence.
Qed.

Lemma euler_odeint_shape : odeint_shape PolyNumeric.
Proof.
  intros f y0 t sol H. simpl in H. unfold euler_odeint in H.
  destruct t as [|t0 ts].
  - injection H as <-. split; [reflexivity | constructor].
  - ok_steps. subst sol. apply euler_steps_shape in Hv.
    destruct Hv as [Hlen Hall]. split; [simpl; congruence|].
    constructor; [reflexivity | exact Hall].
Qed.

Lemma poly_eqb_refl (p : poly) : poly_eqb p p = true.
Proof.
  induction p as [|a p IH]; simpl; [reflexivity|].
  rewrite IH, andb_true_r. apply Qeq_bool_iff. reflexivity.
Qed.

Lemma poly_eqb_reflexive : eqb_reflexive PolyBackend.
Proof. intros [p|]; simpl; [apply poly_eqb_refl | reflexivity]. Qed.

Lemma euler_steps_total (f : list Q -> Q -> result (list Q)) (n : nat) :
  (forall y s, length y = n -> exists dy, f y s = Ok dy /\ length dy = n) ->
  forall (ts : list Q) (y : list Q) (t0 : Q),
    length y = n -> succeeds (euler_steps f y t0 ts).
Proof.
  intros Hf. induction ts as [|t1 ts IH]; simpl; intros y t0 Hy.
  - eexists. reflexivity.
  - destruct (Hf y t0 Hy) as [dy [Hdy Hlen]]. rewrite Hdy. simpl.
    replace (length dy =? length y) with true
      by (symmetry; apply Nat.eqb_eq; congruence).
    destruct (IH (euler_step (t1 - t0)%Q y dy) t1) as [rest Hrest].
    + rewrite euler_step_length; congruence.
    + rewrite Hrest. simpl. eexists. reflexivity.
Qed.

Lemma euler_odeint_returns : odeint_returns PolyNumeric.
Proof.
  intros f y0 t Hf. simpl. unfold euler_odeint.
  destruct t as [|t0 ts]; [eexists; reflexivity|].
  destruct (euler_steps_total f (length y0) Hf ts y0 t0 eq_refl) as [rest Hrest].
  rewrite Hrest. simpl. eexists. reflexivity.
Qed.

(** ** The theorems on concrete inputs *)

Lemma from_ok_spec {A : Type} (default : A) (r : result A) :
  is_ok r = true -> r = Ok (from_ok default r).
Proof. destruct r; simpl; [reflexivity | discriminate]. Qed.

Lemma sheared_model_constructed :
  @RiemannGeometry_init PolyBackend sheared_metric xy = Ok sheared_model.
Proof. apply from_ok_spec. vm_compute. reflexivity. Qed.

Lemma skew_model_constructed :
  @RiemannGeometry_init PolyBackend skew_matrix xy = Ok skew_model.
Proof. apply from_ok_spec. vm_compute. reflexivity. Qed.

Lemma constant_model_constructed :
  @RiemannGeometry_init ConstBackend constant_metric xy = Ok constant_model.
Proof. apply from_ok_spec. vm_compute. reflexivity. Qed.

Lemma constant_classical_constructed :
  @ClassicalDifferentialGeometry_init ConstBackend constant_metric xy
  = Ok constant_classical.
Proof. apply from_ok_spec. vm_compute. reflexivity. Qed.

(** On the sheared metric the two paths give curvature -1 and scalar -2. *)
Example sheared_metric_curvatures :
  ricci_scalar sheared_model = Some [(-2)%Q] /\
  exists classical,
    @ClassicalDifferentialGeometry_init PolyBackend sheared_metric xy
      = Ok classical /\
    gaussian_curvature classical = Some [(-1)%Q].
Proof.
  split; [vm_compute; reflexivity|].
  exists (from_ok empty_classical
            (@ClassicalDifferentialGeometry_init PolyBackend sheared_metric xy)).
  split; [apply from_ok_spec|]; vm_compute; reflexivity.
Qed.

(** Construction returns a model on the sheared metric, by the general
    theorem. *)
Lemma RiemannGeometry_init_total_witness :
  exists self,
    @RiemannGeometry_init PolyBackend sheared_metric xy = Ok self /\
    shape (christoffel_symbols self)
    = [dimension self; dimension self; dimension self] /\
    dimension self = length sheared_metric /\
    variables (riemann_base self) = xy /\
    parameterized_vars (riemann_base self)
    = map (fun var => @Function_of PolyBackend var symbol_s) xy.
Proof.
  apply (RiemannGeometry_init_total (B := PolyBackend)
           poly_inverse_keeps_size sheared_metric xy).
  - split; [reflexivity | repeat constructor].
  - simpl. lia.
  - unfold succeeds. vm_compute. eexists. reflexivity.
  - unfold succeeds. vm_compute. eexists. reflexivity.
Defined.

Lemma christoffel_symbols_formula_witness :
  Gamma sheared_model 0 1 1 =
  simplify
    (Sum (dimension sheared_model) (fun mu =>
       inverse_at sheared_model 0 mu
       * (diff (metric_at sheared_model mu 1) (coordinate sheared_model 1)
          + diff (metric_at sheared_model mu 1) (coordinate sheared_model 1)
          - diff (metric_at sheared_model 1 1) (coordinate sheared_model mu))
       / of_int 2))%E.
Proof.
  apply (christoffel_symbols_formula (B := PolyBackend) sheared_metric xy sheared_model 0 1 1
           sheared_model_constructed); vm_compute; lia.
Defined.

Lemma riemann_tensor_formula_witness :
  Riem constant_model 0 1 0 1 =
  simplify
    (Sum (dimension constant_model) (fun sigma =>
       - Gamma constant_model sigma 1 0 * Gamma constant_model 0 sigma 1
       + Gamma constant_model sigma 1 1 * Gamma constant_model 0 sigma 0)
     + (- diff (Gamma constant_model 0 1 0) (coordinate constant_model 1)
        + diff (Gamma constant_model 0 1 1) (coordinate constant_model 0)))%E
  /\
  (Sum (dimension constant_model) (fun sigma =>
     - Gamma constant_model sigma 1 0 * Gamma constant_model 0 sigma 1
     + Gamma constant_model sigma 1 1 * Gamma constant_model 0 sigma 0)
   + (- diff (Gamma constant_model 0 1 0) (coordinate constant_model 1)
      + diff (Gamma constant_model 0 1 1) (coordinate constant_model 0))
   ==
   diff (Gamma constant_model 0 1 1) (coordinate constant_model 0)
   - diff (Gamma constant_model 0 1 0) (coordinate constant_model 1)
   + Sum (dimension constant_model) (fun sigma =>
       Gamma constant_model sigma 1 1 * Gamma constant_model 0 sigma 0
       - Gamma constant_model sigma 1 0 * Gamma constant_model 0 sigma 1))%E.
Proof.
  apply (@riemann_tensor_formula ConstBackend ConstEquiv const_ring_laws
           constant_metric xy constant_model 0 1 0 1
           constant_model_constructed); vm_compute; lia.
Defined.

Lemma gaussian_curvature_is_half_ricci_scalar_witness :
  (gaussian_curvature constant_classical
   == ricci_scalar constant_model / of_int 2)%E.
Proof.
  apply (@gaussian_curvature_is_half_ricci_scalar ConstBackend ConstEquiv
           const_field_laws 2%Q 1%Q 1%Q 3%Q xy constant_classical
           constant_model).
  - exact constant_classical_constructed.
  - exact constant_model_constructed.
  - reflexivity.
Defined.

Lemma classical_requires_dimension_two_witness :
  @ClassicalDifferentialGeometry_init PolyBackend [[Some [1%Q]]] ["x"%string]
  = Raise (AssertionError assert_msg).
Proof.
  apply (classical_requires_dimension_two (B := PolyBackend)
           [[Some [1%Q]]] ["x"%string]).
  - simpl. lia.
  - exists (from_ok empty_geometry
              (@DifferentialGeometry_init PolyBackend [[Some [1%Q]]]
                 ["x"%string])).
    apply from_ok_spec. vm_compute. reflexivity.
Defined.

Lemma singular_metric_is_rejected_witness :
  @DifferentialGeometry_init PolyBackend singular_matrix xy
    = Raise NonInvertibleMatrixError /\
  @ClassicalDifferentialGeometry_init PolyBackend singular_matrix xy
    = Raise NonInvertibleMatrixError /\
  @RiemannGeometry_init PolyBackend singular_matrix xy
    = Raise NonInvertibleMatrixError.
Proof.
  apply (singular_metric_is_rejected (B := PolyBackend)
           poly_inv_rejects_singular
           singular_matrix xy singular_matrix (Some [])).
  - reflexivity.
  - reflexivity.
  - vm_compute. reflexivity.
  - reflexivity.
Defined.

(** C6, counterexample: a 1-by-1 metric with two coordinate variables is
    accepted by the constructors. *)
Lemma mismatched_variable_count_is_accepted :
  length [[Some [1%Q]]] <> length xy /\
  (exists self,
     @DifferentialGeometry_init PolyBackend [[Some [1%Q]]] xy = Ok self) /\
  (exists self,
     @RiemannGeometry_init PolyBackend [[Some [1%Q]]] xy = Ok self).
Proof.
  split; [simpl; lia|]. split.
  - exists (from_ok empty_geometry
              (@DifferentialGeometry_init PolyBackend [[Some [1%Q]]] xy)).
    apply from_ok_spec. vm_compute. reflexivity.
  - exists (from_ok empty_model
              (@RiemannGeometry_init PolyBackend [[Some [1%Q]]] xy)).
    apply from_ok_spec. vm_compute. reflexivity.
Qed.

Lemma nonsquare_metric_is_rejected_witness :
  @DifferentialGeometry_init PolyBackend wide_matrix xy
    = Raise NonSquareMatrixError /\
  @ClassicalDifferentialGeometry_init PolyBackend wide_matrix xy
    = Raise NonSquareMatrixError /\
  @RiemannGeometry_init PolyBackend wide_matrix xy
    = Raise NonSquareMatrixError.
Proof.
  apply (proj1 (nonsquare_metric_is_rejected (B := PolyBackend)
                  poly_inv_rejects_nonsquare
                  wide_matrix xy) wide_matrix).
  - reflexivity.
  - unfold rows, cols. simpl. lia.
Defined.

(** C7, counterexample: the matrix [[1, x], [0, 1]] is accepted, and its
    Christoffel array has 1/2 at [0][0][1] and 0 at [0][1][0]. *)
Lemma christoffel_symbols_of_skew_matrix :
  @RiemannGeometry_init PolyBackend skew_matrix xy = Ok skew_model /\
  Gamma skew_model 0 0 1 = Some [(1 # 2)%Q] /\
  Gamma skew_model 0 1 0 = Some [] /\
  Gamma skew_model 0 0 1 <> Gamma skew_model 0 1 0.
Proof.
  split; [exact skew_model_constructed|].
  split; [vm_compute; reflexivity|].
  split; [vm_compute; reflexivity|].
  vm_compute. discriminate.
Qed.

Lemma christoffel_symbols_symmetric_witness :
  Gamma sheared_model 0 0 1 = Gamma sheared_model 0 1 0.
Proof.
  apply (christoffel_symbols_symmetric (B := PolyBackend) poly_add_commutes
           sheared_metric xy
           sheared_model 0 0 1 sheared_model_constructed).
  - intros i j Hi Hj. vm_compute in Hi, Hj.
    destruct i as [|[|i]]; [| |lia]; (destruct j as [|[|j]]; [| |lia]);
      vm_compute; reflexivity.
  - vm_compute. lia.
  - vm_compute. lia.
  - vm_compute. lia.
Defined.

Lemma riemann_tensor_antisymmetric_witness :
  (Riem constant_model 0 1 0 1 == - Riem constant_model 0 1 1 0)%E.
Proof.
  apply (@riemann_tensor_antisymmetric ConstBackend ConstEquiv const_ring_laws
           constant_metric xy constant_model 0 1 0 1
           constant_model_constructed); vm_compute; lia.
Defined.


Lemma flat_line_constructed :
  @RiemannGeometry_init PolyBackend [[Some [1%Q]]] ["x"%string] = Ok flat_line.
Proof. apply from_ok_spec. vm_compute. reflexivity. Qed.

(** The geodesic equation of the flat line is x'' = 0, and its numeric
    form returns 0 on every state. *)
Lemma flat_line_evaluates : evaluates PolyNumeric flat_line.
Proof.
  intros ge var e ys Hge He Hlen.
  vm_compute in Hge. injection Hge as <-.
  destruct var as [p|]; simpl in He; [discriminate|].
  injection He as <-.
  vm_compute in Hlen.
  destruct ys as [|a [|b [|c ys]]]; try discriminate Hlen.
  unfold succeeds. vm_compute. eexists. reflexivity.
Qed.

(** C10, counterexample: on the flat line the seeds -1 and 2**32 give no
    trajectory; the call raises [ValueError] and the generator keeps the
    state it had. *)
Lemma refused_seed_gives_no_trajectory :
  @RiemannGeometry_init PolyBackend [[Some [1%Q]]] ["x"%string] = Ok flat_line /\
  @solve_geodesic_equation PolyBackend PolyNumeric flat_line (-1) 7%Z
  = (Raise ValueError, 7%Z) /\
  @solve_geodesic_equation PolyBackend PolyNumeric flat_line (2 ^ 32) 7%Z
  = (Raise ValueError, 7%Z) /\
  ~ succeeds
      (fst (@solve_geodesic_equation PolyBackend PolyNumeric flat_line (-1) 7%Z)).
Proof.
  split; [exact flat_line_constructed|].
  split; [reflexivity|]. split; [reflexivity|].
  intros [sol Hsol]. discriminate Hsol.
Qed.

Lemma geodesic_sampling_is_fixed_witness :
  (exists sol,
     fst (@solve_geodesic_equation PolyBackend PolyNumeric flat_line 104 0%Z)
     = Ok sol /\
     length sol = 1000 /\
     Forall (fun y => length y = 2 * dimension flat_line) sol) /\
  fst (@solve_geodesic_equation PolyBackend PolyNumeric flat_line (-1) 0%Z)
  = Raise ValueError.
Proof.
  split.
  - destruct (geodesic_sampling_is_fixed (N := PolyNumeric) euler_odeint_shape
                flat_line 104 0%Z)
      as (_ & _ & _ & _ & Hshape & _ & Hreturns & _).
    destruct (Hreturns [[Some [1%Q]]] ["x"%string] flat_line_constructed
                eq_refl poly_eqb_reflexive euler_odeint_returns
                flat_line_evaluates lcg_seed_is_32_bit)
      as [sol Hsol].
    + change (2 ^ 32)%Z with 4294967296%Z. lia.
    + exists sol. split; [exact Hsol | exact (Hshape sol Hsol)].
  - destruct (geodesic_sampling_is_fixed (N := PolyNumeric) euler_odeint_shape
                flat_line (-1) 0%Z)
      as (_ & _ & _ & _ & _ & _ & _ & Hrefused).
    apply (Hrefused lcg_seed_is_32_bit).
    change (2 ^ 32)%Z with 4294967296%Z. lia.
Defined.

(** The run of the demonstration on the flat line, seed 104: a straight
    line, 1000 states from the initial state drawn from the seed. *)
Example flat_line_run :
  fst (@solve_geodesic_equation PolyBackend PolyNumeric flat_line 104 0%Z)
  = Ok flat_line_trajectory /\
  length flat_line_trajectory = 1000 /\
  @initial_state PolyBackend PolyNumeric flat_line 104
  = Ok (nth 0 flat_line_trajectory []).
Proof.
  split; [apply from_ok_spec; vm_compute; reflexivity|].
  split; vm_compute; reflexivity.
Qed.

(** ** The Ricci tensor, the Ricci scalar and the Einstein tensor *)

Section MoreTensors.

Context {B : SymbolicBackend}.

Local Open Scope expr_scope.

(** The shapes of the arrays that the loops fill. *)
Lemma compute_riemann_curvature_tensor_shape (n : nat) (gamma riemann : ndarray)
    (x : list symbol) :
  compute_riemann_curvature_tensor n gamma x = Ok riemann ->
  shape riemann = [n; n; n; n].
Proof.
  unfold compute_riemann_curvature_tensor, for_range. intros H.
  set (P := fun a : ndarray => shape a = [n; n; n; n]).
  refine (for_each_preserves P _ _ _ _ _ H eq_refl).
  intros rho s s'. apply (for_each_preserves P).
  intros lamda s0 s0'. apply (for_each_preserves P).
  intros mu s1 s1'. apply (for_each_preserves P).
  intros nu s2 s2' Hcell Hs2. ok_steps.
  apply nd_set_shape in Hcell. apply nd_iadd_shape in Hv0.
  unfold P. rewrite Hcell, Hv0.
  refine (for_each_preserves P _ _ _ _ _ Hv Hs2).
  intros sigma a a' Ha Hsh. apply nd_iadd_shape in Ha. unfold P in *. congruence.
Qed.

Lemma compute_ricci_tensor_shape (n : nat) (riemann ricci : ndarray) :
  compute_ricci_tensor n riemann = Ok ricci -> shape ricci = [n; n].
Proof.
  unfold compute_ricci_tensor, for_range. intros H.
  set (P := fun a : ndarray => shape a = [n; n]).
  refine (for_each_preserves P _ _ _ _ _ H eq_refl).
  intros mu s s'. apply (for_each_preserves P).
  intros nu s1 s1' Hcell Hs1. ok_steps.
  apply nd_set_shape in Hcell. unfold P. rewrite Hcell.
  refine (for_each_preserves P _ _ _ _ _ Hv Hs1).
  intros lamda a a' Ha Hsh. apply nd_iadd_shape in Ha. unfold P in *. congruence.
Qed.

Lemma compute_einstein_tensor_shape (n : nat) (g : matrix)
    (ricci einstein : ndarray) (scalar : expr) :
  compute_einstein_tensor n g ricci scalar = Ok einstein ->
  shape einstein = [n; n].
Proof.
  unfold compute_einstein_tensor, for_range. intros H. ok_steps.
  subst einstein. simpl.
  set (P := fun a : ndarray => shape a = [n; n]).
  refine (for_each_preserves P _ _ _ _ _ Hv eq_refl).
  intros mu s s'. apply (for_each_preserves P).
  intros nu s1 s1' Hcell Hs1. ok_steps.
  apply nd_set_shape in Hcell. unfold P in *. congruence.
Qed.

(** X1.  Every entry of the Ricci tensor of a constructed model is
    [simplify], applied once, of the sum over [lamda] of the entries
    [riemann[lamda, mu, lamda, nu]]: the contraction of the first index of
    the Riemann tensor with the third. *)
Theorem ricci_tensor_formula (metric0 : list (list expr))
    (variables0 : list symbol) (self : RiemannGeometry) (mu nu : nat) :
  RiemannGeometry_init metric0 variables0 = Ok self ->
  mu < dimension self -> nu < dimension self ->
  Ric self mu nu
  = simplify (Sum (dimension self) (fun lamda => Riem self lamda mu lamda nu)).
Proof. apply Ric_value. Qed.

(** X3.  Every entry of the Einstein tensor of a constructed model is
    [simplify] of [ricci[mu, nu] - (1/2) * ricci_scalar * g[mu, nu]], the
    factors multiplied in that order. *)
Theorem einstein_tensor_formula (metric0 : list (list expr))
    (variables0 : list symbol) (self : RiemannGeometry) (mu nu : nat) :
  RiemannGeometry_init metric0 variables0 = Ok self ->
  mu < dimension self -> nu < dimension self ->
  Einstein self mu nu
  = simplify (Ric self mu nu
              - half_float * ricci_scalar self * metric_at self mu nu).
Proof. apply Einstein_value. Qed.

(** X4.  The arrays of a constructed model of dimension [n] have the
    shapes [(n, n, n)], [(n, n, n, n)], [(n, n)] and [(n, n)], and [n] is
    the number of rows of the input. *)
Theorem tensor_shapes (metric0 : list (list expr)) (variables0 : list symbol)
    (self : RiemannGeometry) :
  RiemannGeometry_init metric0 variables0 = Ok self ->
  dimension self = length metric0 /\
  shape (christoffel_symbols self)
  = [dimension self; dimension self; dimension self] /\
  shape (riemann_curvature_tensor self)
  = [dimension self; dimension self; dimension self; dimension self] /\
  shape (ricci_tensor self) = [dimension self; dimension self] /\
  shape (einstein_tensor self) = [dimension self; dimension self].
Proof.
  intros H. pose proof (RiemannGeometry_init_einstein _ _ _ H) as He.
  apply RiemannGeometry_init_ok in H. cbv zeta in H.
  destruct H as (Hbase & Hgam & Hriem & Hric & _).
  apply DifferentialGeometry_init_ok in Hbase.
  destruct Hbase as (_ & _ & _ & Hn & _).
  split; [exact Hn|].
  split; [apply compute_christoffel_symbols_shape; exact Hgam|].
  split; [apply (compute_riemann_curvature_tensor_shape _ _ _ _ Hriem)|].
  split; [apply (compute_ricci_tensor_shape _ _ _ Hric)|].
  apply (compute_einstein_tensor_shape _ _ _ _ _ He).
Qed.

End MoreTensors.

Section MoreRingFacts.

Context {B : SymbolicBackend} {E : ExprEquiv B} {L : RingLaws B}.

Local Open Scope expr_scope.

Add Ring backend_ring_more : backend_ring (setoid equiv_equivalence backend_ring_ext).

Lemma sum_onto_zero (l : list nat) (f : nat -> expr) :
  (forall i, In i l -> f i == zero) -> sum_onto zero l f == zero.
Proof.
  induction l as [|i l IH] using rev_ind; intros H.
  - reflexivity.
  - unfold sum_onto in *. rewrite fold_left_app. simpl.
    rewrite IH, (H i).
    + ring.
    + apply in_or_app. right. left. reflexivity.
    + intros j Hj. apply H. apply in_or_app. left. exact Hj.
Qed.

Lemma sum_onto_start (l : list nat) (f : nat -> expr) (s : expr) :
  sum_onto s l f == s + sum_onto zero l f.
Proof.
  transitivity (sum_onto (zero + s) l f).
  - apply sum_onto_proper; [ring | reflexivity].
  - rewrite sum_onto_shift. ring.
Qed.

(** One accumulator threaded through two nested loops holds the sum of
    the sums. *)
Lemma nested_sum_onto (l l' : list nat) (f : nat -> nat -> expr) (s : expr) :
  fold_left (fun acc mu => sum_onto acc l (f mu)) l' s
  == sum_onto s l' (fun mu => sum_onto zero l (f mu)).
Proof.
  revert s. induction l' as [|mu l' IH]; simpl; intros s.
  - reflexivity.
  - rewrite IH. unfold sum_onto at 1 3. simpl.
    apply (sum_onto_proper l'); [apply sum_onto_start | reflexivity].
Qed.

(** X2.  The Ricci scalar of a constructed model is [simplify], applied
    once, of what the two loops accumulate from the integer 0, and that is,
    by the ring laws, the double sum over [mu] and [nu] of
    [g_inverse[mu][nu] * ricci[mu][nu]]. *)
Theorem ricci_scalar_formula (metric0 : list (list expr))
    (variables0 : list symbol) (self : RiemannGeometry) :
  RiemannGeometry_init metric0 variables0 = Ok self ->
  ricci_scalar self
  = simplify (ricci_scalar_sum (dimension self)
                (inverse_metric (riemann_base self)) (ricci_tensor self)) /\
  ricci_scalar self == ricci_scalar_double_sum self.
Proof.
  intros H. pose proof (ricci_scalar_value _ _ _ H) as Hv.
  split; [exact Hv|].
  rewrite Hv, simplify_sound.
  unfold ricci_scalar_sum, ricci_scalar_double_sum, Sum.
  apply nested_sum_onto.
Qed.

Lemma Riem_equal_indices (metric0 : list (list expr))
    (variables0 : list symbol) (self : RiemannGeometry) (rho lamda mu : nat) :
  RiemannGeometry_init metric0 variables0 = Ok self ->
  rho < dimension self -> lamda < dimension self -> mu < dimension self ->
  Riem self rho lamda mu mu == zero.
Proof.
  intros H Hr Hl Hm.
  rewrite (Riem_value _ _ _ _ _ _ _ H Hr Hl Hm Hm), simplify_sound.
  unfold Sum. change (of_int 0) with zero.
  rewrite sum_onto_zero.
  - unfold riemann_diff_part. ring.
  - intros sigma _. unfold riemann_summand. ring.
Qed.

(** X5.  An entry of the Riemann tensor whose last two indices are equal
    is equivalent to 0. *)
Theorem riemann_tensor_vanishes_on_equal_indices (metric0 : list (list expr))
    (variables0 : list symbol) (self : RiemannGeometry) (rho lamda mu : nat) :
  RiemannGeometry_init metric0 variables0 = Ok self ->
  rho < dimension self -> lamda < dimension self -> mu < dimension self ->
  Riem self rho lamda mu mu == zero.
Proof. apply Riem_equal_indices. Qed.

(** X6.  The curvature of every one-dimensional model vanishes: the one
    entry of its Riemann tensor, of its Ricci tensor and of its Einstein
    tensor, and its Ricci scalar, are equivalent to 0. *)
Theorem one_dimensional_model_is_flat (metric0 : list (list expr))
    (variables0 : list symbol) (self : RiemannGeometry) :
  RiemannGeometry_init metric0 variables0 = Ok self ->
  dimension self = 1 ->
  Riem self 0 0 0 0 == zero /\
  Ric self 0 0 == zero /\
  ricci_scalar self == zero /\
  Einstein self 0 0 == zero.
Proof.
  intros H Hn.
  assert (HR : Riem self 0 0 0 0 == zero)
    by (apply (Riem_equal_indices _ _ _ _ _ _ H); lia).
  assert (HRic : Ric self 0 0 == zero).
  { rewrite (Ric_value _ _ _ _ _ H) by lia. rewrite simplify_sound, Hn.
    unfold Sum, sum_onto. simpl. rewrite HR. change (of_int 0) with zero. ring. }
  assert (Hsc : ricci_scalar self == zero).
  { rewrite (ricci_scalar_value _ _ _ H), simplify_sound.
    unfold ricci_scalar_sum, sum_onto. rewrite Hn. simpl.
    fold (Ric self 0 0). rewrite HRic. change (of_int 0) with zero. ring. }
  split; [exact HR|]. split; [exact HRic|]. split; [exact Hsc|].
  rewrite (Einstein_value _ _ _ _ _ H) by lia.
  rewrite simplify_sound, HRic, Hsc. ring.
Qed.

End MoreRingFacts.

(** ** Too few coordinate variables *)

Lemma only_raises_bind {A C : Type} (e : exception) (m : result A)
    (k : A -> result C) :
  only_raises e m -> (forall a, only_raises e (k a)) -> only_raises e (bind m k).
Proof.
  intros [->|[a ->]] Hk; simpl.
  - left. reflexivity.
  - apply Hk.
Qed.

(** A step that raises [e] after steps that raise nothing else. *)
Lemma raises_after {A C : Type} (e : exception) (m : result A)
    (k : A -> result C) :
  only_raises e m -> (forall a, k a = Raise e) -> bind m k = Raise e.
Proof.
  intros [->|[a ->]] Hk; simpl; [reflexivity | apply Hk].
Qed.

Lemma py_index_only_raises {A : Type} (xs : list A) (i : nat) :
  only_raises IndexError (py_index xs i).
Proof.
  unfold py_index. destruct (nth_error xs i).
  - right. eexists. reflexivity.
  - left. reflexivity.
Qed.

Lemma py_index_out_of_range {A : Type} (xs : list A) (i : nat) :
  length xs <= i -> py_index xs i = Raise IndexError.
Proof.
  intros H. unfold py_index.
  destruct (nth_error xs i) eqn:E; [|reflexivity].
  assert (i < length xs) by (apply nth_error_Some; congruence). lia.
Qed.

Lemma for_each_only_raises {S : Type} (e : exception)
    (body : nat -> S -> result S) (l : list nat) :
  (forall i s, only_raises e (body i s)) ->
  forall s, only_raises e (for_each l body s).
Proof.
  intros Hbody. induction l as [|i l IH]; simpl; intros s.
  - right. eexists. reflexivity.
  - apply only_raises_bind; [apply Hbody | exact IH].
Qed.

(** A loop raises [e] when one of its iterations does in every state, and
    the others raise nothing else. *)
Lemma for_each_raises {S : Type} (e : exception)
    (body : nat -> S -> result S) (l : list nat) (x : nat) :
  In x l ->
  (forall s, body x s = Raise e) ->
  (forall i s, only_raises e (body i s)) ->
  forall s, for_each l body s = Raise e.
Proof.
  intros Hx Hraise Hbody. induction l as [|i l IH]; simpl; intros s.
  - destruct Hx.
  - destruct Hx as [->|Hx].
    + rewrite Hraise. reflexivity.
    + apply raises_after; [apply Hbody | apply IH; exact Hx].
Qed.

Lemma for_range_raises {S : Type} (e : exception)
    (body : nat -> S -> result S) (n x : nat) :
  x < n ->
  (forall s, body x s = Raise e) ->
  (forall i s, only_raises e (body i s)) ->
  forall s, for_range n body s = Raise e.
Proof.
  intros Hx. apply for_each_raises. apply in_seq. lia.
Qed.

Section TooFewVariables.

Context {B : SymbolicBackend}.

Lemma mat_get_only_raises (m : matrix) (i j : nat) :
  only_raises IndexError (mat_get m i j).
Proof.
  unfold mat_get. apply only_raises_bind.
  - apply py_index_only_raises.
  - intros r. apply py_index_only_raises.
Qed.

Lemma nd_get_only_raises (a : ndarray) (idx : list nat) :
  only_raises IndexError (nd_get a idx).
Proof.
  unfold nd_get. destruct (in_bounds (shape a) idx).
  - right. eexists. reflexivity.
  - left. reflexivity.
Qed.

Lemma nd_set_only_raises (a : ndarray) (idx : list nat) (v : expr) :
  only_raises IndexError (nd_set a idx v).
Proof.
  unfold nd_set. destruct (in_bounds (shape a) idx).
  - right. eexists. reflexivity.
  - left. reflexivity.
Qed.

Lemma nd_iadd_only_raises (a : ndarray) (idx : list nat) (v : result expr) :
  only_raises IndexError v -> only_raises IndexError (nd_iadd a idx v).
Proof.
  intros Hv. unfold nd_iadd. apply only_raises_bind.
  - apply nd_get_only_raises.
  - intros old. apply only_raises_bind; [exact Hv|].
    intros v'. apply nd_set_only_raises.
Qed.

Ltac only_raises_steps :=
  repeat first
    [ apply only_raises_bind; [|intros ?]
    | apply mat_get_only_raises
    | apply py_index_only_raises
    | apply nd_get_only_raises
    | apply nd_set_only_raises ].

Lemma christoffel_term_only_raises (g inv_g : matrix) (x : list symbol)
    (rho lamda nu mu : nat) :
  only_raises IndexError (christoffel_term g inv_g x rho lamda nu mu).
Proof.
  unfold christoffel_term. only_raises_steps. right. eexists. reflexivity.
Qed.

(** The summand of line 64 needs [x[lamda]]. *)
Lemma christoffel_term_needs_variable (g inv_g : matrix) (x : list symbol)
    (rho lamda nu mu : nat) :
  length x <= lamda ->
  christoffel_term g inv_g x rho lamda nu mu = Raise IndexError.
Proof.
  intros H. unfold christoffel_term.
  apply raises_after; [apply mat_get_only_raises | intros a].
  apply raises_after; [apply mat_get_only_raises | intros gmn].
  rewrite (py_index_out_of_range x lamda H). reflexivity.
Qed.

Lemma compute_christoffel_symbols_needs_variables (self : DifferentialGeometry) :
  length (variables self) < ndim self ->
  compute_christoffel_symbols self = Raise IndexError.
Proof.
  intros H. unfold compute_christoffel_symbols.
  set (n := ndim self) in *.
  assert (Hmu : forall rho lamda nu mu s,
            only_raises IndexError
              (nd_iadd s [rho; lamda; nu]
                 (christoffel_term (metric self) (inverse_metric self)
                    (variables self) rho lamda nu mu))).
  { intros. apply nd_iadd_only_raises, christoffel_term_only_raises. }
  assert (Hnu : forall rho lamda nu s,
            only_raises IndexError
              (christoffel_symbols <-
                 for_range n (fun mu christoffel_symbols =>
                   nd_iadd christoffel_symbols [rho; lamda; nu]
                     (christoffel_term (metric self) (inverse_metric self)
                        (variables self) rho lamda nu mu)) s ;;
               old <- nd_get christoffel_symbols [rho; lamda; nu] ;;
               nd_set christoffel_symbols [rho; lamda; nu] (simplify old))).
  { intros. apply only_raises_bind.
    - apply for_each_only_raises. intros mu s0. apply Hmu.
    - intros a. only_raises_steps. }
  apply (for_range_raises IndexError _ n 0); [lia| |].
  - intros s.
    apply (for_range_raises IndexError _ n (length (variables self)));
      [exact H| |].
    + intros s0. apply (for_range_raises IndexError _ n 0); [lia| |].
      * intros s1.
        rewrite (for_range_raises IndexError _ n 0); [reflexivity | lia | |].
        -- intros s2. unfold nd_iadd.
           apply raises_after; [apply nd_get_only_raises | intros old].
           rewrite christoffel_term_needs_variable by lia. reflexivity.
        -- intros mu s2. apply Hmu.
      * intros nu s1. apply Hnu.
    + intros lamda s0. apply for_each_only_raises. intros nu s1. apply Hnu.
  - intros rho s. apply for_each_only_raises. intros lamda s0.
    apply for_each_only_raises. intros nu s1. apply Hnu.
Qed.

Lemma compute_gaussian_curvature_needs_variables (self : DifferentialGeometry) :
  length (variables self) < 2 ->
  compute_gaussian_curvature self = Raise IndexError.
Proof.
  intros H. unfold compute_gaussian_curvature. cbv zeta.
  apply raises_after; [apply mat_get_only_raises | intros g01].
  apply raises_after; [apply py_index_only_raises | intros x0].
  rewrite (py_index_out_of_range (variables self) 1) by lia. reflexivity.
Qed.

Lemma compute_gaussian_curvature_total (self : DifferentialGeometry) :
  has_shape (metric self) 2 2 -> 2 <= length (variables self) ->
  succeeds (compute_gaussian_curvature self).
Proof.
  intros Hg Hx. unfold compute_gaussian_curvature. cbv zeta.
  rewrite !(mat_get_total _ 2 2) by (assumption || lia).
  rewrite !(py_index_total (variables self) _ symbol_s) by lia.
  simpl. eexists. reflexivity.
Qed.

(** X7.  [RiemannGeometry] cannot be constructed with fewer coordinate
    variables than the metric has rows: the Christoffel loop indexes the
    list of variables by every index below [ndim], and the [IndexError] of
    the first index that is out of range leaves the constructor. *)
Theorem riemann_geometry_needs_variables (metric0 : list (list expr))
    (variables0 : list symbol) :
  succeeds (DifferentialGeometry_init metric0 variables0) ->
  length variables0 < length metric0 ->
  RiemannGeometry_init metric0 variables0 = Raise IndexError.
Proof.
  intros [base Hbase] Hlen. unfold RiemannGeometry_init.
  rewrite Hbase. simpl.
  apply DifferentialGeometry_init_ok in Hbase.
  destruct Hbase as (_ & _ & _ & Hn & Hx).
  rewrite compute_christoffel_symbols_needs_variables; [reflexivity|].
  rewrite Hn, Hx. exact Hlen.
Qed.

(** X8.  On a 2-by-2 metric that the base class accepts,
    [ClassicalDifferentialGeometry] raises [IndexError] when it is given
    fewer than two coordinate variables, and returns a model when it is
    given two or more: Brioschi's formula differentiates by [x[0]] and
    [x[1]] and looks at no other variable. *)
Theorem classical_geometry_needs_two_variables (metric0 : list (list expr))
    (variables0 : list symbol) :
  succeeds (DifferentialGeometry_init metric0 variables0) ->
  has_shape metric0 2 2 ->
  (length variables0 < 2 ->
   ClassicalDifferentialGeometry_init metric0 variables0 = Raise IndexError) /\
  (2 <= length variables0 ->
   succeeds (ClassicalDifferentialGeometry_init metric0 variables0)).
Proof.
  intros [base Hbase] Hshape. unfold ClassicalDifferentialGeometry_init.
  rewrite Hbase. simpl.
  apply DifferentialGeometry_init_ok in Hbase.
  destruct Hbase as (Hm & _ & _ & Hn & Hx).
  rewrite (Matrix_of_shape _ _ Hshape) in Hm. injection Hm as Hm.
  destruct Hshape as [Hrows Hcols].
  rewrite Hn, Hrows. simpl. split; intros Hlen.
  - rewrite compute_gaussian_curvature_needs_variables; [reflexivity|].
    rewrite Hx. exact Hlen.
  - destruct (compute_gaussian_curvature_total base) as [k Hk].
    + rewrite <- Hm. split; assumption.
    + rewrite Hx. exact Hlen.
    + rewrite Hk. simpl. eexists. reflexivity.
Qed.

End TooFewVariables.

(** ** Metrics with constant entries *)

Lemma for_each_preserves_in {S : Type} (P : S -> Prop)
    (body : nat -> S -> result S) (l : list nat) :
  (forall i s s', In i l -> body i s = Ok s' -> P s -> P s') ->
  forall s s', for_each l body s = Ok s' -> P s -> P s'.
Proof.
  induction l as [|i l IH]; simpl; intros Hbody s s' H Hs.
  - injection H as <-. exact Hs.
  - ok_steps. apply (IH (fun j s0 s1 Hj => Hbody j s0 s1 (or_intror Hj)) v s' H).
    apply (Hbody i s v (or_introl eq_refl) Hv Hs).
Qed.

Lemma for_range_preserves {S : Type} (P : S -> Prop)
    (body : nat -> S -> result S) (n : nat) :
  (forall i s s', i < n -> body i s = Ok s' -> P s -> P s') ->
  forall s s', for_range n body s = Ok s' -> P s -> P s'.
Proof.
  intros Hbody. unfold for_range. apply for_each_preserves_in.
  intros i s s' Hi. apply Hbody. apply in_seq in Hi. lia.
Qed.

Section ConstantMetric.

Context {B : SymbolicBackend} {E : ExprEquiv B} {L : FieldLaws B}.

Local Open Scope expr_scope.

Add Ring backend_ring_constant :
  backend_ring (setoid equiv_equivalence backend_ring_ext).

Lemma div_zero_numerator (a b : expr) : a == zero -> a / b == zero.
Proof. intros H. rewrite H, (Fdiv_def backend_field). ring. Qed.

Lemma diff_of_zero (a : expr) (x : symbol) : a == zero -> diff a x == zero.
Proof. intros H. rewrite (diff_proper _ _ H x x eq_refl). apply diff_zero. Qed.

Lemma Gamma_of_constant_metric (metric0 : list (list expr))
    (variables0 : list symbol) (self : RiemannGeometry) (rho lamda nu : nat) :
  RiemannGeometry_init metric0 variables0 = Ok self ->
  constant_entries self ->
  rho < dimension self -> lamda < dimension self -> nu < dimension self ->
  Gamma self rho lamda nu == zero.
Proof.
  intros H Hc Hr Hl Hn.
  rewrite (Gamma_value _ _ _ _ _ _ H Hr Hl Hn), simplify_sound.
  unfold Sum. change (of_int 0) with zero.
  apply sum_onto_zero. intros mu Hmu. apply in_seq in Hmu.
  unfold christoffel_summand.
  pose proof (Hc mu nu lamda ltac:(lia) Hn Hl) as H1.
  pose proof (Hc mu lamda nu ltac:(lia) Hl Hn) as H2.
  pose proof (Hc nu lamda mu Hn Hl ltac:(lia)) as H3.
  unfold metric_at, coordinate in H1, H2, H3.
  apply div_zero_numerator. rewrite H1, H2, H3. ring.
Qed.

Lemma Riem_of_constant_metric (metric0 : list (list expr))
    (variables0 : list symbol) (self : RiemannGeometry)
    (rho lamda mu nu : nat) :
  RiemannGeometry_init metric0 variables0 = Ok self ->
  constant_entries self ->
  rho < dimension self -> lamda < dimension self ->
  mu < dimension self -> nu < dimension self ->
  Riem self rho lamda mu nu == zero.
Proof.
  intros H Hc Hr Hl Hm Hn.
  pose proof (fun a b c => Gamma_of_constant_metric _ _ _ a b c H Hc) as HG.
  unfold Gamma in HG.
  rewrite (Riem_value _ _ _ _ _ _ _ H Hr Hl Hm Hn), simplify_sound.
  unfold Sum. change (of_int 0) with zero.
  rewrite sum_onto_zero.
  - unfold riemann_diff_part.
    rewrite (diff_of_zero _ _ (HG rho lamda mu Hr Hl Hm)).
    rewrite (diff_of_zero _ _ (HG rho lamda nu Hr Hl Hn)). ring.
  - intros sigma Hs. apply in_seq in Hs. unfold riemann_summand.
    rewrite (HG sigma lamda mu), (HG sigma lamda nu) by (assumption || lia).
    ring.
Qed.

Lemma Ric_of_constant_metric (metric0 : list (list expr))
    (variables0 : list symbol) (self : RiemannGeometry) (mu nu : nat) :
  RiemannGeometry_init metric0 variables0 = Ok self ->
  constant_entries self ->
  mu < dimension self -> nu < dimension self ->
  Ric self mu nu == zero.
Proof.
  intros H Hc Hm Hn.
  rewrite (Ric_value _ _ _ _ _ H Hm Hn), simplify_sound.
  unfold Sum. change (of_int 0) with zero.
  apply sum_onto_zero. intros lamda Hl. apply in_seq in Hl.
  apply (Riem_of_constant_metric _ _ _ _ _ _ _ H Hc); assumption || lia.
Qed.

Lemma ricci_scalar_of_constant_metric (metric0 : list (list expr))
    (variables0 : list symbol) (self : RiemannGeometry) :
  RiemannGeometry_init metric0 variables0 = Ok self ->
  constant_entries self ->
  ricci_scalar self == zero.
Proof.
  intros H Hc.
  rewrite (ricci_scalar_value _ _ _ H), simplify_sound.
  unfold ricci_scalar_sum. rewrite nested_sum_onto.
  change (of_int 0) with zero.
  apply sum_onto_zero. intros mu Hmu. apply in_seq in Hmu.
  apply sum_onto_zero. intros nu Hnu. apply in_seq in Hnu.
  pose proof (Ric_of_constant_metric _ _ _ mu nu H Hc ltac:(lia) ltac:(lia))
    as HR.
  unfold Ric in HR. rewrite HR. ring.
Qed.

(** X9.  When the entries of the metric do not depend on the coordinates,
    every Christoffel symbol of the model is equivalent to 0. *)
Theorem christoffel_symbols_of_constant_metric (metric0 : list (list expr))
    (variables0 : list symbol) (self : RiemannGeometry) (rho lamda nu : nat) :
  RiemannGeometry_init metric0 variables0 = Ok self ->
  constant_entries self ->
  rho < dimension self -> lamda < dimension self -> nu < dimension self ->
  Gamma self rho lamda nu == zero.
Proof. apply Gamma_of_constant_metric. Qed.

(** X10.  A metric with constant entries is flat: every entry of the
    Riemann tensor, of the Ricci tensor and of the Einstein tensor, and the
    Ricci scalar, are equivalent to 0. *)
Theorem constant_metric_is_flat (metric0 : list (list expr))
    (variables0 : list symbol) (self : RiemannGeometry) :
  RiemannGeometry_init metric0 variables0 = Ok self ->
  constant_entries self ->
  (forall rho lamda mu nu,
     rho < dimension self -> lamda < dimension self ->
     mu < dimension self -> nu < dimension self ->
     Riem self rho lamda mu nu == zero) /\
  (forall mu nu, mu < dimension self -> nu < dimension self ->
     Ric self mu nu == zero) /\
  ricci_scalar self == zero /\
  (forall mu nu, mu < dimension self -> nu < dimension self ->
     Einstein self mu nu == zero).
Proof.
  intros H Hc.
  split; [intros; apply (Riem_of_constant_metric _ _ _ _ _ _ _ H Hc); assumption|].
  split; [intros; apply (Ric_of_constant_metric _ _ _ _ _ H Hc); assumption|].
  split; [apply (ricci_scalar_of_constant_metric _ _ _ H Hc)|].
  intros mu nu Hm Hn.
  rewrite (Einstein_value _ _ _ _ _ H Hm Hn), simplify_sound.
  rewrite (Ric_of_constant_metric _ _ _ _ _ H Hc Hm Hn).
  rewrite (ricci_scalar_of_constant_metric _ _ _ H Hc). ring.
Qed.

(** X11.  The geodesic equations of a metric with constant entries are
    those of straight lines: every right-hand side that
    [compute_geodesic_equation] stores is equivalent to 0. *)
Theorem geodesics_of_constant_metric (metric0 : list (list expr))
    (variables0 : list symbol) (self : RiemannGeometry)
    (geodesic_equation : pydict expr) (var e : expr) :
  RiemannGeometry_init metric0 variables0 = Ok self ->
  constant_entries self ->
  compute_geodesic_equation self = Ok geodesic_equation ->
  dict_get geodesic_equation var = Ok e ->
  e == zero.
Proof.
  intros H Hc Hge He.
  pose proof (fun a b c => Gamma_of_constant_metric _ _ _ a b c H Hc) as HG.
  unfold Gamma, dimension in HG.
  set (P := fun ge : pydict expr => Forall (fun kv => snd kv == zero) ge).
  assert (HP : P geodesic_equation).
  { unfold compute_geodesic_equation in Hge. cbv zeta in Hge.
    refine (for_range_preserves P _ _ _ _ _ Hge (Forall_nil _)).
    intros i s s' Hi Hbody Hs. ok_steps.
    assert (Hs0 : P (dict_set s v (of_int 0))).
    { apply (dict_set_values (fun x => x == zero)); [exact Hs | reflexivity]. }
    refine (for_range_preserves P _ _ _ _ _ Hbody Hs0).
    intros j s1 s1' Hj. apply for_range_preserves.
    intros k s2 s2' Hk Hstep Hs2. ok_steps. subst s2'.
    apply (dict_set_values (fun x => x == zero)); [exact Hs2|].
    apply (dict_get_value (fun x => x == zero) _ _ _ Hs2) in Hv1.
    apply nd_get_ok in Hv2. subst v2.
    rewrite Hv1, (HG i j k Hi Hj Hk). ring. }
  apply (dict_get_value (fun x => x == zero) _ _ _ HP He).
Qed.

(** X12.  The Gaussian curvature that Brioschi's formula gives for a
    2-by-2 metric with constant entries is equivalent to 0. *)
Theorem gaussian_curvature_of_constant_metric (metric0 : list (list expr))
    (variables0 : list symbol) (classical : ClassicalDifferentialGeometry) :
  ClassicalDifferentialGeometry_init metric0 variables0 = Ok classical ->
  (forall i j k, i < 2 -> j < 2 -> k < 2 ->
     diff (mat_at (metric (classical_base classical)) i j)
       (var_at variables0 k) == zero) ->
  gaussian_curvature classical == zero.
Proof.
  intros Hc Hconst.
  apply ClassicalDifferentialGeometry_init_ok in Hc.
  destruct Hc as (Hbase & _ & HK).
  apply DifferentialGeometry_init_ok in Hbase.
  destruct Hbase as (_ & _ & _ & _ & Hx).
  unfold compute_gaussian_curvature in HK. rewrite Hx in HK. ok_steps.
  repeat match goal with
    | H : mat_get _ _ _ = Ok _ |- _ => apply mat_get_ok in H
    | H : py_index _ _ = Ok _ |- _ => apply var_ok in H
    end.
  subst v v0 v1 v2 v3.
  symmetry in HK. apply eq_simplify_equiv in HK. rewrite HK.
  assert (D : forall i j k, i < 2 -> j < 2 -> k < 2 ->
            diff (mat_at (metric (classical_base classical)) i j)
              (var_at variables0 k) == zero) by exact Hconst.
  assert (DD : forall i j k l, i < 2 -> j < 2 -> k < 2 ->
            diff (diff (mat_at (metric (classical_base classical)) i j)
                    (var_at variables0 k)) l == zero).
  { intros. apply diff_of_zero. apply D; assumption. }
  rewrite !pow_two.
  match goal with
  | |- ?t1 - ?t2 + ?t3 - ?t4 == zero =>
      assert (H1 : t1 == zero)
        by (apply div_zero_numerator; rewrite ?DD, ?D by lia; ring);
      assert (H2 : t2 == zero)
        by (apply div_zero_numerator; rewrite ?D by lia; ring);
      assert (H3 : t3 == zero)
        by (apply div_zero_numerator; rewrite ?D by lia; ring);
      assert (H4 : t4 == zero)
        by (apply div_zero_numerator; rewrite ?D by lia; ring);
      rewrite H1, H2, H3, H4; ring
  end.
Qed.

End ConstantMetric.

(** ** The geodesic equations *)

Lemma map_result_ok {A C : Type} (f : A -> result C) (l : list A) (cs : list C) :
  map_result f l = Ok cs ->
  length cs = length l /\
  forall i a c, i < length l -> f (nth i l a) = Ok (nth i cs c).
Proof.
  revert cs. induction l as [|x l IH]; simpl; intros cs H.
  - injection H as <-. split; [reflexivity | intros; lia].
  - ok_steps. subst cs. destruct (IH _ Hv0) as [Hlen Hnth]. split.
    + simpl. congruence.
    + intros [|i] a c Hi; simpl; [exact Hv | apply Hnth; lia].
Qed.

Lemma bind_Ok {A C : Type} (m : result A) (a : A) (k : A -> result C) :
  m = Ok a -> bind m k = k a.
Proof. intros ->. reflexivity. Qed.

Section GeodesicEquations.

Context {B : SymbolicBackend}.

Lemma dict_get_app_fresh {V : Type} (d d' : pydict V) (k : expr) :
  fresh_key d k -> dict_get (d ++ d') k = dict_get d' k.
Proof.
  induction d as [|[k' v'] d IH]; simpl; intros H; [reflexivity|].
  pose proof (H (k', v') (or_introl eq_refl)) as Hk. simpl in Hk. rewrite Hk.
  apply IH. intros kv Hkv. apply H. right. exact Hkv.
Qed.

Lemma dict_get_fresh {V : Type} (d : pydict V) (k : expr) :
  fresh_key d k -> dict_get d k = Raise KeyError.
Proof.
  intros H. rewrite <- (app_nil_r d). rewrite (dict_get_app_fresh d [] k H).
  reflexivity.
Qed.

Lemma dict_set_app_fresh {V : Type} (d d' : pydict V) (k : expr) (v : V) :
  fresh_key d k -> dict_set (d ++ d') k v = d ++ dict_set d' k v.
Proof.
  induction d as [|[k' v'] d IH]; simpl; intros H; [reflexivity|].
  pose proof (H (k', v') (or_introl eq_refl)) as Hk. simpl in Hk. rewrite Hk.
  f_equal.
  apply IH. intros kv Hkv. apply H. right. exact Hkv.
Qed.

Lemma dict_set_fresh {V : Type} (d : pydict V) (k : expr) (v : V) :
  fresh_key d k -> dict_set d k v = d ++ [(k, v)].
Proof.
  intros H. pose proof (dict_set_app_fresh d [] k v H) as E.
  rewrite app_nil_r in E. exact E.
Qed.

Lemma dict_get_only_raises {V : Type} (d : pydict V) (k : expr) :
  only_raises KeyError (dict_get d k).
Proof.
  induction d as [|[k' v'] d IH]; simpl.
  - left. reflexivity.
  - destruct (expr_eqb k' k); [right; eexists; reflexivity | exact IH].
Qed.

Variable self : RiemannGeometry.

Local Abbreviation n := (ndim (riemann_base self)).
Local Abbreviation pv := (parameterized_vars (riemann_base self)).

Hypothesis Heqb : eqb_reflexive B.
Hypothesis Hshape : shape (christoffel_symbols self) = [n; n; n].
Hypothesis Hpv : n <= length pv.

(** The loop over [k] of line 149, on a dictionary whose last key is
    [parameterized_vars[i]]. *)
Lemma geodesic_loop_k (i j : nat) (d : pydict expr) (l : list nat) :
  i < n -> j < n -> (forall k, In k l -> k < n) ->
  fresh_key d (parameterized_var self i) ->
  forall acc,
    for_each l
      (fun k geodesic_equation =>
         key <- py_index pv i ;;
         old <- dict_get geodesic_equation key ;;
         g <- nd_get (christoffel_symbols self) [i; j; k] ;;
         pj <- py_index pv j ;;
         pk <- py_index pv k ;;
         Ok (dict_set geodesic_equation key
               (sub old (mul (mul g (diff pj symbol_s)) (diff pk symbol_s)))))
      (d ++ [(parameterized_var self i, acc)])
    = Ok (d ++ [(parameterized_var self i,
                 fold_left (fun acc k => sub acc (geodesic_term self i j k))
                   l acc)]).
Proof.
  intros Hi Hj Hl Hfresh.
  match goal with
  | |- forall acc, for_each _ ?b _ = _ => set (body := b)
  end.
  assert (Hstep : forall k acc, k < n ->
            body k (d ++ [(parameterized_var self i, acc)])
            = Ok (d ++ [(parameterized_var self i,
                         sub acc (geodesic_term self i j k))])).
  { intros k acc Hk. unfold body.
    rewrite (py_index_total pv i (of_int 0)) by lia. simpl.
    fold (parameterized_var self i).
    rewrite (dict_get_app_fresh _ _ _ Hfresh). simpl. rewrite Heqb. simpl.
    rewrite (nd_get_total _ _ _ Hshape)
      by (apply (in_bounds_below n [i; j; k]); repeat constructor; assumption).
    simpl.
    rewrite (py_index_total pv j (of_int 0)) by lia. simpl.
    rewrite (py_index_total pv k (of_int 0)) by lia. simpl.
    rewrite (dict_set_app_fresh _ _ _ _ Hfresh). simpl. rewrite Heqb.
    reflexivity. }
  induction l as [|k l IH]; simpl; intros acc; [reflexivity|].
  rewrite Hstep by (apply Hl; left; reflexivity). simpl.
  apply IH. intros k' Hk'. apply Hl. right. exact Hk'.
Qed.

Lemma geodesic_loop_j (i : nat) (d : pydict expr) (l : list nat) :
  i < n -> (forall j, In j l -> j < n) ->
  fresh_key d (parameterized_var self i) ->
  forall acc,
    for_each l
      (fun j =>
         for_range n (fun k geodesic_equation =>
           key <- py_index pv i ;;
           old <- dict_get geodesic_equation key ;;
           g <- nd_get (christoffel_symbols self) [i; j; k] ;;
           pj <- py_index pv j ;;
           pk <- py_index pv k ;;
           Ok (dict_set geodesic_equation key
                 (sub old (mul (mul g (diff pj symbol_s)) (diff pk symbol_s))))))
      (d ++ [(parameterized_var self i, acc)])
    = Ok (d ++ [(parameterized_var self i,
                 fold_left
                   (fun acc j =>
                      fold_left (fun acc k => sub acc (geodesic_term self i j k))
                        (seq 0 n) acc)
                   l acc)]).
Proof.
  intros Hi Hl Hfresh.
  induction l as [|j l IH]; simpl; intros acc; [reflexivity|].
  unfold for_range at 1.
  rewrite (geodesic_loop_k i j d (seq 0 n)); try assumption.
  - simpl. apply IH. intros j' Hj'. apply Hl. right. exact Hj'.
  - apply Hl. left. reflexivity.
  - intros k Hk. apply in_seq in Hk. lia.
Qed.

Lemma compute_geodesic_equation_value :
  distinct_keys self n ->
  compute_geodesic_equation self = Ok (geodesic_equations self).
Proof.
  intros Hkeys. unfold compute_geodesic_equation. cbv zeta.
  destruct (for_range_total_upto
              (fun i ge =>
                 ge = map (fun i => (parameterized_var self i, geodesic_rhs self i))
                        (seq 0 i))
              (fun i geodesic_equation =>
                 pi <- py_index pv i ;;
                 for_range n (fun j =>
                   for_range n (fun k geodesic_equation =>
                     key <- py_index pv i ;;
                     old <- dict_get geodesic_equation key ;;
                     g <- nd_get (christoffel_symbols self) [i; j; k] ;;
                     pj <- py_index pv j ;;
                     pk <- py_index pv k ;;
                     Ok (dict_set geodesic_equation key
                           (sub old (mul (mul g (diff pj symbol_s))
                                       (diff pk symbol_s))))))
                   (dict_set geodesic_equation pi (of_int 0)))
              n [] eq_refl)
    as [ge [Hge Hval]].
  - intros i ge Hi ->.
    rewrite (bind_Ok _ _ _ (py_index_total pv i (of_int 0) ltac:(lia))).
    fold (parameterized_var self i).
    assert (Hfresh : fresh_key
                       (map (fun i => (parameterized_var self i, geodesic_rhs self i))
                          (seq 0 i))
                       (parameterized_var self i)).
    { intros kv Hkv. apply in_map_iff in Hkv. destruct Hkv as [i' [<- Hi']].
      apply in_seq in Hi'. simpl. apply Hkeys; lia. }
    rewrite (dict_set_fresh _ _ _ Hfresh).
    unfold for_range at 1.
    rewrite (geodesic_loop_j i _ (seq 0 n)); try assumption.
    + eexists. split; [reflexivity|].
      rewrite seq_S, map_app. unfold geodesic_rhs, dimension. reflexivity.
    + intros j Hj. apply in_seq in Hj. lia.
  - rewrite Hval in Hge. exact Hge.
Qed.

Lemma geodesic_equations_lookup (i : nat) :
  distinct_keys self n -> i < n ->
  dict_get (geodesic_equations self) (parameterized_var self i)
  = Ok (geodesic_rhs self i).
Proof.
  intros Hkeys Hi. unfold geodesic_equations, dimension.
  replace (seq 0 n) with (seq 0 i ++ i :: seq (S i) (n - S i)).
  - rewrite map_app. rewrite dict_get_app_fresh.
    + simpl. rewrite Heqb. reflexivity.
    + intros kv Hkv. apply in_map_iff in Hkv. destruct Hkv as [i' [<- Hi']].
      apply in_seq in Hi'. simpl. apply Hkeys; lia.
  - change (i :: seq (S i) (n - S i)) with (seq i (S (n - S i))).
    rewrite <- seq_app. f_equal. lia.
Qed.

Lemma geodesic_equations_missing_key (k : expr) :
  (forall i, i < n -> expr_eqb (parameterized_var self i) k = false) ->
  dict_get (geodesic_equations self) k = Raise KeyError.
Proof.
  intros H. apply dict_get_fresh. intros kv Hkv.
  apply in_map_iff in Hkv. destruct Hkv as [i [<- Hi]].
  apply in_seq in Hi. simpl. apply H. unfold dimension in Hi. lia.
Qed.

End GeodesicEquations.

Section GeodesicTheorems.

Context {B : SymbolicBackend} {N : NumericBackend B}.

(** A constructed model has a Christoffel array of the right shape and at
    least as many coordinate variables as dimensions. *)
Lemma constructed_model_variables (metric0 : list (list expr))
    (variables0 : list symbol) (self : RiemannGeometry) :
  RiemannGeometry_init metric0 variables0 = Ok self ->
  shape (christoffel_symbols self)
  = [dimension self; dimension self; dimension self] /\
  dimension self <= length (parameterized_vars (riemann_base self)) /\
  length (parameterized_vars (riemann_base self)) = length variables0.
Proof.
  intros H. apply RiemannGeometry_init_ok in H. cbv zeta in H.
  destruct H as (Hbase & Hgam & _).
  assert (Hpv : length (parameterized_vars (riemann_base self))
                = length (variables (riemann_base self)) /\
                variables (riemann_base self) = variables0).
  { unfold DifferentialGeometry_init in Hbase. ok_steps.
    rewrite <- Hbase. simpl. rewrite length_map. auto. }
  destruct Hpv as [Hpv Hx].
  split; [apply compute_christoffel_symbols_shape; exact Hgam|].
  split; [|congruence].
  destruct (le_lt_dec (dimension self) (length (variables (riemann_base self))))
    as [Hle|Hlt]; [lia|].
  rewrite (compute_christoffel_symbols_needs_variables _ Hlt) in Hgam.
  discriminate Hgam.
Qed.

(** X13.  When the parameterized variables of a constructed model are
    different expressions, [compute_geodesic_equation] returns the
    dictionary that maps [parameterized_vars[i]], for every [i] below
    [ndim] and in that order, to the integer 0 minus, in turn, the terms
    [gamma[i, j, k] * parameterized_vars[j].diff(s)
     * parameterized_vars[k].diff(s)], without simplification. *)
Theorem geodesic_equation_formula (Heqb : eqb_reflexive B)
    (metric0 : list (list expr)) (variables0 : list symbol)
    (self : RiemannGeometry) :
  RiemannGeometry_init metric0 variables0 = Ok self ->
  distinct_keys self (dimension self) ->
  compute_geodesic_equation self = Ok (geodesic_equations self) /\
  forall i, i < dimension self ->
    dict_get (geodesic_equations self) (parameterized_var self i)
    = Ok (geodesic_rhs self i).
Proof.
  intros H Hkeys.
  destruct (constructed_model_variables _ _ _ H) as (Hshape & Hpv & _).
  split.
  - apply compute_geodesic_equation_value; assumption.
  - intros i Hi. apply geodesic_equations_lookup; assumption.
Qed.

Lemma geodesic_function_missing_key (self : RiemannGeometry)
    (geodesic_equation : pydict expr) (l1 l2 : list expr) (x : expr) :
  parameterized_vars (riemann_base self) = l1 ++ x :: l2 ->
  dict_get geodesic_equation x = Raise KeyError ->
  geodesic_function self geodesic_equation = Raise KeyError.
Proof.
  intros Hsplit Hx. unfold geodesic_function. rewrite Hsplit.
  match goal with
  | |- fold_left ?f _ _ = _ => set (step := f)
  end.
  assert (Hstep : forall r var,
            only_raises KeyError r -> only_raises KeyError (step r var)).
  { intros r var Hr. unfold step. apply only_raises_bind; [exact Hr|].
    intros d. apply only_raises_bind; [apply dict_get_only_raises|].
    intros e. right. eexists. reflexivity. }
  assert (Hfold : forall l r,
            only_raises KeyError r -> only_raises KeyError (fold_left step l r)).
  { induction l as [|var l IH]; simpl; intros r Hr; [exact Hr|].
    apply IH, Hstep, Hr. }
  assert (Hstay : forall l, fold_left step l (Raise KeyError) = Raise KeyError).
  { induction l as [|var l IH]; simpl; [reflexivity | exact IH]. }
  rewrite fold_left_app. simpl.
  replace (step (fold_left step l1 (Ok [])) x) with
    (Raise KeyError : result (pydict (list Q -> result Q))); [apply Hstay|].
  symmetry. unfold step at 1.
  apply raises_after.
  - apply Hfold. right. eexists. reflexivity.
  - intros d. rewrite Hx. reflexivity.
Qed.

(** X14.  On a constructed model that was given more coordinate variables
    than the metric has rows, [solve_geodesic_equation] raises [KeyError]:
    the dictionary of geodesic equations has a key for each of the first
    [ndim] parameterized variables only, and line 164 looks up every
    parameterized variable.  This is for a seed that [np.random.seed]
    accepts, and the global generator has been seeded by then; a seed that
    is refused leaves the call earlier, at line 154. *)
Theorem geodesics_need_one_variable_per_row (Heqb : eqb_reflexive B)
    (metric0 : list (list expr)) (variables0 : list symbol)
    (self : RiemannGeometry) (seed : Z) (st st' : rng_state) :
  RiemannGeometry_init metric0 variables0 = Ok self ->
  dimension self < length variables0 ->
  distinct_keys self (S (dimension self)) ->
  random_seed seed = Ok st' ->
  solve_geodesic_equation self seed st = (Raise KeyError, st').
Proof.
  intros H Hmore Hkeys Hseed.
  destruct (constructed_model_variables _ _ _ H) as (Hshape & Hpv & Hlen).
  assert (Hkeys' : distinct_keys self (dimension self)).
  { intros i' i Hi' Hi. apply Hkeys; lia. }
  unfold solve_geodesic_equation. rewrite Hseed.
  rewrite (compute_geodesic_equation_value self Heqb Hshape Hpv Hkeys').
  destruct (nth_split (parameterized_vars (riemann_base self)) (of_int 0)
              (n := dimension self) ltac:(lia))
    as (l1 & l2 & Hsplit & Hl1).
  rewrite (geodesic_function_missing_key self _ l1 l2 _ Hsplit);
    [reflexivity|].
  apply geodesic_equations_missing_key; [exact Hpv|].
  intros i Hi. apply Hkeys; unfold dimension; lia.
Qed.

(** X15.  The right-hand side [func(y, s)] that [odeint] integrates
    returns, when it returns, a list of [ndim + len(parameterized_vars)]
    numbers: first [y[ndim]], ..., [y[2*ndim - 1]], the velocities, then
    the value at [y] of the numeric function stored for each parameterized
    variable. *)
Theorem func_returns_velocities (ndim : nat) (parameterized_vars : list expr)
    (geodesic_function : pydict (list Q -> result Q)) (y dy : list Q) (s : Q) :
  func ndim parameterized_vars geodesic_function y s = Ok dy ->
  length dy = ndim + length parameterized_vars /\
  (forall i, i < ndim ->
     i + ndim < length y /\ nth i dy 0%Q = nth (i + ndim) y 0%Q) /\
  (forall i, i < length parameterized_vars ->
     exists f,
       dict_get geodesic_function (nth i parameterized_vars (of_int 0)) = Ok f /\
       f y = Ok (nth (ndim + i) dy 0%Q)).
Proof.
  unfold func. intros H. ok_steps. subst dy.
  apply map_result_ok in Hv. destruct Hv as [Hl1 Hn1].
  apply map_result_ok in Hv0. destruct Hv0 as [Hl2 Hn2].
  rewrite length_seq in Hl1, Hn1.
  split; [rewrite length_app; lia|]. split.
  - intros i Hi. specialize (Hn1 i 0 0%Q Hi). rewrite seq_nth in Hn1 by exact Hi.
    simpl in Hn1. apply (py_index_ok _ _ _ 0%Q) in Hn1.
    destruct Hn1 as [Hval Hlen]. split; [exact Hlen|].
    rewrite app_nth1 by lia. exact Hval.
  - intros i Hi. specialize (Hn2 i (of_int 0) 0%Q Hi).
    apply bind_ok in Hn2. destruct Hn2 as [f [Hf Hfy]].
    exists f. split; [exact Hf|].
    rewrite app_nth2 by lia. replace (ndim + i - length v) with i by lia.
    exact Hfy.
Qed.

End GeodesicTheorems.

(** ** The backend of syntax trees *)

Lemma term_eqb_refl (a : term) : term_eqb a a = true.
Proof.
  induction a; simpl;
    rewrite ?Z.eqb_refl, ?String.eqb_refl, ?IHa, ?IHa1, ?IHa2; reflexivity.
Qed.

Lemma term_eqb_reflexive : eqb_reflexive TermBackend.
Proof. intros e. apply term_eqb_refl. Qed.

Lemma const_half_is_one_half : @half_is_one_half ConstBackend ConstEquiv.
Proof. reflexivity. Qed.

(** ** The further theorems on concrete inputs *)

Lemma plane_model_constructed :
  @RiemannGeometry_init TermBackend [[TInt 1; TInt 0]; [TInt 0; TInt 1]] xy
  = Ok plane_model.
Proof. apply from_ok_spec. vm_compute. reflexivity. Qed.

Lemma overnamed_line_constructed :
  @RiemannGeometry_init TermBackend [[TInt 1]] xy = Ok overnamed_line.
Proof. apply from_ok_spec. vm_compute. reflexivity. Qed.

Lemma constant_line_constructed :
  @RiemannGeometry_init ConstBackend [[5%Q]] ["x"%string] = Ok constant_line.
Proof. apply from_ok_spec. vm_compute. reflexivity. Qed.

Lemma constant_model_has_constant_entries :
  @constant_entries ConstBackend ConstEquiv constant_model.
Proof. intros i j k _ _ _. reflexivity. Qed.

(** On the sheared metric, of curvature -1, the Ricci tensor is minus the
    metric and the Einstein tensor is 0. *)
Example sheared_metric_tensors :
  Ric sheared_model 0 0 = Some [(-1)%Q] /\
  Ric sheared_model 0 1 = Some [0%Q; (-1)%Q] /\
  Ric sheared_model 1 0 = Some [0%Q; (-1)%Q] /\
  Ric sheared_model 1 1 = Some [(-1)%Q; 0%Q; (-1)%Q] /\
  Einstein sheared_model 0 0 = Some [] /\
  Einstein sheared_model 0 1 = Some [] /\
  Einstein sheared_model 1 0 = Some [] /\
  Einstein sheared_model 1 1 = Some [].
Proof. repeat split; vm_compute; reflexivity. Qed.

Lemma ricci_tensor_formula_witness :
  Ric sheared_model 0 1
  = simplify (Sum (dimension sheared_model)
                (fun lamda => Riem sheared_model lamda 0 lamda 1)).
Proof.
  apply (ricci_tensor_formula (B := PolyBackend) sheared_metric xy
           sheared_model 0 1 sheared_model_constructed); vm_compute; lia.
Defined.

Lemma ricci_scalar_formula_witness :
  ricci_scalar constant_model
  = simplify (ricci_scalar_sum (dimension constant_model)
                (inverse_metric (riemann_base constant_model))
                (ricci_tensor constant_model)) /\
  (ricci_scalar constant_model == ricci_scalar_double_sum constant_model)%E.
Proof.
  exact (@ricci_scalar_formula ConstBackend ConstEquiv const_ring_laws
           constant_metric xy constant_model constant_model_constructed).
Defined.

Lemma einstein_tensor_formula_witness :
  Einstein sheared_model 1 1
  = simplify (Ric sheared_model 1 1
              - half_float * ricci_scalar sheared_model
                * metric_at sheared_model 1 1)%E.
Proof.
  apply (einstein_tensor_formula (B := PolyBackend) sheared_metric xy
           sheared_model 1 1 sheared_model_constructed); vm_compute; lia.
Defined.

Lemma tensor_shapes_witness :
  dimension sheared_model = length sheared_metric /\
  shape (christoffel_symbols sheared_model) = [2; 2; 2] /\
  shape (riemann_curvature_tensor sheared_model) = [2; 2; 2; 2] /\
  shape (ricci_tensor sheared_model) = [2; 2] /\
  shape (einstein_tensor sheared_model) = [2; 2].
Proof.
  exact (tensor_shapes (B := PolyBackend) sheared_metric xy sheared_model
           sheared_model_constructed).
Defined.

Lemma riemann_tensor_vanishes_on_equal_indices_witness :
  (Riem constant_model 0 1 1 1 == zero)%E.
Proof.
  apply (@riemann_tensor_vanishes_on_equal_indices ConstBackend ConstEquiv
           const_ring_laws constant_metric xy constant_model 0 1 1
           constant_model_constructed); vm_compute; lia.
Defined.

Lemma one_dimensional_model_is_flat_witness :
  (Riem constant_line 0 0 0 0 == zero)%E /\
  (Ric constant_line 0 0 == zero)%E /\
  (ricci_scalar constant_line == zero)%E /\
  (Einstein constant_line 0 0 == zero)%E.
Proof.
  apply (@one_dimensional_model_is_flat ConstBackend ConstEquiv
           const_ring_laws [[5%Q]] ["x"%string] constant_line
           constant_line_constructed).
  reflexivity.
Defined.

Lemma riemann_geometry_needs_variables_witness :
  @RiemannGeometry_init PolyBackend [[Some [1%Q]]] [] = Raise IndexError.
Proof.
  apply (riemann_geometry_needs_variables (B := PolyBackend)).
  - exists (from_ok empty_geometry
              (@DifferentialGeometry_init PolyBackend [[Some [1%Q]]] [])).
    apply from_ok_spec. vm_compute. reflexivity.
  - simpl. lia.
Defined.

Lemma classical_geometry_needs_two_variables_witness :
  @ClassicalDifferentialGeometry_init PolyBackend sheared_metric ["x"%string]
  = Raise IndexError /\
  succeeds (@ClassicalDifferentialGeometry_init PolyBackend sheared_metric xy).
Proof.
  split.
  - apply (classical_geometry_needs_two_variables (B := PolyBackend)
             sheared_metric ["x"%string]).
    + exists (from_ok empty_geometry
                (@DifferentialGeometry_init PolyBackend sheared_metric
                   ["x"%string])).
      apply from_ok_spec. vm_compute. reflexivity.
    + split; [reflexivity | repeat constructor].
    + simpl. lia.
  - apply (classical_geometry_needs_two_variables (B := PolyBackend)
             sheared_metric xy).
    + exists (from_ok empty_geometry
                (@DifferentialGeometry_init PolyBackend sheared_metric xy)).
      apply from_ok_spec. vm_compute. reflexivity.
    + split; [reflexivity | repeat constructor].
    + simpl. lia.
Defined.

Lemma christoffel_symbols_of_constant_metric_witness :
  (Gamma constant_model 0 1 1 == zero)%E.
Proof.
  apply (@christoffel_symbols_of_constant_metric ConstBackend ConstEquiv
           const_field_laws constant_metric xy constant_model 0 1 1
           constant_model_constructed constant_model_has_constant_entries);
    vm_compute; lia.
Defined.

Lemma constant_metric_is_flat_witness :
  (Riem constant_model 0 1 0 1 == zero)%E /\
  (Ric constant_model 1 1 == zero)%E /\
  (ricci_scalar constant_model == zero)%E /\
  (Einstein constant_model 0 1 == zero)%E.
Proof.
  destruct (@constant_metric_is_flat ConstBackend ConstEquiv const_field_laws
              constant_metric xy constant_model constant_model_constructed
              constant_model_has_constant_entries)
    as (HRiem & HRic & Hscalar & HEinstein).
  split; [apply HRiem; vm_compute; lia|].
  split; [apply HRic; vm_compute; lia|].
  split; [exact Hscalar|].
  apply HEinstein; vm_compute; lia.
Defined.

Lemma geodesics_of_constant_metric_witness :
  @expr_equiv ConstBackend ConstEquiv
    (from_ok 1%Q
       (dict_get
          (from_ok [] (@compute_geodesic_equation ConstBackend constant_model))
          (parameterized_var constant_model 0)))
    zero.
Proof.
  apply (@geodesics_of_constant_metric ConstBackend ConstEquiv const_field_laws
           constant_metric xy constant_model
           (from_ok [] (@compute_geodesic_equation ConstBackend constant_model))
           (parameterized_var constant_model 0)).
  - exact constant_model_constructed.
  - exact constant_model_has_constant_entries.
  - apply from_ok_spec. vm_compute. reflexivity.
  - apply from_ok_spec. vm_compute. reflexivity.
Defined.

Lemma gaussian_curvature_of_constant_metric_witness :
  (gaussian_curvature constant_classical == zero)%E.
Proof.
  apply (@gaussian_curvature_of_constant_metric ConstBackend ConstEquiv
           const_field_laws constant_metric xy constant_classical
           constant_classical_constructed).
  intros i j k _ _ _. reflexivity.
Defined.

Lemma plane_model_keys : distinct_keys plane_model 2.
Proof.
  intros i' i Hi' Hi.
  destruct i as [|[|i]]; [lia | | lia].
  destruct i' as [|i']; [|lia].
  vm_compute. reflexivity.
Qed.

Lemma geodesic_equation_formula_witness :
  @compute_geodesic_equation TermBackend plane_model
  = Ok (geodesic_equations plane_model) /\
  forall i, i < dimension plane_model ->
    dict_get (geodesic_equations plane_model) (parameterized_var plane_model i)
    = Ok (geodesic_rhs plane_model i).
Proof.
  exact (geodesic_equation_formula (B := TermBackend) term_eqb_reflexive
           [[TInt 1; TInt 0]; [TInt 0; TInt 1]] xy plane_model
           plane_model_constructed plane_model_keys).
Defined.

Lemma overnamed_line_keys : distinct_keys overnamed_line 2.
Proof.
  intros i' i Hi' Hi.
  destruct i as [|[|i]]; [lia | | lia].
  destruct i' as [|i']; [|lia].
  vm_compute. reflexivity.
Qed.

Lemma geodesics_need_one_variable_per_row_witness :
  @solve_geodesic_equation TermBackend TermNumeric overnamed_line 104 0%Z
  = (Raise KeyError, 104%Z).
Proof.
  apply (geodesics_need_one_variable_per_row (B := TermBackend)
           (N := TermNumeric) term_eqb_reflexive [[TInt 1]] xy overnamed_line
           104 0%Z 104%Z overnamed_line_constructed).
  - vm_compute. lia.
  - exact overnamed_line_keys.
  - reflexivity.
Defined.

Lemma func_returns_velocities_witness :
  length [4%Q; 7%Q] = 1 + length [TApply "x" "s"] /\
  (forall i, i < 1 ->
     i + 1 < length [3%Q; 4%Q] /\
     nth i [4%Q; 7%Q] 0%Q = nth (i + 1) [3%Q; 4%Q] 0%Q) /\
  (forall i, i < length [TApply "x" "s"] ->
     exists f,
       @dict_get TermBackend _
         [(TApply "x" "s", fun y : list Q => Ok 7%Q)]
         (nth i [TApply "x" "s"] (TInt 0)) = Ok f /\
       f [3%Q; 4%Q] = Ok (nth (1 + i) [4%Q; 7%Q] 0%Q)).
Proof.
  apply (func_returns_velocities (B := TermBackend) 1 [TApply "x" "s"]
           [(TApply "x" "s", fun y : list Q => Ok 7%Q)]
           [3%Q; 4%Q] [4%Q; 7%Q] 0%Q).
  reflexivity.
Defined.

Lemma ricci_tensor_in_two_dimensions_witness :
  (Ric constant_model 0 1
   == ricci_scalar constant_model / of_int 2 * metric_at constant_model 0 1)%E.
Proof.
  apply (@ricci_tensor_in_two_dimensions ConstBackend ConstEquiv
           const_field_laws 2%Q 1%Q 1%Q 3%Q xy constant_model 0 1
           constant_model_constructed).
  - reflexivity.
  - lia.
  - lia.
Defined.

Lemma einstein_tensor_vanishes_in_two_dimensions_witness :
  (Einstein constant_model 1 0 == zero)%E.
Proof.
  apply (@einstein_tensor_vanishes_in_two_dimensions ConstBackend ConstEquiv
           const_field_laws const_half_is_one_half 2%Q 1%Q 1%Q 3%Q xy
           constant_model 1 0 constant_model_constructed).
  - reflexivity.
  - lia.
  - lia.
Defined.
